(** * WordPress quick-instance: the provisioning and migration engine

    A shallow embedding of the stages of [WordPressSetup] in [index.js]
    that the engine specification talks about: the readiness poll, the
    database provisioner, the wp-config patcher, the search-replace
    stage with its raw fallback, and the admin reconciliation stage;
    and, after them, of the import stage, the validators of the prompt,
    the hooks, the Valet stage, and the installation of plugins and
    themes.

    JavaScript strings are sequences of UTF-16 code units; they are
    modelled as lists of [N].  External systems (child processes, the
    database connection, the file system, HTTP, the random source, the
    clock) are an explicit environment; a stage is a computation over
    the instance fields and the outside world that returns or throws,
    and every call it makes to the outside is emitted as an event with
    the answer it got.  Console output and spinner text are not part of
    the model. *)

From Stdlib Require Import List NArith ZArith Arith Bool String Ascii Lia.
From Stdlib Require DecimalString DecimalPos DecimalN.
Import ListNotations.

Set Implicit Arguments.

(* ================================================================== *)
(** ** JavaScript strings                                              *)
(* ================================================================== *)

Module JS.

Definition jsstring := list N.

(** A literal of the source, unit by unit (the literals are ASCII). *)
Fixpoint lit (s : string) : jsstring :=
  match s with
  | EmptyString => []
  | String c r => N_of_ascii c :: lit r
  end.

(** The double quote and the backslash, by code unit. *)
Definition dq : jsstring := [34%N].
Definition bslash : jsstring := [92%N].
Definition nl : jsstring := [10%N].

Definition str_eqb (a b : jsstring) : bool :=
  if list_eq_dec N.eq_dec a b then true else false.

Lemma str_eqb_eq a b : str_eqb a b = true <-> a = b.
Proof. unfold str_eqb. destruct (list_eq_dec N.eq_dec a b); split; congruence. Qed.

Lemma str_eqb_refl a : str_eqb a a = true.
Proof. apply str_eqb_eq. reflexivity. Qed.

(** Truthiness of a string value: the empty string is falsy. *)
Definition truthy (s : jsstring) : bool :=
  match s with [] => false | _ => true end.

(** Truthiness of a value that may be [null] or [undefined]. *)
Definition truthy_opt (o : option jsstring) : bool :=
  match o with Some s => truthy s | None => false end.

(** [a || b] where [a] may be missing and [b] is a string. *)
Definition or_else (a : option jsstring) (b : jsstring) : jsstring :=
  match a with
  | Some s => if truthy s then s else b
  | None => b
  end.

(** Number to string, for the non-negative integers the model uses. *)
Definition String_of_N (n : N) : jsstring :=
  lit (DecimalString.NilEmpty.string_of_uint (N.to_uint n)).

Definition String_of_bool (b : bool) : jsstring :=
  if b then lit "true" else lit "false".

(** [s.startsWith(p)] *)
Fixpoint startsWith (p s : jsstring) : bool :=
  match p, s with
  | [], _ => true
  | _ :: _, [] => false
  | a :: p', b :: s' => N.eqb a b && startsWith p' s'
  end.

(** [s.includes(sub)] *)
Fixpoint includes (s sub : jsstring) : bool :=
  startsWith sub s ||
  match s with
  | [] => false
  | _ :: s' => includes s' sub
  end.

(** [s.indexOf(sub)], [None] for -1. *)
Fixpoint indexOf_from (s sub : jsstring) (i : nat) : option nat :=
  if startsWith sub s then Some i
  else match s with
       | [] => None
       | _ :: s' => indexOf_from s' sub (S i)
       end.

Definition indexOf (s sub : jsstring) : option nat := indexOf_from s sub 0.

(** WhiteSpace and LineTerminator code units: what [\s] matches and what
    [trim] removes. *)
Definition is_space (c : N) : bool :=
  let u x := N.eqb c x in
  (u 9 || u 10 || u 11 || u 12 || u 13 || u 32 || u 160 ||
   u 5760 || (N.leb 8192 c && N.leb c 8202) ||
   u 8232 || u 8233 || u 8239 || u 8287 || u 12288 || u 65279)%N.

Fixpoint trimStart (s : jsstring) : jsstring :=
  match s with
  | c :: s' => if is_space c then trimStart s' else s
  | [] => []
  end.

Definition trimEnd (s : jsstring) : jsstring := rev (trimStart (rev s)).

Definition trim (s : jsstring) : jsstring := trimEnd (trimStart s).

(** [s.split(sep)] for a one-unit separator: always at least one piece. *)
Fixpoint split_on (sep : N) (s : jsstring) : list jsstring :=
  match s with
  | [] => [[]]
  | c :: s' =>
      if N.eqb c sep then [] :: split_on sep s'
      else match split_on sep s' with
           | p :: ps => (c :: p) :: ps
           | [] => [[c]]
           end
  end.

(** [arr.join(sep)] *)
Fixpoint join (sep : jsstring) (l : list jsstring) : jsstring :=
  match l with
  | [] => []
  | [x] => x
  | x :: rest => x ++ sep ++ join sep rest
  end.

(** [s.charAt(i)]: the empty string when [i] is out of range. *)
Definition charAt (s : jsstring) (i : nat) : jsstring :=
  match nth_error s i with
  | Some c => [c]
  | None => []
  end.

(** [s.slice(0, n)] for [n >= 0]. *)
Definition slice0 (s : jsstring) (n : nat) : jsstring := firstn n s.

(** *** [parseInt(s)] without a radix

    Leading white space is skipped, a sign is read, a [0x]/[0X] prefix
    selects radix 16, and the longest run of digits is converted.  [None]
    stands for [NaN].  The value is kept as an exact integer: the stage
    only compares it with zero. *)

Definition digit_val (radix : N) (c : N) : option N :=
  let v :=
    if (N.leb 48 c && N.leb c 57)%bool then Some (c - 48)%N
    else if (N.leb 97 c && N.leb c 122)%bool then Some (c - 97 + 10)%N
    else if (N.leb 65 c && N.leb c 90)%bool then Some (c - 65 + 10)%N
    else None in
  match v with
  | Some d => if N.ltb d radix then Some d else None
  | None => None
  end.

Fixpoint digits_acc (radix : N) (s : jsstring) (acc : option N) : option N :=
  match s with
  | [] => acc
  | c :: s' =>
      match digit_val radix c with
      | Some d =>
          digits_acc radix s'
            (Some (match acc with Some a => a * radix + d | None => d end)%N)
      | None => acc
      end
  end.

(** The sign: a leading [-] (45) or [+] (43). *)
Definition read_sign (s : jsstring) : bool * jsstring :=
  match s with
  | c :: r =>
      if N.eqb c 45 then (true, r)
      else if N.eqb c 43 then (false, r)
      else (false, s)
  | [] => (false, s)
  end.

(** The radix: 16 after a leading [0x] or [0X], else 10. *)
Definition read_radix (s : jsstring) : N * jsstring :=
  match s with
  | c1 :: c2 :: r =>
      if N.eqb c1 48 && (N.eqb c2 120 || N.eqb c2 88) then (16%N, r) else (10%N, s)
  | _ => (10%N, s)
  end.

Definition parseInt (input : jsstring) : option Z :=
  let s := trimStart input in
  let '(neg, s1) := read_sign s in
  let '(radix, s2) := read_radix s1 in
  match digits_acc radix s2 None with
  | Some v => Some (if neg then (- Z.of_N v)%Z else Z.of_N v)
  | None => None
  end.

(** [parseInt(s) > 0]; any comparison with [NaN] is false. *)
Definition parseInt_gt0 (input : jsstring) : bool :=
  match parseInt input with
  | Some v => Z.ltb 0 v
  | None => false
  end.

(** *** Replacement-string expansion

    [GetSubstitution] for a pattern without capture groups: [$$] is a
    dollar sign, [$&] the matched text, [$`] the text before the match,
    [$'] the text after it; every other [$] stands for itself. *)
Fixpoint getSubstitution (matched before after repl : jsstring) : jsstring :=
  match repl with
  | [] => []
  | 36%N :: rest =>
      match rest with
      | 36%N :: r => 36%N :: getSubstitution matched before after r
      | 38%N :: r => matched ++ getSubstitution matched before after r
      | 96%N :: r => before ++ getSubstitution matched before after r
      | 39%N :: r => after ++ getSubstitution matched before after r
      | _ => 36%N :: getSubstitution matched before after rest
      end
  | c :: rest => c :: getSubstitution matched before after rest
  end.

(** [s.replace(pat, repl)] with a string pattern: first occurrence only. *)
Definition replace_str (s pat repl : jsstring) : jsstring :=
  match indexOf s pat with
  | None => s
  | Some i =>
      let before := firstn i s in
      let after := skipn (i + List.length pat) s in
      before ++ getSubstitution pat before after repl ++ after
  end.

(** *** Regular expressions

    The fragment the patcher uses: literals, one unit of a class, a
    greedy starred class, and the end anchor.  Matching is leftmost,
    greedy, with backtracking. *)
Inductive atom : Type :=
| ALit (s : jsstring)
| AClass (p : N -> bool)
| AStar (p : N -> bool)
| AEnd.

Definition regex := list atom.

Fixpoint star_match (p : N -> bool) (k : jsstring -> option nat)
         (s : jsstring) : option nat :=
  match s with
  | c :: s' =>
      if p c then
        match star_match p k s' with
        | Some n => Some (S n)
        | None => k s
        end
      else k s
  | [] => k []
  end.

Fixpoint match_here (r : regex) (s : jsstring) : option nat :=
  match r with
  | [] => Some 0
  | ALit l :: r' =>
      if startsWith l s
      then option_map (fun n => List.length l + n) (match_here r' (skipn (List.length l) s))
      else None
  | AClass p :: r' =>
      match s with
      | c :: s' => if p c then option_map S (match_here r' s') else None
      | [] => None
      end
  | AStar p :: r' => star_match p (match_here r') s
  | AEnd :: r' =>
      match s with
      | [] => match_here r' []
      | _ :: _ => None
      end
  end.

(** Leftmost match: [(index, length)]. *)
Fixpoint regex_search (r : regex) (s : jsstring) (i : nat) : option (nat * nat) :=
  match match_here r s with
  | Some n => Some (i, n)
  | None =>
      match s with
      | [] => None
      | _ :: s' => regex_search r s' (S i)
      end
  end.

(** [s.replace(re, repl)] for a regular expression without the [g] flag. *)
Definition replace_re (s : jsstring) (r : regex) (repl : jsstring) : jsstring :=
  match regex_search r s 0 with
  | None => s
  | Some (i, n) =>
      let before := firstn i s in
      let matched := firstn n (skipn i s) in
      let after := skipn (i + n) s in
      before ++ getSubstitution matched before after repl ++ after
  end.

Definition any_unit (_ : N) : bool := true.
Definition is_quote (c : N) : bool := N.eqb c 39 || N.eqb c 34.
Definition not_quote (c : N) : bool := negb (is_quote c).

End JS.

Import JS.

(* ================================================================== *)
(** ** Configuration and instance state                                *)
(* ================================================================== *)

(** The parts of [config.json] the engine reads.  A value that may be
    [null] is an [option]. *)

Record DockerCfg := {
  dk_enabled : bool;
  dk_containerName : jsstring;
  dk_image : jsstring;
  dk_port : N;
  dk_rootPassword : jsstring;
  dk_dataVolume : jsstring;
  dk_network : jsstring
}.

Record DatabaseCfg := {
  db_host : jsstring;
  db_user : jsstring;
  db_password : jsstring;
  db_port : N;
  db_charset : jsstring;
  db_collate : jsstring;
  db_prefix : jsstring;
  db_createUser : bool;
  db_userPrefix : jsstring;
  db_grantPrivileges : list jsstring;
  db_docker : DockerCfg
}.

Record WordpressCfg := {
  wp_adminUser : jsstring;
  wp_memoryLimit : option jsstring
}.

Record Replacement := {
  search : jsstring;
  replace : jsstring
}.

Record SearchReplaceCfg := {
  sr_enabled : bool;
  sr_caseSensitive : bool;
  sr_regex : bool;
  sr_dryRun : bool;
  sr_additionalReplacements : list Replacement
}.

Record SqlCfg := {
  sql_source : option jsstring;
  sql_oldUrl : option jsstring;
  sql_oldDomain : option jsstring;
  sql_searchReplace : SearchReplaceCfg;
  sql_optimizeAfterImport : bool;
  sql_repairAfterImport : bool
}.

Record DevelopmentCfg := {
  dev_enableDebug : bool;
  dev_debugLog : bool;
  dev_wpDebugLog : bool;
  dev_wpDebugDisplay : bool;
  dev_scriptDebug : bool;
  dev_saveQueries : bool
}.

Record SecurityCfg := { sec_disableFileEditing : bool }.

Record ValetCfg := { valet_domain : jsstring }.

Record CustomCfg := { custom_wpConfig : list jsstring }.

Record AdvancedCfg := {
  adv_skipDatabaseCreation : bool;
  adv_skipSearchReplace : bool;
  adv_verbose : bool
}.

Record Config := {
  database : DatabaseCfg;
  wordpress : WordpressCfg;
  sql : SqlCfg;
  development : DevelopmentCfg;
  security : SecurityCfg;
  valet : ValetCfg;
  custom : CustomCfg;
  advanced : AdvancedCfg
}.

(** The mutable fields of the [WordPressSetup] instance.  [dbUser] and
    [dbPassword] are undefined until [createDatabase] creates a
    dedicated user. *)
Record This := {
  websiteName : jsstring;
  websitePath : jsstring;
  dbName : jsstring;
  dbUser : option jsstring;
  dbPassword : option jsstring;
  adminPassword : jsstring;
  adminEmail : jsstring
}.

Definition set_credentials (t : This) (u p : jsstring) : This :=
  {| websiteName := websiteName t; websitePath := websitePath t;
     dbName := dbName t; dbUser := Some u; dbPassword := Some p;
     adminPassword := adminPassword t; adminEmail := adminEmail t |}.

(* ================================================================== *)
(** ** The configuration patcher: the text transformation of
       [updateWpConfig]                                                *)
(* ================================================================== *)

Module Patcher.

(** The pattern [define \s* ( \s* Q KEY Q \s* , \s* Q N* Q \s* )], where [Q]
    is the class of the single and the double quote and [N] its
    complement. *)
Definition define_re (key : jsstring) : regex :=
  [ ALit (lit "define"); AStar is_space; ALit (lit "("); AStar is_space;
    AClass is_quote; ALit key; AClass is_quote; AStar is_space;
    ALit (lit ","); AStar is_space;
    AClass is_quote; AStar not_quote; AClass is_quote; AStar is_space;
    ALit (lit ")") ].

(** [/\/\*\s*That's all, stop editing!.*$/s] *)
Definition marker_re : regex :=
  [ ALit (lit "/*"); AStar is_space; ALit (lit "That's all, stop editing!");
    AStar any_unit; AEnd ].

Definition marker : jsstring :=
  lit "/* That's all, stop editing! Happy publishing. */".

(** [define( 'KEY', VALUE )] *)
Definition define_stmt (key value : jsstring) : jsstring :=
  lit "define( '" ++ key ++ lit "', '" ++ value ++ lit "' )".

(** Neither [define( 'KEY'] nor the same text with double quotes around
    the key occurs in [wpConfig]. *)
Definition not_defined (wpConfig key : jsstring) : bool :=
  negb (includes wpConfig (lit "define( '" ++ key ++ lit "'")) &&
  negb (includes wpConfig (lit "define( " ++ dq ++ key ++ dq)).

(** [debugSettings.push(`define( 'KEY', ${value} );`)] when the key is not
    yet defined. *)
Definition push_debug (wpConfig : jsstring) (key : jsstring) (value : bool)
           (debugSettings : list jsstring) : list jsstring :=
  if not_defined wpConfig key
  then debugSettings ++
       [lit "define( '" ++ key ++ lit "', " ++ String_of_bool value ++ lit " );"]
  else debugSettings.

Definition updateWpConfig_text (cfg : Config) (this : This)
           (salts : jsstring) (wpConfig : jsstring) : jsstring :=
  let db := database cfg in
  let dbUser := or_else (dbUser this) (db_user db) in
  let dbPassword := or_else (dbPassword this) (db_password db) in
  (* Replace database configuration *)
  let wpConfig := replace_re wpConfig (define_re (lit "DB_NAME"))
                    (define_stmt (lit "DB_NAME") (dbName this)) in
  let wpConfig := replace_re wpConfig (define_re (lit "DB_USER"))
                    (define_stmt (lit "DB_USER") dbUser) in
  let wpConfig := replace_re wpConfig (define_re (lit "DB_PASSWORD"))
                    (define_stmt (lit "DB_PASSWORD") dbPassword) in
  let wpConfig := replace_re wpConfig (define_re (lit "DB_HOST"))
                    (define_stmt (lit "DB_HOST")
                       (db_host db ++ lit ":" ++ String_of_N (db_port db))) in
  let wpConfig := replace_re wpConfig (define_re (lit "DB_CHARSET"))
                    (define_stmt (lit "DB_CHARSET") (db_charset db)) in
  let wpConfig := replace_re wpConfig (define_re (lit "DB_COLLATE"))
                    (define_stmt (lit "DB_COLLATE") (db_collate db)) in
  (* Add table prefix *)
  let wpConfig := replace_re wpConfig (define_re (lit "$table_prefix"))
                    (define_stmt (lit "$table_prefix") (db_prefix db)) in
  (* Add salts *)
  let wpConfig :=
    if negb (includes wpConfig (lit "AUTH_KEY"))
    then replace_re wpConfig marker_re (salts ++ nl ++ nl ++ marker)
    else wpConfig in
  (* Add development settings *)
  let wpConfig :=
    if dev_enableDebug (development cfg) then
      let dev := development cfg in
      let debugSettings := [] in
      let debugSettings := push_debug wpConfig (lit "WP_DEBUG") (dev_debugLog dev) debugSettings in
      let debugSettings := push_debug wpConfig (lit "WP_DEBUG_LOG") (dev_wpDebugLog dev) debugSettings in
      let debugSettings := push_debug wpConfig (lit "WP_DEBUG_DISPLAY") (dev_wpDebugDisplay dev) debugSettings in
      let debugSettings := push_debug wpConfig (lit "SCRIPT_DEBUG") (dev_scriptDebug dev) debugSettings in
      let debugSettings := push_debug wpConfig (lit "SAVEQUERIES") (dev_saveQueries dev) debugSettings in
      if Nat.ltb 0 (List.length debugSettings) then
        let debugSettingsBlock :=
          nl ++ lit "// Development settings" ++ nl ++ join nl debugSettings in
        replace_re wpConfig marker_re (debugSettingsBlock ++ nl ++ nl ++ marker)
      else wpConfig
    else wpConfig in
  (* Add security settings *)
  let wpConfig :=
    if sec_disableFileEditing (security cfg) then
      if not_defined wpConfig (lit "DISALLOW_FILE_EDIT")
      then replace_re wpConfig marker_re
             (nl ++ lit "define( 'DISALLOW_FILE_EDIT', true );" ++ nl ++ nl ++ marker)
      else wpConfig
    else wpConfig in
  (* Add performance settings *)
  let wpConfig :=
    match wp_memoryLimit (wordpress cfg) with
    | Some memoryLimit =>
        if truthy memoryLimit then
          if not_defined wpConfig (lit "WP_MEMORY_LIMIT")
          then replace_re wpConfig marker_re
                 (nl ++ lit "define( 'WP_MEMORY_LIMIT', '" ++ memoryLimit ++ lit "' );"
                     ++ nl ++ nl ++ marker)
          else wpConfig
        else wpConfig
    | None => wpConfig
    end in
  (* Add custom wp-config lines *)
  let wpConfig :=
    if Nat.ltb 0 (List.length (custom_wpConfig (custom cfg))) then
      let customConfig := nl ++ join nl (custom_wpConfig (custom cfg)) ++ nl in
      replace_re wpConfig marker_re (customConfig ++ nl ++ marker)
    else wpConfig in
  (* Ensure wp-config.php ends with proper WordPress loading *)
  let wpConfig :=
    if negb (includes wpConfig (lit "require_once(ABSPATH . 'wp-settings.php');"))
    then replace_re wpConfig marker_re
           (nl ++ marker ++ nl ++ nl ++ lit "require_once(ABSPATH . 'wp-settings.php');")
    else wpConfig in
  wpConfig.

End Patcher.

(* ================================================================== *)
(** ** External commands                                               *)
(* ================================================================== *)

(** The source assembles every command line by string interpolation.
    The model keeps each command as a descriptor and gives its text with
    [render]; only the readiness probe, whose text is edited after it is
    built, is kept as text. *)

Inductive Stdio : Type := Pipe | Inherit.

(** Statements handed to the [mysql] client with [-e]. *)
Inductive Sql : Type :=
| SqlOptimizeTables
| SqlRepairTables
| SqlShowTables
| SqlUpdateOptionValue (table search_ replace_ : jsstring)
| SqlUpdateColumn (table column search_ replace_ : jsstring)
| SqlCountUsers (prefix login : jsstring)
| SqlUpdateUserPass (prefix hashedPassword login : jsstring)
| SqlInsertUser (prefix login hashedPassword email now : jsstring)
| SqlSelectUserId (prefix login : jsstring)
| SqlInsertCapabilities (prefix userId : jsstring).

Inductive MysqlTarget : Type :=
| ViaDocker (containerName : jsstring)
| Direct (host : jsstring) (port : N).

Record MysqlClient := {
  mc_target : MysqlTarget;
  mc_user : jsstring;
  mc_passwordParam : jsstring;
  mc_database : jsstring
}.

Inductive MysqlInput : Type :=
| InputFile (sqlPath : jsstring)
| Execute (stmt : Sql).

Inductive Cmd : Type :=
| CmdText (text : jsstring)
| CmdMysql (client : MysqlClient) (input : MysqlInput)
| CmdWpSearchReplace (search_ replace_ path dryRunFlag caseSensitiveFlag regexFlag : jsstring)
| CmdWpEvalHash (password path : jsstring)
| CmdDockerPsAll (containerName : jsstring)
| CmdDockerPs (containerName : jsstring)
| CmdDockerStart (containerName : jsstring)
| CmdDockerVolumeCreate (dataVolume : jsstring)
| CmdDockerRun (containerName rootPassword : jsstring) (port : N)
               (dataVolume network image : jsstring).

Module Render.

Definition core_tables : jsstring :=
  lit "wp_posts, wp_postmeta, wp_options, wp_usermeta, wp_users, wp_terms, wp_term_taxonomy, wp_term_relationships, wp_termmeta, wp_comments, wp_commentmeta;".

(** A backquote escaped for the shell: backslash, backquote. *)
Definition bq : jsstring := bslash ++ lit "`".

Definition sql_text (s : Sql) : jsstring :=
  match s with
  | SqlOptimizeTables => lit "OPTIMIZE TABLE " ++ core_tables
  | SqlRepairTables => lit "REPAIR TABLE " ++ core_tables
  | SqlShowTables => lit "SHOW TABLES"
  | SqlUpdateOptionValue table s r =>
      lit "UPDATE " ++ bq ++ table ++ bq ++
      lit " SET option_value = REPLACE(option_value, '" ++ s ++ lit "', '" ++ r ++
      lit "') WHERE option_value LIKE '%" ++ s ++ lit "%'"
  | SqlUpdateColumn table column s r =>
      lit "UPDATE " ++ bq ++ table ++ bq ++
      lit " SET " ++ bq ++ column ++ bq ++
      lit " = REPLACE(" ++ bq ++ column ++ bq ++ lit ", '" ++ s ++ lit "', '" ++ r ++
      lit "') WHERE " ++ bq ++ column ++ bq ++ lit " LIKE '%" ++ s ++ lit "%'"
  | SqlCountUsers prefix login =>
      lit "SELECT COUNT(*) as count FROM " ++ prefix ++
      lit "users WHERE user_login = '" ++ login ++ lit "'"
  | SqlUpdateUserPass prefix hashedPassword login =>
      lit "UPDATE " ++ prefix ++ lit "users SET user_pass = '" ++ hashedPassword ++
      lit "' WHERE user_login = '" ++ login ++ lit "'"
  | SqlInsertUser prefix login hashedPassword email now =>
      lit "INSERT INTO " ++ prefix ++
      lit "users (user_login, user_pass, user_nicename, user_email, user_url, user_registered, user_activation_key, user_status, display_name) VALUES ('" ++
      login ++ lit "', '" ++ hashedPassword ++ lit "', '" ++ login ++ lit "', '" ++
      email ++ lit "', '', '" ++ now ++ lit "', '', 0, '" ++ login ++ lit "')"
  | SqlSelectUserId prefix login =>
      lit "SELECT ID FROM " ++ prefix ++
      lit "users WHERE user_login = '" ++ login ++ lit "'"
  | SqlInsertCapabilities prefix userId =>
      lit "INSERT INTO " ++ prefix ++
      lit "usermeta (user_id, meta_key, meta_value) VALUES (" ++ userId ++
      lit ", '" ++ prefix ++ lit "capabilities', 'a:1:{s:13:" ++ bslash ++ dq ++
      lit "administrator" ++ bslash ++ dq ++ lit ";b:1;}'), (" ++ userId ++
      lit ", '" ++ prefix ++ lit "user_level', '10')"
  end.

Definition mysql_text (c : MysqlClient) (i : MysqlInput) : jsstring :=
  let head :=
    match mc_target c with
    | ViaDocker containerName =>
        lit "docker exec " ++
        (match i with InputFile _ => lit "-i " | Execute _ => [] end) ++
        containerName ++ lit " mysql -hlocalhost -u" ++ mc_user c ++ lit " " ++
        mc_passwordParam c ++ lit " -P3306 " ++ mc_database c
    | Direct host port =>
        lit "mysql -h" ++ host ++ lit " -u" ++ mc_user c ++ lit " " ++
        mc_passwordParam c ++ lit " -P" ++ String_of_N port ++ lit " " ++
        mc_database c
    end in
  match i with
  | InputFile sqlPath => head ++ lit " < " ++ dq ++ sqlPath ++ dq
  | Execute stmt => head ++ lit " -e " ++ dq ++ sql_text stmt ++ dq
  end.

Definition render (c : Cmd) : jsstring :=
  match c with
  | CmdText text => text
  | CmdMysql client input => mysql_text client input
  | CmdWpSearchReplace s r path dryRunFlag caseSensitiveFlag regexFlag =>
      lit "wp search-replace " ++ dq ++ s ++ dq ++ lit " " ++ dq ++ r ++ dq ++
      lit " --path=" ++ dq ++ path ++ dq ++ lit " --all-tables " ++
      dryRunFlag ++ lit " " ++ caseSensitiveFlag ++ lit " " ++ regexFlag
  | CmdWpEvalHash password path =>
      lit "wp eval " ++ dq ++ lit "echo wp_hash_password('" ++ password ++
      lit "');" ++ dq ++ lit " --path=" ++ dq ++ path ++ dq
  | CmdDockerPsAll containerName =>
      lit "docker ps -a --filter name=" ++ containerName ++
      lit " --format " ++ dq ++ lit "{{.Names}}" ++ dq
  | CmdDockerPs containerName =>
      lit "docker ps --filter name=" ++ containerName ++
      lit " --format " ++ dq ++ lit "{{.Names}}" ++ dq
  | CmdDockerStart containerName => lit "docker start " ++ containerName
  | CmdDockerVolumeCreate dataVolume => lit "docker volume create " ++ dataVolume
  | CmdDockerRun containerName rootPassword port dataVolume network image =>
      lit "docker run -d       --name " ++ containerName ++
      lit "       -e MYSQL_ROOT_PASSWORD=" ++ rootPassword ++
      lit "       -p " ++ String_of_N port ++ lit ":3306" ++
      lit "       -v " ++ dataVolume ++ lit ":/var/lib/mysql" ++
      lit "       --network " ++ network ++
      lit "       " ++ image
  end.

End Render.

(* ================================================================== *)
(** ** Environment, trace and the execution monad                      *)
(* ================================================================== *)

(** What the stages ask of the outside world.  [None] and [false] stand
    for a call that throws. *)
Record Env (W : Type) := {
  (** [execSync(command, { stdio })]: the captured output. *)
  env_exec : Cmd -> Stdio -> W -> option jsstring * W;
  (** [mysql.createConnection({ host, user, password, port })] *)
  env_connect : jsstring -> jsstring -> jsstring -> N -> W -> bool * W;
  (** [connection.execute(sql)]: the number of rows returned. *)
  env_query : jsstring -> W -> option nat * W;
  (** [connection.end()] *)
  env_end : W -> bool * W;
  (** [setTimeout(resolve, ms)] awaited. *)
  env_sleep : N -> W -> W;
  (** [axios.get(url)]: the response body. *)
  env_get : jsstring -> W -> option jsstring * W;
  (** [Math.floor(Math.random() * n)] *)
  env_random : nat -> W -> nat * W;
  (** [new Date().toISOString()] *)
  env_now : W -> jsstring * W;
  env_pathExists : jsstring -> W -> bool * W;
  env_copy : jsstring -> jsstring -> W -> bool * W;
  env_readFile : jsstring -> W -> option jsstring * W;
  env_writeFile : jsstring -> jsstring -> W -> bool * W;
  (** [path.join], [path.resolve] and the hex MD5 digest of [crypto]. *)
  env_join : jsstring -> jsstring -> jsstring;
  env_resolve : jsstring -> jsstring;
  env_md5hex : jsstring -> jsstring
}.

(** One call to the outside world, with what it answered. *)
Inductive Event : Type :=
| EvExec (c : Cmd) (io : Stdio) (out : option jsstring)
| EvConnect (host user password : jsstring) (port : N) (ok : bool)
| EvQuery (sql_ : jsstring) (rows : option nat)
| EvEnd (ok : bool)
| EvSleep (ms : N)
| EvGet (url : jsstring) (data : option jsstring)
| EvRandom (n : nat) (i : nat)
| EvNow (iso : jsstring)
| EvPathExists (p : jsstring) (present : bool)
| EvCopy (src dst : jsstring) (ok : bool)
| EvReadFile (p : jsstring) (text : option jsstring)
| EvWriteFile (p content : jsstring) (ok : bool).

Inductive Error : Type :=
| ErrExec (c : Cmd)
| ErrConnect
| ErrQuery (sql_ : jsstring)
| ErrEnd
| ErrGet (url : jsstring)
| ErrFs (p : jsstring)
| ErrMessage (message : jsstring)
| ErrWrapped (message : jsstring) (cause : Error).

Inductive Result (A : Type) : Type :=
| Return (a : A)
| Throw (e : Error).
Arguments Throw {A} e.

(** The instance fields and the outside world. *)
Record State (W : Type) := {
  this : This;
  world : W
}.

(** What a computation leaves: its result, the state after it, and the
    calls it made, in order. *)
Record Outcome (W A : Type) := {
  result : Result A;
  final : State W;
  emitted : list Event
}.

Definition M (W A : Type) : Type := State W -> Outcome W A.

Definition ret {W A} (a : A) : M W A :=
  fun s => {| result := Return a; final := s; emitted := [] |}.

Definition bind {W A B} (m : M W A) (f : A -> M W B) : M W B :=
  fun s =>
    let o := m s in
    match result o with
    | Return a =>
        let o' := f a (final o) in
        {| result := result o'; final := final o';
           emitted := emitted o ++ emitted o' |}
    | Throw e => {| result := Throw e; final := final o; emitted := emitted o |}
    end.

Definition throw {W A} (e : Error) : M W A :=
  fun s => {| result := Throw e; final := s; emitted := [] |}.

(** [try { m } catch (e) { h e }]: what [m] did before it threw stays. *)
Definition try_catch {W A} (m : M W A) (h : Error -> M W A) : M W A :=
  fun s =>
    let o := m s in
    match result o with
    | Return a => o
    | Throw e =>
        let o' := h e (final o) in
        {| result := result o'; final := final o';
           emitted := emitted o ++ emitted o' |}
    end.

Definition get_this {W} : M W This :=
  fun s => {| result := Return (this s); final := s; emitted := [] |}.

Definition put_this {W} (t : This) : M W unit :=
  fun s => {| result := Return tt;
              final := {| this := t; world := world s |};
              emitted := [] |}.

Declare Scope js_scope.
Delimit Scope js_scope with js.
Notation "x <- m ;; k" := (bind m (fun x => k))
  (at level 61, m at next level, right associativity) : js_scope.
Notation "m ;; k" := (bind m (fun _ => k))
  (at level 61, right associativity) : js_scope.
Open Scope js_scope.

(** [if (c) { m }] *)
Definition when {W} (c : bool) (m : M W unit) : M W unit :=
  if c then m else ret tt.

(** [for (const x of l) { body x }] *)
Fixpoint for_of {W A} (l : list A) (body : A -> M W unit) : M W unit :=
  match l with
  | [] => ret tt
  | x :: rest => body x ;; for_of rest body
  end.

(* ================================================================== *)
(** ** The stages of [WordPressSetup]                                  *)
(* ================================================================== *)

Section Stages.

Variable W : Type.
Variable env : Env W.

(** One call: the answer [r] decides the result, the world moves to [w],
    and the event is emitted. *)
Definition call {A} (s : State W) (r : Result A) (w : W) (e : Event) : Outcome W A :=
  {| result := r; final := {| this := this s; world := w |}; emitted := [e] |}.

Definition execSync (c : Cmd) (io : Stdio) : M W jsstring :=
  fun s =>
    let '(r, w) := env_exec env c io (world s) in
    call s (match r with Some out => Return out | None => Throw (ErrExec c) end)
         w (EvExec c io r).

Definition createConnection (host user password : jsstring) (port : N) : M W unit :=
  fun s =>
    let '(ok, w) := env_connect env host user password port (world s) in
    call s (if ok then Return tt else Throw ErrConnect)
         w (EvConnect host user password port ok).

Definition execute (sql_ : jsstring) : M W nat :=
  fun s =>
    let '(r, w) := env_query env sql_ (world s) in
    call s (match r with Some rows => Return rows | None => Throw (ErrQuery sql_) end)
         w (EvQuery sql_ r).

Definition connection_end : M W unit :=
  fun s =>
    let '(ok, w) := env_end env (world s) in
    call s (if ok then Return tt else Throw ErrEnd) w (EvEnd ok).

Definition sleep (ms : N) : M W unit :=
  fun s => call s (Return tt) (env_sleep env ms (world s)) (EvSleep ms).

Definition axios_get (url : jsstring) : M W jsstring :=
  fun s =>
    let '(r, w) := env_get env url (world s) in
    call s (match r with Some data => Return data | None => Throw (ErrGet url) end)
         w (EvGet url r).

Definition random_index (n : nat) : M W nat :=
  fun s =>
    let '(i, w) := env_random env n (world s) in
    call s (Return i) w (EvRandom n i).

Definition toISOString : M W jsstring :=
  fun s =>
    let '(iso, w) := env_now env (world s) in
    call s (Return iso) w (EvNow iso).

Definition pathExists (p : jsstring) : M W bool :=
  fun s =>
    let '(b, w) := env_pathExists env p (world s) in
    call s (Return b) w (EvPathExists p b).

Definition fs_copy (src dst : jsstring) : M W unit :=
  fun s =>
    let '(ok, w) := env_copy env src dst (world s) in
    call s (if ok then Return tt else Throw (ErrFs src)) w (EvCopy src dst ok).

Definition readFile (p : jsstring) : M W jsstring :=
  fun s =>
    let '(r, w) := env_readFile env p (world s) in
    call s (match r with Some text => Return text | None => Throw (ErrFs p) end)
         w (EvReadFile p r).

Definition writeFile (p content : jsstring) : M W unit :=
  fun s =>
    let '(ok, w) := env_writeFile env p content (world s) in
    call s (if ok then Return tt else Throw (ErrFs p)) w (EvWriteFile p content ok).

Definition stdio_of (cfg : Config) : Stdio :=
  if adv_verbose (advanced cfg) then Inherit else Pipe.

(** [dbPassword === '' ? '' : `-p${dbPassword}`] *)
Definition passwordParam (dbPassword : jsstring) : jsstring :=
  if str_eqb dbPassword [] then [] else lit "-p" ++ dbPassword.

(** The two shapes every client command has: through [docker exec] on
    [localhost:3306], or directly on the configured host and port. *)
Definition mysql_client (cfg : Config) (t : This) (dbUser passwordParam : jsstring)
  : MysqlClient :=
  {| mc_target :=
       if dk_enabled (db_docker (database cfg))
       then ViaDocker (dk_containerName (db_docker (database cfg)))
       else Direct (db_host (database cfg)) (db_port (database cfg));
     mc_user := dbUser;
     mc_passwordParam := passwordParam;
     mc_database := dbName t |}.

(** *** [generateRandomPassword] and the key generator of [generateSalts] *)

Fixpoint random_string (chars : jsstring) (n : nat) (acc : jsstring) : M W jsstring :=
  match n with
  | O => ret acc
  | S k =>
      i <- random_index (List.length chars) ;;
      random_string chars k (acc ++ charAt chars i)
  end.

Definition password_chars : jsstring :=
  lit "abcdefghijklmnopqrstuvwxyzABCDEFGHIJKLMNOPQRSTUVWXYZ0123456789!@#$%^&*".

Definition generateRandomPassword (length : nat) : M W jsstring :=
  random_string password_chars length [].

(** *** [getMysqlCommand] *)

Definition getMysqlCommand (cfg : Config) (command : jsstring) : jsstring :=
  let db := database cfg in
  if dk_enabled (db_docker db) then
    let dockerCommand :=
      replace_str
        (replace_str command (lit "-h" ++ db_host db) (lit "-hlocalhost"))
        (lit "-P" ++ String_of_N (db_port db)) (lit "-P3306") in
    let dockerCommand :=
      if str_eqb (db_password db) []
      then replace_str dockerCommand (lit "-p ") []
      else dockerCommand in
    lit "docker exec " ++ dk_containerName (db_docker db) ++ lit " " ++ dockerCommand
  else command.

(** *** [waitForMysql] *)

Definition testCommand (cfg : Config) : jsstring :=
  let db := database cfg in
  getMysqlCommand cfg
    (lit "mysql -h" ++ db_host db ++ lit " -u" ++ db_user db ++
     lit " -p" ++ db_password db ++ lit " -P" ++ String_of_N (db_port db) ++
     lit " -e " ++ dq ++ lit "SELECT 1" ++ dq).

(** One round of the loop for each of the [maxAttempts] values of [i]:
    the probe inside [try]; [return] on success; the two-second wait in
    the [catch].  After the loop, the timeout error. *)
Fixpoint waitForMysql (cfg : Config) (maxAttempts : nat) : M W unit :=
  match maxAttempts with
  | O => throw (ErrMessage (lit "MySQL did not become ready within the timeout period"))
  | S remaining =>
      ready <- try_catch
                 (execSync (CmdText (testCommand cfg)) Pipe ;; ret true)
                 (fun _ => sleep 2000 ;; ret false) ;;
      if ready then ret tt else waitForMysql cfg remaining
  end.

(** The default argument of [waitForMysql]. *)
Definition maxAttempts_default : nat := 30.

(** *** [createDockerMysql] and [ensureDockerMysql] *)

Definition createDockerMysql (cfg : Config) : M W unit :=
  let dockerConfig := db_docker (database cfg) in
  let rootPassword :=
    if truthy (dk_rootPassword dockerConfig)
    then dk_rootPassword dockerConfig
    else db_password (database cfg) in
  try_catch
    (execSync (CmdDockerVolumeCreate (dk_dataVolume dockerConfig)) Pipe ;; ret tt)
    (fun _ => ret tt) ;;
  try_catch
    (execSync (CmdDockerRun (dk_containerName dockerConfig) rootPassword
                 (dk_port dockerConfig) (dk_dataVolume dockerConfig)
                 (dk_network dockerConfig) (dk_image dockerConfig)) Pipe ;;
     ret tt)
    (fun error =>
       try_catch
         (execSync (CmdDockerStart (dk_containerName dockerConfig)) Pipe ;; ret tt)
         (fun _ =>
            throw (ErrWrapped (lit "Failed to create or start MySQL container: ") error))) ;;
  waitForMysql cfg maxAttempts_default.

Definition ensureDockerMysql (cfg : Config) : M W unit :=
  let dockerConfig := db_docker (database cfg) in
  if negb (dk_enabled dockerConfig) then ret tt else
  containerExists <-
    try_catch
      (out <- execSync (CmdDockerPsAll (dk_containerName dockerConfig)) Pipe ;;
       ret (trim out))
      (fun _ => ret []) ;;
  if negb (truthy containerExists) then createDockerMysql cfg
  else
    isRunning <-
      try_catch
        (out <- execSync (CmdDockerPs (dk_containerName dockerConfig)) Pipe ;;
         ret (trim out))
        (fun _ => ret []) ;;
    when (negb (truthy isRunning))
      (execSync (CmdDockerStart (dk_containerName dockerConfig)) Pipe ;;
       waitForMysql cfg maxAttempts_default).

(** *** [createDatabase] *)

Definition drop_database_sql (t : This) : jsstring :=
  lit "DROP DATABASE IF EXISTS `" ++ dbName t ++ lit "`".

Definition create_database_sql (cfg : Config) (t : This) : jsstring :=
  lit "CREATE DATABASE `" ++ dbName t ++ lit "` CHARACTER SET " ++
  db_charset (database cfg) ++ lit " COLLATE " ++ db_collate (database cfg).

Definition show_databases_sql (t : This) : jsstring :=
  lit "SHOW DATABASES LIKE '" ++ dbName t ++ lit "'".

Definition create_user_sql (cfg : Config) (dbUser dbPassword : jsstring) : jsstring :=
  lit "CREATE USER IF NOT EXISTS '" ++ dbUser ++ lit "'@'" ++
  db_host (database cfg) ++ lit "' IDENTIFIED BY '" ++ dbPassword ++ lit "'".

Definition grant_sql (cfg : Config) (t : This) (dbUser : jsstring) : jsstring :=
  lit "GRANT " ++ join (lit ", ") (db_grantPrivileges (database cfg)) ++
  lit " ON `" ++ dbName t ++ lit "`.* TO '" ++ dbUser ++ lit "'@'" ++
  db_host (database cfg) ++ lit "'".

Definition failed_to_create (t : This) : Error :=
  ErrMessage (lit "Failed to create database: " ++ dbName t).

Definition createDatabase (cfg : Config) : M W unit :=
  if adv_skipDatabaseCreation (advanced cfg) then ret tt else
  let db := database cfg in
  (* Ensure Docker MySQL is ready if enabled *)
  when (dk_enabled (db_docker db)) (ensureDockerMysql cfg) ;;
  createConnection (db_host db) (db_user db) (db_password db) (db_port db) ;;
  t <- get_this ;;
  (* Drop existing database if it exists *)
  execute (drop_database_sql t) ;;
  (* Create new database with charset and collate *)
  execute (create_database_sql cfg t) ;;
  (* Verify database was created *)
  rows <- execute (show_databases_sql t) ;;
  if Nat.eqb rows 0 then throw (failed_to_create t) else
  (* Create dedicated user if configured *)
  when (db_createUser db)
    (let dbUser := db_userPrefix db ++ websiteName t in
     dbPassword <- generateRandomPassword 16 ;;
     execute (create_user_sql cfg dbUser dbPassword) ;;
     execute (grant_sql cfg t dbUser) ;;
     execute (lit "FLUSH PRIVILEGES") ;;
     (* Store the user credentials for wp-config *)
     put_this (set_credentials t dbUser dbPassword)) ;;
  connection_end.

(** *** [generateSalts] and [updateWpConfig] *)

Definition salt_chars : jsstring :=
  lit "abcdefghijklmnopqrstuvwxyzABCDEFGHIJKLMNOPQRSTUVWXYZ0123456789!@#$%^&*()".

Definition generateKey : M W jsstring := random_string salt_chars 64 [].

(** The eight line heads of the fallback block, up to the opening quote
    of the value. *)
Definition salt_heads : list jsstring :=
  [ lit "define( 'AUTH_KEY',         '";
    lit "define( 'SECURE_AUTH_KEY',  '";
    lit "define( 'LOGGED_IN_KEY',    '";
    lit "define( 'NONCE_KEY',        '";
    lit "define( 'AUTH_SALT',        '";
    lit "define( 'SECURE_AUTH_SALT', '";
    lit "define( 'LOGGED_IN_SALT',   '";
    lit "define( 'NONCE_SALT',       '" ].

(** The template literal of the fallback: a line break, then one line
    for each head, its key generated in source order. *)
Fixpoint salt_lines (heads : list jsstring) (acc : jsstring) : M W jsstring :=
  match heads with
  | [] => ret acc
  | h :: rest =>
      key <- generateKey ;;
      salt_lines rest (acc ++ nl ++ h ++ key ++ lit "' );")
  end.

Definition generateSalts : M W jsstring :=
  try_catch
    (axios_get (lit "https://api.wordpress.org/secret-key/1.1/salt/"))
    (fun _ => salt_lines salt_heads []).

Definition updateWpConfig (cfg : Config) : M W unit :=
  t <- get_this ;;
  let wpConfigPath := env_join env (websitePath t) (lit "wp-config.php") in
  let wpConfigSamplePath := env_join env (websitePath t) (lit "wp-config-sample.php") in
  present <- pathExists wpConfigPath ;;
  when (negb present) (fs_copy wpConfigSamplePath wpConfigPath) ;;
  wpConfig <- readFile wpConfigPath ;;
  salts <- generateSalts ;;
  writeFile wpConfigPath (Patcher.updateWpConfig_text cfg t salts wpConfig).

(** *** [importDatabase] *)

Definition importDatabase (cfg : Config) : M W unit :=
  match sql_source (sql cfg) with
  | None => ret tt
  | Some source =>
      if negb (truthy source) then ret tt else
      let sqlPath := env_resolve env source in
      present <- pathExists sqlPath ;;
      if negb present
      then throw (ErrMessage (lit "SQL file not found: " ++ sqlPath))
      else
        t <- get_this ;;
        (* Use dedicated user credentials if created, otherwise use root *)
        let dbUser := or_else (dbUser t) (db_user (database cfg)) in
        let dbPassword := or_else (dbPassword t) (db_password (database cfg)) in
        let client := mysql_client cfg t dbUser (passwordParam dbPassword) in
        execSync (CmdMysql client (InputFile sqlPath)) (stdio_of cfg) ;;
        (* Optimize database if configured *)
        when (sql_optimizeAfterImport (sql cfg))
          (execSync (CmdMysql client (Execute SqlOptimizeTables)) Pipe ;; ret tt) ;;
        (* Repair database if configured *)
        when (sql_repairAfterImport (sql cfg))
          (execSync (CmdMysql client (Execute SqlRepairTables)) Pipe ;; ret tt)
  end.

(** *** [performDirectSearchReplace]: the raw strategy *)

Definition commonColumns : list jsstring :=
  [ lit "post_content"; lit "post_excerpt"; lit "post_title";
    lit "comment_content"; lit "meta_value" ].

(** [tablesOutput.split('\n').filter(line => line.trim() && !line.includes('Tables_in_'))] *)
Definition table_lines (tablesOutput : jsstring) : list jsstring :=
  filter (fun line => truthy (trim line) && negb (includes line (lit "Tables_in_")))
         (split_on 10 tablesOutput).

Definition performDirectSearchReplace (cfg : Config) (search_ replace_ : jsstring)
  : M W unit :=
  try_catch
    (t <- get_this ;;
     (* Get database connection details *)
     let dbUser := or_else (dbUser t) (db_user (database cfg)) in
     let dbPassword := db_password (database cfg) in
     let client := mysql_client cfg t dbUser (passwordParam dbPassword) in
     (* Get all tables in the database *)
     tablesOutput <- execSync (CmdMysql client (Execute SqlShowTables)) Pipe ;;
     let tables := table_lines tablesOutput in
     (* Perform search-replace on each table *)
     for_of tables (fun table =>
       try_catch
         (execSync (CmdMysql client
                      (Execute (SqlUpdateOptionValue table search_ replace_))) Pipe ;;
          ret tt)
         (fun _ =>
            (* Table might not have option_value column, try other common columns *)
            for_of commonColumns (fun column =>
              try_catch
                (execSync (CmdMysql client
                             (Execute (SqlUpdateColumn table column search_ replace_)))
                          Pipe ;;
                 ret tt)
                (fun _ => ret tt)))))
    (fun _ => ret tt).

(** *** [performSearchReplace] *)

Definition flag (b : bool) (text : jsstring) : jsstring :=
  if b then text else [].

(** The primary strategy for one rule. *)
Definition wp_search_replace (cfg : Config) (t : This) (search_ replace_ : jsstring)
  : Cmd :=
  let sr := sql_searchReplace (sql cfg) in
  CmdWpSearchReplace search_ replace_ (websitePath t)
    (flag (sr_dryRun sr) (lit "--dry-run"))
    (flag (sr_caseSensitive sr) (lit "--case-sensitive"))
    (flag (sr_regex sr) (lit "--regex")).

(** [try { execSync(wp ...) } catch (wpError) { performDirectSearchReplace(...) }] *)
Definition replace_with_fallback (cfg : Config) (t : This) (search_ replace_ : jsstring)
  : M W unit :=
  try_catch
    (execSync (wp_search_replace cfg t search_ replace_) (stdio_of cfg) ;; ret tt)
    (fun _ => performDirectSearchReplace cfg search_ replace_).

Definition performSearchReplace (cfg : Config) : M W unit :=
  if adv_skipSearchReplace (advanced cfg) then ret tt else
  if negb (sr_enabled (sql_searchReplace (sql cfg))) then ret tt else
  t <- get_this ;;
  let oldUrl := or_else (sql_oldUrl (sql cfg)) (lit "http://example.com") in
  let newUrl := lit "http://" ++ websiteName t ++ valet_domain (valet cfg) in
  (* Perform main URL replacement *)
  when (negb (str_eqb oldUrl newUrl))
    (replace_with_fallback cfg t oldUrl newUrl) ;;
  (* Perform domain replacement *)
  let oldDomain := or_else (sql_oldDomain (sql cfg)) (lit "example.com") in
  let newDomain := websiteName t ++ valet_domain (valet cfg) in
  when (negb (str_eqb oldDomain newDomain))
    (replace_with_fallback cfg t oldDomain newDomain) ;;
  (* Perform additional replacements *)
  for_of (sr_additionalReplacements (sql_searchReplace (sql cfg)))
    (fun replacement =>
       replace_with_fallback cfg t (search replacement) (replace replacement)).

(** *** The admin reconciliation stage *)

(** The credentials every function of this stage selects. *)
Definition stage_client (cfg : Config) (t : This) : MysqlClient :=
  let dbUser := or_else (dbUser t) (db_user (database cfg)) in
  let dbPassword := or_else (dbPassword t) (db_password (database cfg)) in
  mysql_client cfg t dbUser (passwordParam dbPassword).

(** [output.split('\n').filter(line => line.trim() && !line.includes(header))] *)
Definition data_lines (header output : jsstring) : list jsstring :=
  filter (fun line => truthy (trim line) && negb (includes line header))
         (split_on 10 output).

Definition checkAdminUserExists (cfg : Config) : M W bool :=
  try_catch
    (t <- get_this ;;
     let checkCommand :=
       CmdMysql (stage_client cfg t)
         (Execute (SqlCountUsers (db_prefix (database cfg))
                                 (wp_adminUser (wordpress cfg)))) in
     output <- execSync checkCommand Pipe ;;
     let lines := data_lines (lit "count") output in
     match lines with
     | first :: _ => ret (parseInt_gt0 (trim first))
     | [] => ret false
     end)
    (fun _ => ret false).

Definition hashWordPressPassword (password : jsstring) : M W jsstring :=
  try_catch
    (t <- get_this ;;
     out <- execSync (CmdWpEvalHash password (websitePath t)) Pipe ;;
     ret (trim out))
    (fun _ => ret (lit "$P$B" ++ env_md5hex env password)).

Definition updateAdminUserPassword (cfg : Config) : M W unit :=
  t <- get_this ;;
  (* Hash the password using WordPress's password hashing *)
  hashedPassword <- hashWordPressPassword (adminPassword t) ;;
  let updateCommand :=
    CmdMysql (stage_client cfg t)
      (Execute (SqlUpdateUserPass (db_prefix (database cfg)) hashedPassword
                                  (wp_adminUser (wordpress cfg)))) in
  execSync updateCommand (stdio_of cfg) ;;
  ret tt.

Definition createAdminUser (cfg : Config) : M W unit :=
  t <- get_this ;;
  let client := stage_client cfg t in
  let prefix := db_prefix (database cfg) in
  let adminUser := wp_adminUser (wordpress cfg) in
  (* Hash the password using WordPress's password hashing *)
  hashedPassword <- hashWordPressPassword (adminPassword t) ;;
  (* Get the current timestamp *)
  iso <- toISOString ;;
  let now := replace_str (slice0 iso 19) (lit "T") (lit " ") in
  execSync (CmdMysql client
              (Execute (SqlInsertUser prefix adminUser hashedPassword
                                      (adminEmail t) now)))
           (stdio_of cfg) ;;
  (* Get the user ID *)
  userIdOutput <- execSync (CmdMysql client (Execute (SqlSelectUserId prefix adminUser)))
                           Pipe ;;
  let userIdLines := data_lines (lit "ID") userIdOutput in
  let userId := match userIdLines with
                | first :: _ => Some (trim first)
                | [] => None
                end in
  match userId with
  | Some userId =>
      (* Add admin capabilities *)
      when (truthy userId)
        (execSync (CmdMysql client (Execute (SqlInsertCapabilities prefix userId)))
                  (stdio_of cfg) ;;
         ret tt)
  | None => ret tt
  end.

Definition manageAdminUser (cfg : Config) : M W unit :=
  if negb (truthy_opt (sql_source (sql cfg))) then ret tt else
  adminUserExists <- checkAdminUserExists cfg ;;
  if adminUserExists
  then updateAdminUserPassword cfg
  else createAdminUser cfg.

End Stages.

Arguments ret {W A} a s /.
Arguments throw {W A} e s /.
Arguments get_this {W} s /.
Arguments put_this {W} t s /.

(* ================================================================== *)
(** ** Reading a list of events                                        *)
(* ================================================================== *)

(** The commands handed to [execSync], in order. *)
Fixpoint commands (l : list Event) : list Cmd :=
  match l with
  | [] => []
  | EvExec c _ _ :: rest => c :: commands rest
  | _ :: rest => commands rest
  end.

(** The statements executed on the connection, with their row counts. *)
Fixpoint statements (l : list Event) : list (jsstring * option nat) :=
  match l with
  | [] => []
  | EvQuery q r :: rest => (q, r) :: statements rest
  | _ :: rest => statements rest
  end.

(** Total time spent waiting, in milliseconds. *)
Fixpoint slept (l : list Event) : N :=
  match l with
  | [] => 0
  | EvSleep ms :: rest => ms + slept rest
  | _ :: rest => slept rest
  end.

Lemma commands_app l1 l2 : commands (l1 ++ l2) = commands l1 ++ commands l2.
Proof.
  induction l1 as [|e l1 IH]; simpl; [reflexivity|].
  destruct e; simpl; rewrite ?IH; reflexivity.
Qed.

Lemma statements_app l1 l2 : statements (l1 ++ l2) = statements l1 ++ statements l2.
Proof.
  induction l1 as [|e l1 IH]; simpl; [reflexivity|].
  destruct e; simpl; rewrite ?IH; reflexivity.
Qed.

Lemma slept_app l1 l2 : slept (l1 ++ l2) = (slept l1 + slept l2)%N.
Proof.
  induction l1 as [|e l1 IH]; simpl; [reflexivity|].
  destruct e; simpl; rewrite ?IH; try reflexivity. lia.
Qed.

(* ================================================================== *)
(** ** Equations of the execution monad                                *)
(* ================================================================== *)

Section Laws.

Variable W : Type.
Variable env : Env W.

Lemma bind_return {A B} (m : M W A) (k : A -> M W B) s a :
  result (m s) = Return a ->
  bind m k s =
  {| result := result (k a (final (m s)));
     final := final (k a (final (m s)));
     emitted := emitted (m s) ++ emitted (k a (final (m s))) |}.
Proof. intros H. unfold bind. rewrite H. reflexivity. Qed.

Lemma bind_throw {A B} (m : M W A) (k : A -> M W B) s e :
  result (m s) = Throw e ->
  bind m k s =
  {| result := Throw e; final := final (m s); emitted := emitted (m s) |}.
Proof. intros H. unfold bind. rewrite H. reflexivity. Qed.

Lemma bind_return_result {A B} (m : M W A) (k : A -> M W B) s a :
  result (m s) = Return a ->
  result (bind m k s) = result (k a (final (m s))).
Proof. intros H. unfold bind. rewrite H. reflexivity. Qed.

Lemma bind_return_emitted {A B} (m : M W A) (k : A -> M W B) s a :
  result (m s) = Return a ->
  emitted (bind m k s) = emitted (m s) ++ emitted (k a (final (m s))).
Proof. intros H. unfold bind. rewrite H. reflexivity. Qed.

Lemma try_catch_return {A} (m : M W A) (h : Error -> M W A) s a :
  result (m s) = Return a -> try_catch m h s = m s.
Proof. intros H. unfold try_catch. rewrite H. reflexivity. Qed.

Lemma try_catch_throw {A} (m : M W A) (h : Error -> M W A) s e :
  result (m s) = Throw e ->
  try_catch m h s =
  {| result := result (h e (final (m s)));
     final := final (h e (final (m s)));
     emitted := emitted (m s) ++ emitted (h e (final (m s))) |}.
Proof. intros H. unfold try_catch. rewrite H. reflexivity. Qed.

Lemma bind_get_this {A} (k : This -> M W A) s :
  (t <- get_this ;; k t) s = k (this s) s.
Proof. unfold bind. cbn. destruct (k (this s) s); reflexivity. Qed.

Lemma execSync_eq c io s r w :
  env_exec env c io (world s) = (r, w) ->
  execSync env c io s =
  {| result := match r with Some out => Return out | None => Throw (ErrExec c) end;
     final := {| this := this s; world := w |};
     emitted := [EvExec c io r] |}.
Proof. intros H. unfold execSync, call. rewrite H. reflexivity. Qed.

End Laws.

(* ================================================================== *)
(** ** The readiness poll                                              *)
(* ================================================================== *)

Section Readiness.

Variable W : Type.
Variable env : Env W.
Variable cfg : Config.

Definition probe : Cmd := CmdText (testCommand cfg).

(** A failed attempt: the probe throws, then the two-second wait. *)
Definition failed_attempt : list Event :=
  [EvExec probe Pipe None; EvSleep 2000].

Fixpoint failed_attempts (k : nat) : list Event :=
  match k with
  | O => []
  | S k' => failed_attempt ++ failed_attempts k'
  end.

Definition timeout_error : Error :=
  ErrMessage (lit "MySQL did not become ready within the timeout period").

Lemma commands_failed_attempts k :
  List.length (commands (failed_attempts k)) = k.
Proof. induction k; simpl; congruence. Qed.

Lemma slept_failed_attempts k :
  slept (failed_attempts k) = (2000 * N.of_nat k)%N.
Proof.
  induction k as [|k IH]; [reflexivity|].
  cbn [failed_attempts failed_attempt app slept].
  rewrite IH, Nat2N.inj_succ. lia.
Qed.

(** The first attempt decides: a probe that succeeds ends the loop at
    once; a probe that fails costs one wait and one attempt. *)
Lemma waitForMysql_step n s :
  waitForMysql env cfg (S n) s =
  match env_exec env probe Pipe (world s) with
  | (Some out, w) =>
      {| result := Return tt;
         final := {| this := this s; world := w |};
         emitted := [EvExec probe Pipe (Some out)] |}
  | (None, w) =>
      let o := waitForMysql env cfg n
                 {| this := this s; world := env_sleep env 2000 w |} in
      {| result := result o; final := final o;
         emitted := failed_attempt ++ emitted o |}
  end.
Proof.
  cbn [waitForMysql]. unfold bind, try_catch, execSync, sleep, call, probe.
  destruct (env_exec env (CmdText (testCommand cfg)) Pipe (world s)) as [[out|] w];
    cbn; reflexivity.
Qed.

(** Every run has one of two shapes. *)
Lemma waitForMysql_shape n : forall s,
  let o := waitForMysql env cfg n s in
  (exists k out, k < n /\ result o = Return tt /\
                 emitted o = failed_attempts k ++ [EvExec probe Pipe (Some out)])
  \/ (result o = Throw timeout_error /\ emitted o = failed_attempts n).
Proof.
  induction n as [|n IH]; intros s o.
  - right. split; reflexivity.
  - subst o. rewrite waitForMysql_step.
    destruct (env_exec env probe Pipe (world s)) as [[out|] w].
    + left. exists 0, out. repeat split. lia.
    + cbn zeta.
      destruct (IH {| this := this s; world := env_sleep env 2000 w |})
        as [(k & out & Hk & Hr & He) | (Hr & He)].
      * left. exists (S k), out. cbn [result emitted]. repeat split.
        -- lia.
        -- exact Hr.
        -- rewrite He. cbn [failed_attempts]. rewrite <- app_assoc. reflexivity.
      * right. cbn [result emitted]. split; [exact Hr|].
        rewrite He. reflexivity.
Qed.

Lemma waitForMysql_never_ready n :
  (forall w, fst (env_exec env probe Pipe w) = None) ->
  forall s,
    result (waitForMysql env cfg n s) = Throw timeout_error /\
    emitted (waitForMysql env cfg n s) = failed_attempts n.
Proof.
  intros Hfail. induction n as [|n IH]; intros s.
  - split; reflexivity.
  - rewrite waitForMysql_step.
    pose proof (Hfail (world s)) as H.
    destruct (env_exec env probe Pipe (world s)) as [[out|] w]; cbn in H; [discriminate|].
    cbn zeta. cbn [result emitted].
    destruct (IH {| this := this s; world := env_sleep env 2000 w |}) as [Hr He].
    split; [exact Hr|]. rewrite He. reflexivity.
Qed.

(** C4. Readiness bound.  With the default of 30 attempts, every run of
    [waitForMysql] either stops right after the first probe that
    succeeds, with success, every earlier probe having failed and been
    followed by one wait of 2000 ms; or it makes exactly 30 probes, each
    failed and followed by a 2000 ms wait (60 s in all, which is at
    least 58 s), and then throws the timeout error.  A server whose
    probe fails whenever it is tried gives the second case. *)
Theorem waitForMysql_readiness_bound (s : State W) :
  let o := waitForMysql env cfg maxAttempts_default s in
  ((exists k out,
       k < 30 /\ result o = Return tt /\
       emitted o = failed_attempts k ++ [EvExec probe Pipe (Some out)])
   \/
   (result o = Throw timeout_error /\
    emitted o = failed_attempts 30 /\
    List.length (commands (emitted o)) = 30 /\
    slept (emitted o) = 60000%N /\
    (58000 <= slept (emitted o))%N))
  /\
  ((forall w, fst (env_exec env probe Pipe w) = None) ->
   result o = Throw timeout_error /\
   List.length (commands (emitted o)) = 30 /\
   slept (emitted o) = 60000%N).
Proof.
  intros o. subst o. unfold maxAttempts_default. split.
  - destruct (waitForMysql_shape 30 s) as [H | [Hr He]].
    + left. exact H.
    + right. rewrite He, commands_failed_attempts, slept_failed_attempts.
      repeat split; try assumption; try reflexivity. lia.
  - intros Hfail.
    destruct (waitForMysql_never_ready 30 Hfail s) as [Hr He].
    rewrite He, commands_failed_attempts, slept_failed_attempts.
    repeat split; try assumption; reflexivity.
Qed.

End Readiness.

(* ================================================================== *)
(** ** The search-replace stage and its raw fallback                   *)
(* ================================================================== *)

Section SearchReplace.

Variable W : Type.
Variable env : Env W.

(** A computation that returns normally from every state. *)
Definition never_throws (m : M W unit) : Prop :=
  forall s, result (m s) = Return tt.

Lemma try_catch_never_throws (m : M W unit) (h : Error -> M W unit) :
  (forall e, never_throws (h e)) -> never_throws (try_catch m h).
Proof.
  intros Hh s. unfold try_catch.
  destruct (result (m s)) as [[]|e] eqn:E; cbn; [exact E | apply Hh].
Qed.

Lemma bind_never_throws (m k : M W unit) :
  never_throws m -> never_throws k -> never_throws (m ;; k).
Proof.
  intros Hm Hk s. unfold bind. rewrite (Hm s). cbn. apply Hk.
Qed.

Lemma when_never_throws c (m : M W unit) :
  never_throws m -> never_throws (when c m).
Proof. intros Hm. destruct c; [exact Hm | intros s; reflexivity]. Qed.

Lemma for_of_never_throws {A} (l : list A) (body : A -> M W unit) :
  (forall x, never_throws (body x)) -> never_throws (for_of l body).
Proof.
  intros Hb. induction l as [|x l IH]; [intros s; reflexivity|].
  cbn [for_of]. apply bind_never_throws; [apply Hb | exact IH].
Qed.

Lemma performDirectSearchReplace_never_throws cfg a b :
  never_throws (performDirectSearchReplace env cfg a b).
Proof.
  unfold performDirectSearchReplace. apply try_catch_never_throws.
  intros e s. reflexivity.
Qed.

Lemma replace_with_fallback_never_throws cfg t a b :
  never_throws (replace_with_fallback env cfg t a b).
Proof.
  unfold replace_with_fallback. apply try_catch_never_throws.
  intros e. apply performDirectSearchReplace_never_throws.
Qed.

Lemma performSearchReplace_never_throws cfg :
  never_throws (performSearchReplace env cfg).
Proof.
  intros s. unfold performSearchReplace.
  destruct (adv_skipSearchReplace (advanced cfg)); [reflexivity|].
  destruct (negb (sr_enabled (sql_searchReplace (sql cfg)))); [reflexivity|].
  unfold bind at 1. cbn [get_this result final].
  apply (bind_never_throws
           (m := when _ (replace_with_fallback env cfg (this s) _ _))).
  - apply when_never_throws, replace_with_fallback_never_throws.
  - apply bind_never_throws.
    + apply when_never_throws, replace_with_fallback_never_throws.
    + apply for_of_never_throws. intros x.
      apply replace_with_fallback_never_throws.
Qed.

(** *** What a computation may emit *)

Definition emits_only {A} (P : Event -> bool) (m : M W A) : Prop :=
  forall s, forallb P (emitted (m s)) = true.

Lemma emits_only_ret {A} P (a : A) : emits_only P (ret a).
Proof. intros s. reflexivity. Qed.

Lemma emits_only_bind {A B} P (m : M W A) (k : A -> M W B) :
  emits_only P m -> (forall a, emits_only P (k a)) -> emits_only P (bind m k).
Proof.
  intros Hm Hk s. unfold bind.
  destruct (result (m s)) as [a|e]; cbn [emitted].
  - rewrite forallb_app, Hm, Hk. reflexivity.
  - apply Hm.
Qed.

Lemma emits_only_try_catch {A} P (m : M W A) (h : Error -> M W A) :
  emits_only P m -> (forall e, emits_only P (h e)) -> emits_only P (try_catch m h).
Proof.
  intros Hm Hh s. unfold try_catch.
  destruct (result (m s)) as [a|e]; cbn [emitted].
  - apply Hm.
  - rewrite forallb_app, Hm, Hh. reflexivity.
Qed.

Lemma emits_only_when P c (m : M W unit) :
  emits_only P m -> emits_only P (when c m).
Proof. intros Hm. destruct c; [exact Hm | apply emits_only_ret]. Qed.

Lemma emits_only_for_of {A} P (l : list A) (body : A -> M W unit) :
  (forall x, emits_only P (body x)) -> emits_only P (for_of l body).
Proof.
  intros Hb. induction l as [|x l IH]; [apply emits_only_ret|].
  cbn [for_of]. apply emits_only_bind; [apply Hb | intros _; exact IH].
Qed.

Lemma emits_only_get_this P : emits_only P (@get_this W).
Proof. intros s. reflexivity. Qed.

Lemma emits_only_execSync (P : Event -> bool) c io :
  (forall r, P (EvExec c io r) = true) -> emits_only P (execSync env c io).
Proof.
  intros H s. unfold execSync, call.
  destruct (env_exec env c io (world s)) as [r w]. cbn. rewrite H. reflexivity.
Qed.

(** *** The raw strategy only talks to the [mysql] client *)

Definition is_mysql_exec (e : Event) : bool :=
  match e with
  | EvExec (CmdMysql _ _) _ _ => true
  | _ => false
  end.

Lemma performDirectSearchReplace_mysql_only cfg a b :
  emits_only is_mysql_exec (performDirectSearchReplace env cfg a b).
Proof.
  unfold performDirectSearchReplace.
  apply emits_only_try_catch; [|intros; apply emits_only_ret].
  apply emits_only_bind; [apply emits_only_get_this|]. intros t.
  apply emits_only_bind; [apply emits_only_execSync; reflexivity|]. intros out.
  apply emits_only_for_of. intros table.
  apply emits_only_try_catch.
  - apply emits_only_bind; [apply emits_only_execSync; reflexivity|].
    intros; apply emits_only_ret.
  - intros _. apply emits_only_for_of. intros column.
    apply emits_only_try_catch; [|intros; apply emits_only_ret].
    apply emits_only_bind; [apply emits_only_execSync; reflexivity|].
    intros; apply emits_only_ret.
Qed.

(** *** Counting invocations of the primary strategy *)

Definition is_wp_search_replace (c : Cmd) : bool :=
  match c with
  | CmdWpSearchReplace _ _ _ _ _ _ => true
  | _ => false
  end.

Definition primary_invocations (l : list Event) : nat :=
  List.length (filter is_wp_search_replace (commands l)).

Lemma primary_invocations_app l1 l2 :
  primary_invocations (l1 ++ l2) = primary_invocations l1 + primary_invocations l2.
Proof.
  unfold primary_invocations. rewrite commands_app, filter_app, length_app.
  reflexivity.
Qed.

Lemma mysql_only_no_primary l :
  forallb is_mysql_exec l = true -> primary_invocations l = 0.
Proof.
  induction l as [|e l IH]; [reflexivity|]. cbn [forallb].
  intros H. apply andb_prop in H. destruct H as [He Hl].
  destruct e as [c io out| | | | | | | | | | |]; try discriminate He.
  destruct c; try discriminate He.
  unfold primary_invocations in *. cbn. apply IH, Hl.
Qed.

(** Each rule that is run invokes the primary strategy exactly once. *)
Lemma replace_with_fallback_primary cfg t a b s :
  primary_invocations (emitted (replace_with_fallback env cfg t a b s)) = 1.
Proof.
  unfold replace_with_fallback, try_catch, bind, execSync, call.
  destruct (env_exec env (wp_search_replace cfg t a b) (stdio_of cfg) (world s))
    as [[out|] w]; cbn [result emitted final ret]; [reflexivity|].
  rewrite primary_invocations_app.
  rewrite (mysql_only_no_primary _ (performDirectSearchReplace_mysql_only cfg a b _)).
  reflexivity.
Qed.

Lemma for_of_rules_primary cfg t (rules : list Replacement) : forall s,
  primary_invocations
    (emitted (for_of rules
                (fun r => replace_with_fallback env cfg t (search r) (replace r)) s))
  = List.length rules.
Proof.
  induction rules as [|r rules IH]; intros s; [reflexivity|].
  cbn [for_of]. unfold bind.
  rewrite (replace_with_fallback_never_throws cfg t (search r) (replace r) s).
  cbn [emitted]. rewrite primary_invocations_app, replace_with_fallback_primary, IH.
  reflexivity.
Qed.

Definition oldUrl (cfg : Config) : jsstring :=
  or_else (sql_oldUrl (sql cfg)) (lit "http://example.com").
Definition newUrl (cfg : Config) (t : This) : jsstring :=
  lit "http://" ++ websiteName t ++ valet_domain (valet cfg).
Definition oldDomain (cfg : Config) : jsstring :=
  or_else (sql_oldDomain (sql cfg)) (lit "example.com").
Definition newDomain (cfg : Config) (t : This) : jsstring :=
  websiteName t ++ valet_domain (valet cfg).

Definition guarded (a b : jsstring) : nat :=
  if str_eqb a b then 0 else 1.

(** The base-URL rule and the bare-domain rule are skipped when their
    two sides are equal; every additional rule is run, whatever its two
    sides are. *)
Lemma performSearchReplace_primary_invocations cfg s :
  adv_skipSearchReplace (advanced cfg) = false ->
  sr_enabled (sql_searchReplace (sql cfg)) = true ->
  primary_invocations (emitted (performSearchReplace env cfg s)) =
  guarded (oldUrl cfg) (newUrl cfg (this s)) +
  guarded (oldDomain cfg) (newDomain cfg (this s)) +
  List.length (sr_additionalReplacements (sql_searchReplace (sql cfg))).
Proof.
  intros Hskip Hen. unfold performSearchReplace. rewrite Hskip, Hen.
  cbn [negb]. unfold bind at 1. cbn [get_this result final emitted app].
  fold (oldUrl cfg) (newUrl cfg (this s)) (oldDomain cfg) (newDomain cfg (this s)).
  unfold bind at 1.
  rewrite (when_never_throws (negb (str_eqb (oldUrl cfg) (newUrl cfg (this s))))
             (replace_with_fallback_never_throws cfg (this s) _ _) s).
  cbn [emitted]. rewrite primary_invocations_app.
  unfold bind at 1.
  rewrite (when_never_throws (negb (str_eqb (oldDomain cfg) (newDomain cfg (this s))))
             (replace_with_fallback_never_throws cfg (this s) _ _) _).
  cbn [emitted]. rewrite primary_invocations_app, for_of_rules_primary.
  unfold guarded, when.
  destruct (str_eqb (oldUrl cfg) (newUrl cfg (this s)));
    destruct (str_eqb (oldDomain cfg) (newDomain cfg (this s)));
    cbn [negb]; rewrite ?replace_with_fallback_primary; reflexivity.
Qed.

End SearchReplace.

Section RawFallback.

Variable W : Type.
Variable env : Env W.

(** The client the raw strategy builds: the user is the dedicated one
    when it exists, the password is always the configured one. *)
Definition raw_client (cfg : Config) (t : This) : MysqlClient :=
  mysql_client cfg t
    (or_else (dbUser t) (db_user (database cfg)))
    (passwordParam (db_password (database cfg))).

Definition show_tables (cfg : Config) (t : This) : Cmd :=
  CmdMysql (raw_client cfg t) (Execute SqlShowTables).

Definition update_option_value (cfg : Config) (t : This) (table a b : jsstring) : Cmd :=
  CmdMysql (raw_client cfg t) (Execute (SqlUpdateOptionValue table a b)).

Definition update_column (cfg : Config) (t : This) (table column a b : jsstring) : Cmd :=
  CmdMysql (raw_client cfg t) (Execute (SqlUpdateColumn table column a b)).

(** The per-table body of the raw strategy. *)
Definition raw_table_body (cfg : Config) (t : This) (a b table : jsstring) : M W unit :=
  try_catch
    (execSync env (update_option_value cfg t table a b) Pipe ;; ret tt)
    (fun _ =>
       for_of commonColumns (fun column =>
         try_catch
           (execSync env (update_column cfg t table column a b) Pipe ;; ret tt)
           (fun _ => ret tt))).

Lemma performDirectSearchReplace_unfold cfg a b s :
  performDirectSearchReplace env cfg a b s =
  try_catch
    (tablesOutput <- execSync env (show_tables cfg (this s)) Pipe ;;
     for_of (table_lines tablesOutput) (raw_table_body cfg (this s) a b))
    (fun _ => ret tt) s.
Proof.
  unfold performDirectSearchReplace, try_catch. rewrite bind_get_this. reflexivity.
Qed.

Lemma raw_table_body_never_throws cfg t a b table :
  never_throws (raw_table_body cfg t a b table).
Proof.
  unfold raw_table_body. apply try_catch_never_throws. intros _.
  apply for_of_never_throws. intros column.
  apply try_catch_never_throws. intros _ s. reflexivity.
Qed.

Lemma raw_table_body_first cfg t a b table s :
  exists rest,
    commands (emitted (raw_table_body cfg t a b table s)) =
    update_option_value cfg t table a b :: rest.
Proof.
  unfold raw_table_body, try_catch, bind, execSync, call.
  destruct (env_exec env (update_option_value cfg t table a b) Pipe (world s))
    as [[out|] w]; cbn [result emitted final ret app commands]; eauto.
Qed.

Lemma for_of_first_commands {A} (l : list A) (body : A -> M W unit) (cmd : A -> Cmd) :
  (forall x, never_throws (body x)) ->
  (forall x s, exists rest, commands (emitted (body x s)) = cmd x :: rest) ->
  forall x, In x l -> forall s, In (cmd x) (commands (emitted (for_of l body s))).
Proof.
  intros Hn Hf x. induction l as [|y l IH]; intros Hin s; [destruct Hin|].
  cbn [for_of]. unfold bind. rewrite (Hn y s). cbn [emitted].
  rewrite commands_app. apply in_or_app.
  destruct Hin as [-> | Hin].
  - left. destruct (Hf x s) as [rest ->]. left. reflexivity.
  - right. apply IH, Hin.
Qed.

(** Every command of the raw strategy passes the configured password,
    whatever [this.dbPassword] holds. *)
Definition passes (param : jsstring) (e : Event) : bool :=
  match e with
  | EvExec (CmdMysql client _) _ _ => str_eqb (mc_passwordParam client) param
  | _ => false
  end.

Lemma performDirectSearchReplace_password cfg a b :
  emits_only (passes (passwordParam (db_password (database cfg))))
             (performDirectSearchReplace env cfg a b).
Proof.
  unfold performDirectSearchReplace.
  apply emits_only_try_catch; [|intros; apply emits_only_ret].
  apply emits_only_bind; [apply emits_only_get_this|]. intros t.
  apply emits_only_bind;
    [apply emits_only_execSync; intros; apply str_eqb_refl|]. intros out.
  apply emits_only_for_of. intros table.
  apply emits_only_try_catch.
  - apply emits_only_bind;
      [apply emits_only_execSync; intros; apply str_eqb_refl|].
    intros; apply emits_only_ret.
  - intros _. apply emits_only_for_of. intros column.
    apply emits_only_try_catch; [|intros; apply emits_only_ret].
    apply emits_only_bind;
      [apply emits_only_execSync; intros; apply str_eqb_refl|].
    intros; apply emits_only_ret.
Qed.

(** The same configuration with other matching options. *)
Definition with_options (cfg : Config) (dryRun caseSensitive regex : bool) : Config :=
  {| database := database cfg;
     wordpress := wordpress cfg;
     sql :=
       {| sql_source := sql_source (sql cfg);
          sql_oldUrl := sql_oldUrl (sql cfg);
          sql_oldDomain := sql_oldDomain (sql cfg);
          sql_searchReplace :=
            {| sr_enabled := sr_enabled (sql_searchReplace (sql cfg));
               sr_caseSensitive := caseSensitive;
               sr_regex := regex;
               sr_dryRun := dryRun;
               sr_additionalReplacements :=
                 sr_additionalReplacements (sql_searchReplace (sql cfg)) |};
          sql_optimizeAfterImport := sql_optimizeAfterImport (sql cfg);
          sql_repairAfterImport := sql_repairAfterImport (sql cfg) |};
     development := development cfg;
     security := security cfg;
     valet := valet cfg;
     custom := custom cfg;
     advanced := advanced cfg |}.

(** C9. The raw fallback does not honor dry-run.  For a rule run with
    dry-run enabled, when the invocation of the primary strategy fails
    and the table enumeration answers, the stage executes, for every
    table listed, the statement that updates [option_value] with
    [REPLACE]; the primary command carried the dry-run flag, the raw
    statements carry none of the options: the raw strategy is the same
    computation whatever dry-run, case sensitivity and regex are. *)
Theorem raw_fallback_ignores_dry_run cfg s a b w1 out w2 :
  sr_dryRun (sql_searchReplace (sql cfg)) = true ->
  env_exec env (wp_search_replace cfg (this s) a b) (stdio_of cfg) (world s)
    = (None, w1) ->
  env_exec env (show_tables cfg (this s)) Pipe w1 = (Some out, w2) ->
  let o := replace_with_fallback env cfg (this s) a b s in
  (exists cs rx,
      wp_search_replace cfg (this s) a b =
      CmdWpSearchReplace a b (websitePath (this s)) (lit "--dry-run") cs rx) /\
  result o = Return tt /\
  (forall table, In table (table_lines out) ->
     In (update_option_value cfg (this s) table a b) (commands (emitted o))) /\
  (forall d c r,
     performDirectSearchReplace env (with_options cfg d c r) a b =
     performDirectSearchReplace env cfg a b).
Proof.
  intros Hdry Hwp Hshow o. repeat split.
  - unfold wp_search_replace. rewrite Hdry. cbn [flag]. eauto.
  - apply replace_with_fallback_never_throws.
  - intros table Hin. subst o.
    unfold replace_with_fallback.
    assert (Hprimary :
      result ((execSync env (wp_search_replace cfg (this s) a b) (stdio_of cfg) ;;
               ret tt) s) = Throw (ErrExec (wp_search_replace cfg (this s) a b)) /\
      final ((execSync env (wp_search_replace cfg (this s) a b) (stdio_of cfg) ;;
              ret tt) s) = {| this := this s; world := w1 |}).
    { rewrite (bind_throw _ _ s (e := ErrExec (wp_search_replace cfg (this s) a b)));
        rewrite (execSync_eq _ _ _ s Hwp); split; reflexivity. }
    destruct Hprimary as [Hr Hf].
    rewrite (try_catch_throw _ _ s Hr), Hf. cbn [emitted].
    rewrite commands_app. apply in_or_app. right.
    rewrite performDirectSearchReplace_unfold. cbn [this].
    set (st1 := {| this := this s; world := w1 |}).
    assert (Hlist : result (execSync env (show_tables cfg (this s)) Pipe st1) = Return out).
    { rewrite (execSync_eq _ _ _ st1 (r := Some out) (w := w2)); [reflexivity|exact Hshow]. }
    rewrite try_catch_return with (a := tt).
    2:{ rewrite (bind_return _ _ st1 Hlist).
        cbn [result]. apply for_of_never_throws, raw_table_body_never_throws. }
    rewrite (bind_return _ _ st1 Hlist). cbn [emitted].
    rewrite commands_app. apply in_or_app. right.
    apply for_of_first_commands with (cmd := fun x => update_option_value cfg (this s) x a b).
    + apply raw_table_body_never_throws.
    + intros. apply raw_table_body_first.
    + exact Hin.
Qed.

(** *** When every command fails *)

Definition failed_exec (e : Event) : bool :=
  match e with
  | EvExec _ _ None => true
  | _ => false
  end.

(** The commands that ran to completion. *)
Fixpoint succeeded (l : list Event) : list Cmd :=
  match l with
  | [] => []
  | EvExec c _ (Some _) :: rest => c :: succeeded rest
  | _ :: rest => succeeded rest
  end.

Lemma failed_none_succeeded l :
  forallb failed_exec l = true -> succeeded l = [].
Proof.
  induction l as [|e l IH]; [reflexivity|]. cbn [forallb]. intros H.
  apply andb_prop in H. destruct H as [He Hl].
  destruct e as [c io [out|]| | | | | | | | | | |]; try discriminate He.
  cbn. apply IH, Hl.
Qed.

Lemma succeeded_app l1 l2 : succeeded (l1 ++ l2) = succeeded l1 ++ succeeded l2.
Proof.
  induction l1 as [|e l1 IH]; [reflexivity|].
  destruct e as [c io [out|]| | | | | | | | | | |]; cbn; rewrite ?IH; reflexivity.
Qed.

Hypothesis all_fail : forall c io w, fst (env_exec env c io w) = None.

Lemma execSync_fails c io : emits_only failed_exec (execSync env c io).
Proof.
  intros s. unfold execSync, call. pose proof (all_fail c io (world s)) as H.
  destruct (env_exec env c io (world s)) as [r w]. cbn in H. subst r. reflexivity.
Qed.

Lemma performDirectSearchReplace_all_fail cfg a b :
  emits_only failed_exec (performDirectSearchReplace env cfg a b).
Proof.
  unfold performDirectSearchReplace.
  apply emits_only_try_catch; [|intros; apply emits_only_ret].
  apply emits_only_bind; [apply emits_only_get_this|]. intros t.
  apply emits_only_bind; [apply execSync_fails|]. intros out.
  apply emits_only_for_of. intros table.
  apply emits_only_try_catch.
  - apply emits_only_bind; [apply execSync_fails|]. intros; apply emits_only_ret.
  - intros _. apply emits_only_for_of. intros column.
    apply emits_only_try_catch; [|intros; apply emits_only_ret].
    apply emits_only_bind; [apply execSync_fails|]. intros; apply emits_only_ret.
Qed.

Lemma replace_with_fallback_all_fail cfg t a b :
  emits_only failed_exec (replace_with_fallback env cfg t a b).
Proof.
  unfold replace_with_fallback. apply emits_only_try_catch.
  - apply emits_only_bind; [apply execSync_fails|]. intros; apply emits_only_ret.
  - intros _. apply performDirectSearchReplace_all_fail.
Qed.

Lemma performSearchReplace_all_fail cfg :
  emits_only failed_exec (performSearchReplace env cfg).
Proof.
  unfold performSearchReplace.
  destruct (adv_skipSearchReplace (advanced cfg)); [apply emits_only_ret|].
  destruct (negb (sr_enabled (sql_searchReplace (sql cfg)))); [apply emits_only_ret|].
  apply emits_only_bind; [apply emits_only_get_this|]. intros t.
  apply emits_only_bind;
    [apply emits_only_when, replace_with_fallback_all_fail|]. intros _.
  apply emits_only_bind;
    [apply emits_only_when, replace_with_fallback_all_fail|]. intros _.
  apply emits_only_for_of. intros r. apply replace_with_fallback_all_fail.
Qed.

End RawFallback.

(** C10. The raw fallback never propagates an error.  Whatever the
    outside world answers, the raw strategy returns normally and so does
    the whole search-replace stage; in a world where every command
    fails, the stage still returns normally and no command of it has
    run to completion. *)
Theorem raw_fallback_never_propagates W (env : Env W) cfg a b s :
  result (performDirectSearchReplace env cfg a b s) = Return tt /\
  result (performSearchReplace env cfg s) = Return tt /\
  ((forall c io w, fst (env_exec env c io w) = None) ->
   succeeded (emitted (performDirectSearchReplace env cfg a b s)) = [] /\
   succeeded (emitted (performSearchReplace env cfg s)) = []).
Proof.
  split; [apply performDirectSearchReplace_never_throws|].
  split; [apply performSearchReplace_never_throws|].
  intros Hfail. split; apply failed_none_succeeded.
  - apply performDirectSearchReplace_all_fail, Hfail.
  - apply performSearchReplace_all_fail, Hfail.
Qed.

(* ================================================================== *)
(** ** The database provisioner                                        *)
(* ================================================================== *)

Section Provisioner.

Variable W : Type.
Variable env : Env W.

(** A computation that leaves the instance fields as they were. *)
Definition keeps_this {A} (m : M W A) : Prop :=
  forall s, this (final (m s)) = this s.

Lemma keeps_this_ret {A} (a : A) : keeps_this (ret a).
Proof. intros s. reflexivity. Qed.

Lemma keeps_this_throw {A} e : keeps_this (@throw W A e).
Proof. intros s. reflexivity. Qed.

Lemma keeps_this_bind {A B} (m : M W A) (k : A -> M W B) :
  keeps_this m -> (forall a, keeps_this (k a)) -> keeps_this (bind m k).
Proof.
  intros Hm Hk s. unfold bind.
  destruct (result (m s)) as [a|e]; cbn [final].
  - rewrite Hk. apply Hm.
  - apply Hm.
Qed.

Lemma keeps_this_try_catch {A} (m : M W A) (h : Error -> M W A) :
  keeps_this m -> (forall e, keeps_this (h e)) -> keeps_this (try_catch m h).
Proof.
  intros Hm Hh s. unfold try_catch.
  destruct (result (m s)) as [a|e]; cbn [final].
  - apply Hm.
  - rewrite Hh. apply Hm.
Qed.

Lemma keeps_this_when c (m : M W unit) : keeps_this m -> keeps_this (when c m).
Proof. intros Hm. destruct c; [exact Hm | apply keeps_this_ret]. Qed.

Lemma keeps_this_execSync c io : keeps_this (execSync env c io).
Proof.
  intros s. unfold execSync, call.
  destruct (env_exec env c io (world s)); reflexivity.
Qed.

Lemma keeps_this_sleep ms : keeps_this (sleep env ms).
Proof. intros s. reflexivity. Qed.

Lemma emits_only_throw {A} P e : emits_only P (@throw W A e).
Proof. intros s. reflexivity. Qed.

Lemma emits_only_sleep (P : Event -> bool) ms :
  P (EvSleep ms) = true -> emits_only P (sleep env ms).
Proof. intros H s. cbn. rewrite H. reflexivity. Qed.


(** An event that neither opens the connection nor runs a statement on
    it. *)
Definition off_connection (e : Event) : bool :=
  match e with
  | EvQuery _ _ | EvConnect _ _ _ _ _ => false
  | _ => true
  end.

Lemma off_connection_statements l :
  forallb off_connection l = true -> statements l = [].
Proof.
  induction l as [|e l IH]; [reflexivity|]. cbn [forallb]. intros H.
  apply andb_prop in H. destruct H as [He Hl].
  destruct e; try discriminate He; cbn; apply IH, Hl.
Qed.


(** The container commands and the readiness poll: both properties at once. *)
Definition container_step {A} (m : M W A) : Prop :=
  emits_only off_connection m /\ keeps_this m.

Ltac container_tac :=
  repeat first
    [ apply conj
    | apply emits_only_bind | apply keeps_this_bind
    | apply emits_only_try_catch | apply keeps_this_try_catch
    | apply emits_only_when | apply keeps_this_when
    | apply emits_only_ret | apply keeps_this_ret
    | apply emits_only_throw | apply keeps_this_throw
    | apply emits_only_execSync; reflexivity | apply keeps_this_execSync
    | apply emits_only_sleep; reflexivity | apply keeps_this_sleep
    | intro ].

Lemma waitForMysql_container cfg n : container_step (waitForMysql env cfg n).
Proof.
  induction n as [|n [IHe IHk]]; cbn [waitForMysql].
  - split; [apply emits_only_throw | apply keeps_this_throw].
  - split.
    + apply emits_only_bind; [container_tac|]. intros [|]; [apply emits_only_ret|exact IHe].
    + apply keeps_this_bind; [container_tac|]. intros [|]; [apply keeps_this_ret|exact IHk].
Qed.

Lemma createDockerMysql_container cfg : container_step (createDockerMysql env cfg).
Proof.
  unfold createDockerMysql. destruct (waitForMysql_container cfg maxAttempts_default).
  split.
  - apply emits_only_bind; [container_tac|]. intros _.
    apply emits_only_bind; [container_tac|]. intros _. assumption.
  - apply keeps_this_bind; [container_tac|]. intros _.
    apply keeps_this_bind; [container_tac|]. intros _. assumption.
Qed.

Lemma ensureDockerMysql_container cfg : container_step (ensureDockerMysql env cfg).
Proof.
  unfold ensureDockerMysql.
  destruct (createDockerMysql_container cfg) as [Ce Ck].
  destruct (waitForMysql_container cfg maxAttempts_default) as [We Wk].
  destruct (negb (dk_enabled (db_docker (database cfg)))).
  - split; [apply emits_only_ret | apply keeps_this_ret].
  - split.
    + apply emits_only_bind; [container_tac|]. intros x.
      destruct (negb (truthy x)); [exact Ce|].
      apply emits_only_bind; [container_tac|]. intros y.
      apply emits_only_when. apply emits_only_bind; [container_tac|]. intros _. exact We.
    + apply keeps_this_bind; [container_tac|]. intros x.
      destruct (negb (truthy x)); [exact Ck|].
      apply keeps_this_bind; [container_tac|]. intros y.
      apply keeps_this_when. apply keeps_this_bind; [container_tac|]. intros _. exact Wk.
Qed.

Lemma execute_cases q s :
  this (final (execute env q s)) = this s /\
  ((exists n, result (execute env q s) = Return n /\
              emitted (execute env q s) = [EvQuery q (Some n)])
   \/ (result (execute env q s) = Throw (ErrQuery q) /\
       emitted (execute env q s) = [EvQuery q None])).
Proof.
  unfold execute, call. destruct (env_query env q (world s)) as [[n|] w]; cbn.
  - split; [reflexivity|]. left. eauto.
  - split; [reflexivity|]. right. eauto.
Qed.

Lemma createConnection_cases h u p port s :
  this (final (createConnection env h u p port s)) = this s /\
  statements (emitted (createConnection env h u p port s)) = [] /\
  (result (createConnection env h u p port s) = Return tt \/
   result (createConnection env h u p port s) = Throw ErrConnect).
Proof.
  unfold createConnection, call.
  destruct (env_connect env h u p port (world s)) as [[|] w]; cbn; auto.
Qed.




End Provisioner.

(* ================================================================== *)
(** ** The local salt generator                                        *)
(* ================================================================== *)

Section Salts.

Variable W : Type.
Variable env : Env W.

(** [Math.random()] is below 1, so the index drawn for an [n]-unit
    alphabet is below [n]. *)
Hypothesis random_in_range :
  forall n w, 0 < n -> fst (env_random env n w) < n.

Lemma random_index_spec n s :
  0 < n -> exists i, i < n /\ result (random_index env n s) = Return i.
Proof.
  intros Hn. unfold random_index, call. pose proof (@random_in_range n (world s) Hn) as H.
  destruct (env_random env n (world s)) as [i w]. cbn in *. eauto.
Qed.

Lemma charAt_in chars i :
  i < List.length chars -> exists c, charAt chars i = [c] /\ In c chars.
Proof.
  intros Hi. unfold charAt.
  destruct (nth_error chars i) as [c|] eqn:E.
  - exists c. split; [reflexivity|]. eapply nth_error_In, E.
  - apply nth_error_None in E. lia.
Qed.

Lemma random_string_spec chars n :
  0 < List.length chars ->
  forall acc s, exists k,
    result (random_string env chars n acc s) = Return (acc ++ k) /\
    List.length k = n /\ Forall (fun c => In c chars) k.
Proof.
  intros Hc. induction n as [|n IH]; intros acc s.
  - exists []. cbn. rewrite app_nil_r. auto.
  - cbn [random_string].
    destruct (random_index_spec s Hc) as (i & Hi & Ei).
    rewrite (bind_return _ _ s Ei). cbn [result].
    destruct (@charAt_in chars i Hi) as (c & Ec & Hin). rewrite Ec.
    destruct (IH (acc ++ [c]) (final (random_index env (List.length chars) s)))
      as (k & Ek & Hlen & Hall).
    exists (c :: k). rewrite Ek, <- app_assoc. cbn. auto.
Qed.

(** A generated key: 64 units, each from the alphabet. *)
Definition key_ok (k : jsstring) : Prop :=
  List.length k = 64 /\ Forall (fun c => In c salt_chars) k.

(** The block for given line heads and keys: for each, a line break,
    the head, the key, and the closing of the statement. *)
Fixpoint fallback_block (heads keys : list jsstring) : jsstring :=
  match heads, keys with
  | h :: heads', k :: keys' =>
      nl ++ h ++ k ++ lit "' );" ++ fallback_block heads' keys'
  | _, _ => []
  end.

Lemma salt_lines_spec heads :
  forall acc s, exists keys,
    result (salt_lines env heads acc s) = Return (acc ++ fallback_block heads keys) /\
    List.length keys = List.length heads /\ Forall key_ok keys.
Proof.
  induction heads as [|h heads IH]; intros acc s.
  - exists []. cbn. rewrite app_nil_r. auto.
  - cbn [salt_lines]. unfold generateKey.
    assert (Hc : 0 < List.length salt_chars) by (vm_compute; lia).
    destruct (@random_string_spec salt_chars 64 Hc [] s) as (k & Ek & Hlen & Hall).
    cbn [app] in Ek. rewrite (bind_return _ _ s Ek). cbn [result].
    destruct (IH (acc ++ nl ++ h ++ k ++ lit "' );")
                 (final (random_string env salt_chars 64 [] s)))
      as (keys & Eks & Hl & Hok).
    exists (k :: keys). rewrite Eks. cbn [fallback_block List.length].
    repeat split.
    + f_equal. rewrite <- !app_assoc. reflexivity.
    + congruence.
    + constructor; [split; assumption | assumption].
Qed.

(** The name of each assignment and the blanks that follow its comma. *)
Definition salt_names : list (jsstring * nat) :=
  [ (lit "AUTH_KEY", 9); (lit "SECURE_AUTH_KEY", 2); (lit "LOGGED_IN_KEY", 4);
    (lit "NONCE_KEY", 8); (lit "AUTH_SALT", 8); (lit "SECURE_AUTH_SALT", 1);
    (lit "LOGGED_IN_SALT", 3); (lit "NONCE_SALT", 7) ].

Definition assignment_head (np : jsstring * nat) : jsstring :=
  lit "define( '" ++ fst np ++ lit "'," ++ repeat 32%N (snd np) ++ lit "'".

Definition salts_url : jsstring := lit "https://api.wordpress.org/secret-key/1.1/salt/".

(** C7. Shape of the salt fallback.  When the call to the remote
    generator fails, [generateSalts] returns a block of exactly eight
    lines, one for each of AUTH_KEY, SECURE_AUTH_KEY, LOGGED_IN_KEY,
    NONCE_KEY, AUTH_SALT, SECURE_AUTH_SALT, LOGGED_IN_SALT, NONCE_SALT in
    this order, each of the form [define( 'NAME', 'KEY' );] with a key of
    exactly 64 units drawn from the 72-unit alphabet of letters, digits
    and punctuation. *)
Theorem generateSalts_fallback_shape s :
  fst (env_get env salts_url (world s)) = None ->
  exists keys,
    result (generateSalts env s) =
      Return (fallback_block (map assignment_head salt_names) keys) /\
    List.length keys = 8 /\
    Forall key_ok keys /\
    List.length salt_chars = 72.
Proof.
  intros Hget. unfold generateSalts.
  assert (Hthrow : result (axios_get env salts_url s) = Throw (ErrGet salts_url)).
  { unfold axios_get, call. destruct (env_get env salts_url (world s)) as [r w].
    cbn in Hget. subst r. reflexivity. }
  rewrite (try_catch_throw _ _ s Hthrow). cbn [result].
  destruct (salt_lines_spec salt_heads [] (final (axios_get env salts_url s)))
    as (keys & Ek & Hl & Hok).
  exists keys. rewrite Ek. repeat split; auto.
Qed.

End Salts.

(* ================================================================== *)
(** ** The admin reconciliation stage: the existence check             *)
(* ================================================================== *)

Section ExistenceCheck.

Variable W : Type.
Variable env : Env W.

Definition check_command (cfg : Config) (t : This) : Cmd :=
  CmdMysql (stage_client cfg t)
    (Execute (SqlCountUsers (db_prefix (database cfg)) (wp_adminUser (wordpress cfg)))).

(** The ways the count query can fail: the subprocess throws, the
    output has no data line, or its first data line is not a number. *)
Definition query_failed (r : option jsstring) : bool :=
  match r with
  | None => true
  | Some output =>
      match data_lines (lit "count") output with
      | [] => true
      | first :: _ =>
          match parseInt (trim first) with
          | None => true
          | Some _ => false
          end
      end
  end.

Lemma checkAdminUserExists_eq cfg s :
  checkAdminUserExists env cfg s =
  let '(r, w) := env_exec env (check_command cfg (this s)) Pipe (world s) in
  {| result :=
       Return match r with
              | None => false
              | Some output =>
                  match data_lines (lit "count") output with
                  | first :: _ => parseInt_gt0 (trim first)
                  | [] => false
                  end
              end;
     final := {| this := this s; world := w |};
     emitted := [EvExec (check_command cfg (this s)) Pipe r] |}.
Proof.
  unfold checkAdminUserExists, try_catch. rewrite bind_get_this.
  fold (check_command cfg (this s)).
  unfold bind, execSync, call.
  destruct (env_exec env (check_command cfg (this s)) Pipe (world s)) as [[output|] w];
    cbn [result final emitted ret app].
  - destruct (data_lines (lit "count") output); reflexivity.
  - reflexivity.
Qed.

Lemma manageAdminUser_unfold cfg s :
  truthy_opt (sql_source (sql cfg)) = true ->
  manageAdminUser env cfg s =
  bind (checkAdminUserExists env cfg)
       (fun adminUserExists =>
          if adminUserExists
          then updateAdminUserPassword env cfg
          else createAdminUser env cfg) s.
Proof.
  intros Hsrc. unfold manageAdminUser. rewrite Hsrc. reflexivity.
Qed.

Lemma query_failed_absent output :
  query_failed (Some output) = true ->
  match data_lines (lit "count") output with
  | first :: _ => parseInt_gt0 (trim first)
  | [] => false
  end = false.
Proof.
  unfold query_failed, parseInt_gt0.
  destruct (data_lines (lit "count") output) as [|first rest]; [reflexivity|].
  destruct (parseInt (trim first)); [discriminate|reflexivity].
Qed.

(** C8. The existence check fails open.  The check never throws; when
    the count query fails (the subprocess throws, or prints no data
    line, or prints a first data line that is not a number) it reports
    the account as absent, and the reconciliation stage goes on with the
    creation of the account from the state the check left. *)
Theorem checkAdminUserExists_fail_open cfg s :
  query_failed (fst (env_exec env (check_command cfg (this s)) Pipe (world s))) = true ->
  let c := checkAdminUserExists env cfg s in
  result c = Return false /\
  (truthy_opt (sql_source (sql cfg)) = true ->
   result (manageAdminUser env cfg s) = result (createAdminUser env cfg (final c)) /\
   emitted (manageAdminUser env cfg s) =
     emitted c ++ emitted (createAdminUser env cfg (final c))).
Proof.
  intros Hfail c.
  assert (Hc : result c = Return false).
  { subst c. rewrite checkAdminUserExists_eq.
    destruct (env_exec env (check_command cfg (this s)) Pipe (world s)) as [[output|] w];
      [|reflexivity].
    cbn [result]. f_equal. apply query_failed_absent. exact Hfail. }
  split; [exact Hc|]. intros Hsrc. subst c.
  rewrite (manageAdminUser_unfold cfg s Hsrc).
  rewrite (bind_return_result _ _ s Hc), (bind_return_emitted _ _ s Hc).
  split; reflexivity.
Qed.

(** The check returns normally whatever the query does. *)
Lemma checkAdminUserExists_never_throws cfg s :
  exists b, result (checkAdminUserExists env cfg s) = Return b.
Proof.
  rewrite checkAdminUserExists_eq.
  destruct (env_exec env (check_command cfg (this s)) Pipe (world s)) as [r w].
  cbn. eauto.
Qed.

End ExistenceCheck.

(* ================================================================== *)
(** ** The shell between [execSync] and the client                     *)
(* ================================================================== *)

(** [execSync] hands its command line to [sh -c].  The statement of a
    client command stands between double quotes, and there the shell
    replaces every parameter reference before the client is started:
    [$NAME] with the longest name that follows, and [$] followed by a
    digit or by one of [$ ? ! # * @ -].  A parameter that is not set
    expands to nothing; a [$] before anything else, or at the end,
    stays.  Backslashes, backquotes, quotes and the forms that open with
    a brace or a parenthesis are outside this model: [modelled] tells
    the texts it covers. *)
Module Shell.

Definition dollar : N := 36.

Definition is_letter (c : N) : bool :=
  (N.leb 65 c && N.leb c 90) || (N.leb 97 c && N.leb c 122).

Definition is_numeral (c : N) : bool := N.leb 48 c && N.leb c 57.

(** The units of a name: a letter or an underscore first, then letters,
    digits and underscores. *)
Definition name_start (c : N) : bool := is_letter c || N.eqb c 95.
Definition name_char (c : N) : bool := name_start c || is_numeral c.

(** A positional or a special parameter, one unit long. *)
Definition special (c : N) : bool :=
  is_numeral c || existsb (N.eqb c) [36; 63; 33; 35; 42; 64; 45]%N.

(** The value of a parameter among those that are set. *)
Fixpoint parameter (vars : list (jsstring * jsstring)) (name : jsstring) : jsstring :=
  match vars with
  | [] => []
  | (n, v) :: rest => if str_eqb n name then v else parameter rest name
  end.

Section Expansion.

Variable vars : list (jsstring * jsstring).

(** [expand] reads text, [after_dollar] what follows a [$], [in_name]
    what follows the units of a name read so far. *)
Fixpoint expand (s : jsstring) : jsstring :=
  match s with
  | [] => []
  | c :: rest => if N.eqb c dollar then after_dollar rest else c :: expand rest
  end
with after_dollar (s : jsstring) : jsstring :=
  match s with
  | [] => [dollar]
  | c :: rest =>
      if name_start c then in_name rest [c]
      else if special c then parameter vars [c] ++ expand rest
      else dollar :: c :: expand rest
  end
with in_name (s : jsstring) (name : jsstring) {struct s} : jsstring :=
  match s with
  | [] => parameter vars name
  | c :: rest =>
      if name_char c then in_name rest (name ++ [c])
      else parameter vars name ++
           (if N.eqb c dollar then after_dollar rest else c :: expand rest)
  end.

End Expansion.




End Shell.

(* ================================================================== *)
(** ** A model of the outside world                                    *)
(* ================================================================== *)

(** A world to run the stages in: an account store with the two tables
    the reconciliation stage writes, a schema for the raw strategy, a
    file store, and switches for what fails.  The login comparison of
    the store is exact equality of code units; table contents other
    than the accounts are not kept, so a replace-update only succeeds
    or fails on the existence of its column; the table prefix is not
    interpreted; credentials are not checked.  A statement reaches the
    client as the shell leaves it: the values it holds between quotes
    are stored, and compared, after expansion. *)
Module World.

Record UserRow := {
  ID : N;
  user_login : jsstring;
  user_pass : jsstring;
  user_email : jsstring;
  user_registered : jsstring
}.

Record MetaRow := {
  user_id : jsstring;
  meta_key : jsstring;
  meta_value : jsstring
}.

Record T := {
  users : list UserRow;
  usermeta : list MetaRow;
  next_id : N;
  (** each table with its text columns *)
  tables : list (jsstring * list jsstring);
  files : list (jsstring * jsstring);
  (** rows answered to a statement on the connection *)
  rows_found : nat;
  (** the body the remote generator answers, if it answers *)
  remote_salts : option jsstring;
  seed : nat;
  (** the commands that throw *)
  broken : Cmd -> bool;
  (** the parameters of the shell that are set *)
  parameters : list (jsstring * jsstring)
}.

Definition set_users (w : T) (u : list UserRow) (n : N) : T :=
  {| users := u; usermeta := usermeta w; next_id := n; tables := tables w;
     files := files w; rows_found := rows_found w;
     remote_salts := remote_salts w; seed := seed w; broken := broken w;
     parameters := parameters w |}.

Definition set_usermeta (w : T) (m : list MetaRow) : T :=
  {| users := users w; usermeta := m; next_id := next_id w; tables := tables w;
     files := files w; rows_found := rows_found w;
     remote_salts := remote_salts w; seed := seed w; broken := broken w;
     parameters := parameters w |}.

Definition set_files (w : T) (f : list (jsstring * jsstring)) : T :=
  {| users := users w; usermeta := usermeta w; next_id := next_id w;
     tables := tables w; files := f; rows_found := rows_found w;
     remote_salts := remote_salts w; seed := seed w; broken := broken w;
     parameters := parameters w |}.

Definition set_seed (w : T) (n : nat) : T :=
  {| users := users w; usermeta := usermeta w; next_id := next_id w;
     tables := tables w; files := files w; rows_found := rows_found w;
     remote_salts := remote_salts w; seed := n; broken := broken w;
     parameters := parameters w |}.

Definition has_login (login : jsstring) (r : UserRow) : bool :=
  str_eqb (user_login r) login.

(** The rows of the users table with a given login. *)
Definition matching (login : jsstring) (u : list UserRow) : list UserRow :=
  filter (has_login login) u.

Definition set_pass (hash : jsstring) (r : UserRow) : UserRow :=
  {| ID := ID r; user_login := user_login r; user_pass := hash;
     user_email := user_email r; user_registered := user_registered r |}.

Definition update_pass (login hash : jsstring) (u : list UserRow) : list UserRow :=
  map (fun r => if has_login login r then set_pass hash r else r) u.

Definition has_column (w : T) (table column : jsstring) : bool :=
  existsb (fun tc => str_eqb (fst tc) table && existsb (str_eqb column) (snd tc))
          (tables w).

(** The serialized administrator role, as the shell hands it to the
    client. *)
Definition admin_capabilities : jsstring :=
  lit "a:1:{s:13:" ++ dq ++ lit "administrator" ++ dq ++ lit ";b:1;}".

(** The client prints a header line and one line for each row, and
    nothing for an empty result. *)
Definition print_rows (header : jsstring) (rows : list jsstring) : jsstring :=
  match rows with
  | [] => []
  | _ => header ++ nl ++ List.concat (map (fun r => r ++ nl) rows)
  end.

(** A value of a statement, as the client receives it. *)
Definition received (w : T) (value : jsstring) : jsstring :=
  Shell.expand (parameters w) value.

Definition run_sql (client : MysqlClient) (stmt : Sql) (w : T) : option jsstring * T :=
  match stmt with
  | SqlOptimizeTables | SqlRepairTables => (Some [], w)
  | SqlShowTables =>
      (Some (print_rows (lit "Tables_in_" ++ mc_database client) (map fst (tables w))), w)
  | SqlUpdateOptionValue table _ _ =>
      (if has_column w table (lit "option_value") then Some [] else None, w)
  | SqlUpdateColumn table column _ _ =>
      (if has_column w table column then Some [] else None, w)
  | SqlCountUsers _ login =>
      (Some (print_rows (lit "count")
               [String_of_N (N.of_nat (List.length
                                         (matching (received w login) (users w))))]), w)
  | SqlUpdateUserPass _ hashedPassword login =>
      (Some [],
       set_users w (update_pass (received w login) (received w hashedPassword) (users w))
                 (next_id w))
  | SqlInsertUser _ login hashedPassword email now =>
      (Some [],
       set_users w
         (users w ++ [{| ID := next_id w; user_login := received w login;
                         user_pass := received w hashedPassword;
                         user_email := received w email;
                         user_registered := received w now |}])
         (next_id w + 1))
  | SqlSelectUserId _ login =>
      (Some (print_rows (lit "ID")
               (map (fun r => String_of_N (ID r))
                    (matching (received w login) (users w)))), w)
  | SqlInsertCapabilities prefix userId =>
      (Some [],
       set_usermeta w
         (usermeta w ++
          [ {| user_id := userId; meta_key := prefix ++ lit "capabilities";
               meta_value := admin_capabilities |};
            {| user_id := userId; meta_key := prefix ++ lit "user_level";
               meta_value := lit "10" |} ]))
  end.

Section Handlers.

(** The password hasher of the administration tool and the MD5 digest:
    the model does not compute either. *)
Variable wp_hash_password : jsstring -> jsstring.
Variable md5hex : jsstring -> jsstring.

Definition exec (c : Cmd) (io : Stdio) (w : T) : option jsstring * T :=
  if broken w c then (None, w)
  else
    match c with
    | CmdMysql client (Execute stmt) => run_sql client stmt w
    | CmdWpEvalHash password _ => (Some (wp_hash_password password ++ nl), w)
    | _ => (Some [], w)
    end.

Fixpoint lookup (p : jsstring) (f : list (jsstring * jsstring)) : option jsstring :=
  match f with
  | [] => None
  | (q, c) :: rest => if str_eqb q p then Some c else lookup p rest
  end.

Fixpoint store (p c : jsstring) (f : list (jsstring * jsstring))
  : list (jsstring * jsstring) :=
  match f with
  | [] => [(p, c)]
  | (q, d) :: rest => if str_eqb q p then (p, c) :: rest else (q, d) :: store p c rest
  end.

Definition env : Env T :=
  {| env_exec := exec;
     env_connect := fun _ _ _ _ w => (true, w);
     env_query := fun _ w => (Some (rows_found w), w);
     env_end := fun w => (true, w);
     env_sleep := fun _ w => w;
     env_get := fun _ w => (remote_salts w, w);
     env_random := fun n w => (Nat.modulo (seed w) n, set_seed w (seed w + 7));
     env_now := fun w => (lit "2024-05-06T07:08:09.123Z", w);
     env_pathExists :=
       fun p w => (match lookup p (files w) with Some _ => true | None => false end, w);
     env_copy :=
       fun src dst w =>
         match lookup src (files w) with
         | Some c => (true, set_files w (store dst c (files w)))
         | None => (false, w)
         end;
     env_readFile := fun p w => (lookup p (files w), w);
     env_writeFile := fun p c w => (true, set_files w (store p c (files w)));
     env_join := fun a b => a ++ lit "/" ++ b;
     env_resolve := fun p => p;
     env_md5hex := md5hex |}.

End Handlers.

End World.

(* ================================================================== *)
(** ** Decimal numerals: what the client prints, the stage reads back  *)
(* ================================================================== *)

Module Digits.












(** *** Trimming and searching a numeral *)







(** *** Reading a numeral back *)









End Digits.

(* ================================================================== *)
(** ** The admin reconciliation stage in the model world               *)
(* ================================================================== *)

Section Reconciliation.

Import World Digits.

Variable wp_hash_password : jsstring -> jsstring.
Variable md5hex : jsstring -> jsstring.

(** The model world with its two stand-ins as an environment. *)
Definition model : Env World.T := World.env wp_hash_password md5hex.









Definition login_of (cfg : Config) : jsstring := wp_adminUser (wordpress cfg).












Definition select_command (cfg : Config) (t : This) : Cmd :=
  CmdMysql (stage_client cfg t)
    (Execute (SqlSelectUserId (db_prefix (database cfg)) (login_of cfg))).

Definition capabilities_command (cfg : Config) (t : This) (userId : jsstring) : Cmd :=
  CmdMysql (stage_client cfg t)
    (Execute (SqlInsertCapabilities (db_prefix (database cfg)) userId)).




(** *** What the stage leaves in the account store *)








End Reconciliation.

(* ================================================================== *)
(** ** Concrete runs                                                   *)
(* ================================================================== *)

Module Scenario.

Import World.

(** Stand-ins for the two functions the model world does not compute. *)
Definition wp_hash_password (password : jsstring) : jsstring :=
  lit "$wp$" ++ password.
Definition md5hex (password : jsstring) : jsstring :=
  lit "md5-of-" ++ password.

Definition env : Env World.T := model wp_hash_password md5hex.

(** An environment in which every call fails. *)
Definition dead : Env unit :=
  {| env_exec := fun _ _ w => (None, w);
     env_connect := fun _ _ _ _ w => (false, w);
     env_query := fun _ w => (None, w);
     env_end := fun w => (false, w);
     env_sleep := fun _ w => w;
     env_get := fun _ w => (None, w);
     env_random := fun _ w => (0, w);
     env_now := fun w => ([], w);
     env_pathExists := fun _ w => (false, w);
     env_copy := fun _ _ w => (false, w);
     env_readFile := fun _ w => (None, w);
     env_writeFile := fun _ _ w => (false, w);
     env_join := fun a b => a ++ lit "/" ++ b;
     env_resolve := fun p => p;
     env_md5hex := md5hex |}.

Definition docker : DockerCfg :=
  {| dk_enabled := false; dk_containerName := lit "mysql";
     dk_image := lit "mysql:8.0"; dk_port := 3306; dk_rootPassword := [];
     dk_dataVolume := lit "mysql_data"; dk_network := lit "bridge" |}.

Definition db (createUser : bool) : DatabaseCfg :=
  {| db_host := lit "localhost"; db_user := lit "root";
     db_password := lit "rootpw"; db_port := 3306;
     db_charset := lit "utf8mb4"; db_collate := lit "utf8mb4_unicode_ci";
     db_prefix := lit "wp_"; db_createUser := createUser;
     db_userPrefix := lit "wp_";
     db_grantPrivileges := [lit "SELECT"; lit "INSERT"; lit "UPDATE"; lit "DELETE"];
     db_docker := docker |}.

(** A configuration for the site [demo] under [.test]: whether a
    dedicated user is created, the dump, the old URL and domain, dry-run,
    the additional rules and the custom wp-config lines vary. *)
Definition config (createUser : bool) (source : option jsstring)
           (old_url old_domain : jsstring) (dryRun : bool)
           (rules : list Replacement) (lines : list jsstring) : Config :=
  {| database := db createUser;
     wordpress := {| wp_adminUser := lit "admin"; wp_memoryLimit := Some (lit "256M") |};
     sql :=
       {| sql_source := source;
          sql_oldUrl := Some old_url;
          sql_oldDomain := Some old_domain;
          sql_searchReplace :=
            {| sr_enabled := true; sr_caseSensitive := false; sr_regex := false;
               sr_dryRun := dryRun; sr_additionalReplacements := rules |};
          sql_optimizeAfterImport := true;
          sql_repairAfterImport := true |};
     development :=
       {| dev_enableDebug := true; dev_debugLog := true; dev_wpDebugLog := true;
          dev_wpDebugDisplay := false; dev_scriptDebug := true;
          dev_saveQueries := true |};
     security := {| sec_disableFileEditing := true |};
     valet := {| valet_domain := lit ".test" |};
     custom := {| custom_wpConfig := lines |};
     advanced :=
       {| adv_skipDatabaseCreation := false; adv_skipSearchReplace := false;
          adv_verbose := false |} |}.

Definition site : This :=
  {| websiteName := lit "demo"; websitePath := lit "/srv/demo";
     dbName := lit "wp_demo"; dbUser := None; dbPassword := None;
     adminPassword := lit "admin123"; adminEmail := lit "admin@demo.test" |}.

Definition dump : jsstring := lit "/srv/dump.sql".

Definition schema : list (jsstring * list jsstring) :=
  [ (lit "wp_options", [lit "option_value"]);
    (lit "wp_posts", [lit "post_content"; lit "post_excerpt"; lit "post_title"]) ].

(** A configuration file as the sample ships it, shortened. *)
Definition sample_config : jsstring :=
  lit "<?php" ++ nl ++
  lit "define( 'DB_NAME', 'database_name_here' );" ++ nl ++
  lit "define( 'DB_USER', 'username_here' );" ++ nl ++
  lit "define( 'DB_PASSWORD', 'password_here' );" ++ nl ++
  lit "define( 'DB_HOST', 'localhost' );" ++ nl ++
  lit "define( 'DB_CHARSET', 'utf8' );" ++ nl ++
  lit "define( 'DB_COLLATE', '' );" ++ nl ++
  lit "define( 'AUTH_KEY',         'put your unique phrase here' );" ++ nl ++
  lit "$table_prefix = 'wp_';" ++ nl ++
  lit "/* That's all, stop editing! Happy publishing. */" ++ nl ++
  lit "if ( ! defined( 'ABSPATH' ) ) {" ++ nl ++
  lit "	define( 'ABSPATH', __DIR__ . '/' );" ++ nl ++
  lit "}" ++ nl ++
  lit "require_once ABSPATH . 'wp-settings.php';" ++ nl.

(** A world with the given accounts, in which the commands [down] throw;
    the dump and the configuration file of the site are on disk. *)
Definition world_with (accounts : list UserRow) (meta : list MetaRow)
           (rows : nat) (down : Cmd -> bool) : World.T :=
  {| users := accounts; usermeta := meta; next_id := 7; tables := schema;
     files := [(dump, []); (lit "/srv/demo/wp-config.php", sample_config)];
     rows_found := rows; remote_salts := None;
     seed := 3; broken := down; parameters := [] |}.

Definition nothing_down (_ : Cmd) : bool := false.
Definition everything_down (_ : Cmd) : bool := true.
Definition wp_search_replace_down (c : Cmd) : bool := is_wp_search_replace c.

Definition started (w : World.T) : State World.T := {| this := site; world := w |}.

(** *** The patcher run twice *)

Definition cache_line : jsstring := lit "define( 'WP_CACHE', true );".

Definition patch (lines : list jsstring) (text : jsstring) : jsstring :=
  Patcher.updateWpConfig_text
    (config false None (lit "http://example.com") (lit "example.com") false [] lines)
    site (lit "define('AUTH_KEY', 'from the remote generator');") text.

(** The number of places where [sub] occurs in [s]. *)
Fixpoint occurrences (sub s : jsstring) : nat :=
  (if startsWith sub s then 1 else 0) +
  match s with
  | [] => 0
  | _ :: s' => occurrences sub s'
  end.

(** C1. The patcher is not idempotent: the block of custom wp-config
    lines is inserted on every run.  Patching the sample with one custom
    line and patching the result again with the same parameters gives a
    different text, in which the custom line stands twice; every other
    additive setting stands once in both.  Without custom lines the
    second run changes nothing. *)
Theorem patcher_duplicates_custom_lines :
  let once := patch [cache_line] sample_config in
  let twice := patch [cache_line] once in
  str_eqb twice once = false /\
  occurrences cache_line once = 1 /\
  occurrences cache_line twice = 2 /\
  occurrences (lit "define( 'WP_DEBUG',") twice = 1 /\
  occurrences (lit "define( 'DISALLOW_FILE_EDIT',") twice = 1 /\
  occurrences (lit "define( 'WP_MEMORY_LIMIT',") twice = 1 /\
  occurrences (lit "require_once(ABSPATH . 'wp-settings.php');") twice = 1 /\
  str_eqb (patch [] (patch [] sample_config)) (patch [] sample_config) = true.
Proof. vm_compute. repeat split. Qed.

(** *** A no-op additional rule *)

Definition noop_rule : Replacement :=
  {| search := lit "staging"; replace := lit "staging" |}.

(** The base-URL rule and the bare-domain rule are both no-ops here. *)
Definition noop_config : Config :=
  config false (Some dump) (lit "http://demo.test") (lit "demo.test") false
         [noop_rule] [].

Definition noop_primary : Cmd :=
  CmdWpSearchReplace (lit "staging") (lit "staging") (lit "/srv/demo") [] [] [].

(** C2. A user-supplied rule whose search value equals its replace
    value is executed.  With the base-URL and bare-domain rules both
    no-ops and one additional rule replacing [staging] by [staging], the
    stage runs the primary command for that rule; when that command
    fails it also runs the raw fallback for it, whose statements on the
    tables of the database are executed. *)
Theorem noop_additional_rule_is_executed :
  let up := started (world_with [] [] 1 nothing_down) in
  let down := started (world_with [] [] 1 wp_search_replace_down) in
  let client := raw_client noop_config site in
  commands (emitted (performSearchReplace env noop_config up)) = [noop_primary] /\
  succeeded (emitted (performSearchReplace env noop_config up)) = [noop_primary] /\
  List.length (commands (emitted (performSearchReplace env noop_config down))) = 9 /\
  succeeded (emitted (performSearchReplace env noop_config down)) =
    [ CmdMysql client (Execute SqlShowTables);
      CmdMysql client
        (Execute (SqlUpdateOptionValue (lit "wp_options") (lit "staging") (lit "staging")));
      CmdMysql client
        (Execute (SqlUpdateColumn (lit "wp_posts") (lit "post_content")
                                  (lit "staging") (lit "staging")));
      CmdMysql client
        (Execute (SqlUpdateColumn (lit "wp_posts") (lit "post_excerpt")
                                  (lit "staging") (lit "staging")));
      CmdMysql client
        (Execute (SqlUpdateColumn (lit "wp_posts") (lit "post_title")
                                  (lit "staging") (lit "staging"))) ].
Proof. vm_compute. repeat split. Qed.

(** The two guarded rules, for comparison: with no additional rule and
    both guards closed, the stage executes nothing. *)
Example guarded_rules_are_skipped :
  emitted (performSearchReplace env
             (config false (Some dump) (lit "http://demo.test") (lit "demo.test")
                     false [] [])
             (started (world_with [] [] 1 nothing_down))) = [].
Proof. reflexivity. Qed.

(** *** The credential of each stage *)

(** The stages of [run] from provisioning on, when a dump is configured. *)
Definition pipeline (cfg : Config) : M World.T unit :=
  createDatabase env cfg ;;
  updateWpConfig env cfg ;;
  importDatabase env cfg ;;
  performSearchReplace env cfg ;;
  manageAdminUser env cfg.

(** The user and the password parameter of a client command. *)
Definition credentials (c : Cmd) : list (jsstring * jsstring) :=
  match c with
  | CmdMysql client _ => [(mc_user client, mc_passwordParam client)]
  | _ => []
  end.

Definition dedicated_config : Config :=
  config true (Some dump) (lit "http://example.com") (lit "example.com") false [] [].

(** The same with the root credential only, and with dry-run on. *)
Definition reconcile_config : Config :=
  config false (Some dump) (lit "http://example.com") (lit "example.com") false [] [].

Definition dry_run_config : Config :=
  config false (Some dump) (lit "http://example.com") (lit "example.com") true [] [].

Definition scoped : jsstring * jsstring := (lit "wp_demo", lit "-pdkryFMT07%dkryFM").
Definition mixed : jsstring * jsstring := (lit "wp_demo", lit "-prootpw").

(** The configuration file the primary strategy reads its credential from. *)
Definition written_config (w : World.T) : jsstring :=
  match lookup (lit "/srv/demo/wp-config.php") (files w) with
  | Some text => text
  | None => []
  end.

(** C3. The raw search-replace strategy does not use the scoped
    password.  With dedicated-user mode on and the primary strategy
    failing, provisioning generates the user [wp_demo] with its
    password; the patched configuration file, the import, optimize and
    repair commands and the four commands of the reconciliation stage
    carry both; the sixteen commands of the raw strategy pass the scoped
    user name with the root password. *)
Theorem raw_fallback_uses_root_password :
  let o := pipeline dedicated_config (started (world_with [] [] 1 wp_search_replace_down)) in
  result o = Return tt /\
  dbUser (this (final o)) = Some (lit "wp_demo") /\
  dbPassword (this (final o)) = Some (lit "dkryFMT07%dkryFM") /\
  db_password (database dedicated_config) = lit "rootpw" /\
  includes (written_config (world (final o)))
           (lit "define( 'DB_USER', 'wp_demo' )") = true /\
  includes (written_config (world (final o)))
           (lit "define( 'DB_PASSWORD', 'dkryFMT07%dkryFM' )") = true /\
  flat_map credentials (commands (emitted o)) =
    repeat scoped 3 ++ repeat mixed 16 ++ repeat scoped 4.
Proof. vm_compute. repeat split. Qed.

(** The texts of three of these commands, as [execSync] receives them. *)
Example check_command_text :
  Render.render (check_command reconcile_config site) =
  lit "mysql -hlocalhost -uroot -prootpw -P3306 wp_demo -e " ++ dq ++
  lit "SELECT COUNT(*) as count FROM wp_users WHERE user_login = 'admin'" ++ dq.
Proof. reflexivity. Qed.

Example raw_update_text :
  Render.render (update_option_value reconcile_config site (lit "wp_options")
                   (lit "http://example.com") (lit "http://demo.test")) =
  lit "mysql -hlocalhost -uroot -prootpw -P3306 wp_demo -e " ++ dq ++
  lit "UPDATE " ++ bslash ++ lit "`wp_options" ++ bslash ++
  lit "` SET option_value = REPLACE(option_value, 'http://example.com', 'http://demo.test') WHERE option_value LIKE '%http://example.com%'" ++ dq.
Proof. reflexivity. Qed.

Example primary_command_text :
  Render.render (wp_search_replace dry_run_config site
                   (lit "http://example.com") (lit "http://demo.test")) =
  lit "wp search-replace " ++ dq ++ lit "http://example.com" ++ dq ++ lit " " ++
  dq ++ lit "http://demo.test" ++ dq ++ lit " --path=" ++ dq ++ lit "/srv/demo" ++ dq ++
  lit " --all-tables --dry-run  ".
Proof. reflexivity. Qed.

(** *** Reconciliation *)

Definition existing (n : N) : UserRow :=
  {| ID := n; user_login := lit "admin"; user_pass := lit "old-hash";
     user_email := lit "someone@example.com";
     user_registered := lit "2020-01-01 00:00:00" |}.



(** Two rows with the login stay two rows. *)
Example reconciliation_keeps_duplicates :
  let o := manageAdminUser env reconcile_config
             (started (world_with [existing 1; existing 2] [] 1 nothing_down)) in
  result o = Return tt /\
  users (world (final o)) = [set_pass [] (existing 1); set_pass [] (existing 2)].
Proof. vm_compute. repeat split. Qed.

(** A new account is stored without the hash as well. *)
Example created_account_stores_no_hash :
  let o := manageAdminUser env reconcile_config
             (started (world_with [] [] 1 nothing_down)) in
  result o = Return tt /\
  map user_pass (users (world (final o))) = [[]].
Proof. vm_compute. repeat split. Qed.

(** The hash of the fallback, the prefix and a digest of letters and
    digits, is two references as well: with neither parameter set the
    client receives nothing of it. *)
Example fallback_hash_is_dropped digest :
  forallb Shell.name_char digest = true ->
  Shell.expand [] (lit "$P$B" ++ digest) = [].
Proof.
  intros H. change (Shell.in_name [] digest (lit "B") = []).
  generalize (lit "B"). induction digest as [|c d IH]; intros name; [reflexivity|].
  cbn [forallb] in H. apply andb_prop in H. destruct H as [Hc Hd].
  cbn [Shell.in_name]. rewrite Hc. apply IH, Hd.
Qed.

Definition count_query_down (c : Cmd) : bool :=
  match c with
  | CmdMysql _ (Execute (SqlCountUsers _ _)) => true
  | _ => false
  end.

(** A failed existence query on an account that exists adds a second row. *)
Example failed_check_duplicates_account :
  let o := manageAdminUser env reconcile_config
             (started (world_with [existing 1] [] 1 count_query_down)) in
  result o = Return tt /\
  map ID (matching (lit "admin") (users (world (final o)))) = [1%N; 7%N].
Proof. vm_compute. repeat split. Qed.

(** Without a dump the stage does nothing. *)
Example no_dump_no_reconciliation :
  let o := manageAdminUser env
             (config false None (lit "http://example.com") (lit "example.com") false [] [])
             (started (world_with [] [] 1 nothing_down)) in
  result o = Return tt /\ emitted o = [] /\ users (world (final o)) = [].
Proof. vm_compute. repeat split. Qed.

(** *** The general theorems at concrete inputs *)

Definition nowhere : State unit := {| this := site; world := tt |}.

(** C4 at a server that never answers. *)
Lemma waitForMysql_readiness_bound_witness :
  result (waitForMysql dead reconcile_config maxAttempts_default nowhere)
    = Throw timeout_error /\
  List.length (commands (emitted (waitForMysql dead reconcile_config
                                    maxAttempts_default nowhere))) = 30 /\
  slept (emitted (waitForMysql dead reconcile_config maxAttempts_default nowhere))
    = 60000%N.
Proof.
  exact (proj2 (waitForMysql_readiness_bound dead reconcile_config nowhere)
               (fun w => eq_refl)).
Defined.




Example verification_without_row_throws :
  let o := createDatabase env dedicated_config
             (started (world_with [] [] 0 nothing_down)) in
  result o = Throw (failed_to_create site) /\
  map fst (statements (emitted o)) =
    [ drop_database_sql site; create_database_sql dedicated_config site;
      show_databases_sql site ] /\
  dbPassword (this (final o)) = None.
Proof. vm_compute. repeat split. Qed.

(** C7 with the remote generator unreachable. *)
Lemma generateSalts_fallback_shape_witness :
  exists keys,
    result (generateSalts env (started (world_with [] [] 1 nothing_down))) =
      Return (fallback_block (map assignment_head salt_names) keys) /\
    List.length keys = 8 /\
    Forall key_ok keys /\
    List.length salt_chars = 72.
Proof.
  apply (@generateSalts_fallback_shape World.T env).
  - intros n w Hn. cbn. apply Nat.mod_upper_bound. lia.
  - reflexivity.
Defined.

(** C8 with the client down. *)
Lemma checkAdminUserExists_fail_open_witness :
  result (checkAdminUserExists env reconcile_config
            (started (world_with [existing 1] [] 1 everything_down)))
  = Return false.
Proof.
  exact (proj1 (@checkAdminUserExists_fail_open World.T env reconcile_config
                  (started (world_with [existing 1] [] 1 everything_down))
                  eq_refl)).
Defined.

(** C9 with dry-run on and the primary tool down. *)
Lemma raw_fallback_ignores_dry_run_witness :
  In (update_option_value dry_run_config site (lit "wp_options")
        (lit "http://example.com") (lit "http://demo.test"))
     (succeeded (emitted
        (replace_with_fallback env dry_run_config site
           (lit "http://example.com") (lit "http://demo.test")
           (started (world_with [] [] 1 wp_search_replace_down))))) /\
  In (update_option_value dry_run_config site (lit "wp_options")
        (lit "http://example.com") (lit "http://demo.test"))
     (commands (emitted
        (replace_with_fallback env dry_run_config site
           (lit "http://example.com") (lit "http://demo.test")
           (started (world_with [] [] 1 wp_search_replace_down))))).
Proof.
  split; [vm_compute; auto|].
  set (w := world_with [] [] 1 wp_search_replace_down).
  destruct (@raw_fallback_ignores_dry_run World.T env dry_run_config (started w)
              (lit "http://example.com") (lit "http://demo.test")
              w (print_rows (lit "Tables_in_wp_demo") (map fst schema)) w)
    as (_ & _ & H & _).
  - reflexivity.
  - vm_compute. reflexivity.
  - vm_compute. reflexivity.
  - apply H. vm_compute. auto.
Defined.

(** C10 with everything down. *)
Lemma raw_fallback_never_propagates_witness :
  result (performSearchReplace dead reconcile_config nowhere) = Return tt /\
  succeeded (emitted (performSearchReplace dead reconcile_config nowhere)) = [].
Proof.
  destruct (@raw_fallback_never_propagates unit dead reconcile_config
              (lit "http://example.com") (lit "http://demo.test") nowhere)
    as (_ & H2 & H3).
  split; [exact H2|]. apply H3. intros c io w. reflexivity.
Defined.


End Scenario.

(* ================================================================== *)
(** ** The import stage                                                *)
(* ================================================================== *)

Section ImportStage.

Variable W : Type.
Variable env : Env W.

Definition import_command (cfg : Config) (t : This) (source : jsstring) : Cmd :=
  CmdMysql (stage_client cfg t) (InputFile (env_resolve env source)).

Definition optimize_command (cfg : Config) (t : This) : Cmd :=
  CmdMysql (stage_client cfg t) (Execute SqlOptimizeTables).

Definition repair_command (cfg : Config) (t : This) : Cmd :=
  CmdMysql (stage_client cfg t) (Execute SqlRepairTables).

(** What a complete import runs, in order. *)
Definition import_plan (cfg : Config) (t : This) (source : jsstring) : list Cmd :=
  import_command cfg t source ::
  (if sql_optimizeAfterImport (sql cfg) then [optimize_command cfg t] else []) ++
  (if sql_repairAfterImport (sql cfg) then [repair_command cfg t] else []).

Definition dump_not_found (source : jsstring) : Error :=
  ErrMessage (lit "SQL file not found: " ++ env_resolve env source).

(** A command run when configured: what it leaves. *)
Lemma when_exec_cases (cond : bool) c io s :
  exists r w,
    when cond (execSync env c io ;; ret tt) s =
    {| result := if cond
                 then match r with
                      | Some _ => Return tt
                      | None => Throw (ErrExec c)
                      end
                 else Return tt;
       final := {| this := this s; world := w |};
       emitted := if cond then [EvExec c io r] else [] |}.
Proof.
  destruct cond; cbn [when].
  - destruct (env_exec env c io (world s)) as [r w] eqn:E. exists r, w.
    unfold bind. rewrite (execSync_eq _ _ _ s E). destruct r; reflexivity.
  - exists None, (world s). cbn. destruct s; reflexivity.
Qed.

(** X1. The import stage checks the dump, then runs its plan in order
    and stops at the first failure.  With a dump configured, the stage
    first asks whether the resolved file exists.  When it does not, the
    stage throws the error that names the file and no command is
    executed.  When it does, the commands executed are the import of
    the dump, then the optimize command and the repair command when
    configured, each with the credentials of the stage: when the stage
    returns, every command of the plan ran to completion; when it
    throws, the error is the one of the command that failed, every
    command before it ran to completion and none after it was executed:
    a failing optimize or repair is not best effort.  The instance
    fields are left as they were. *)
Theorem importDatabase_stops_at_first_failure cfg s source :
  sql_source (sql cfg) = Some source ->
  truthy source = true ->
  let o := importDatabase env cfg s in
  let plan := import_plan cfg (this s) source in
  let sqlPath := env_resolve env source in
  this (final o) = this s /\
  if fst (env_pathExists env sqlPath (world s))
  then
    List.hd_error (emitted o) = Some (EvPathExists sqlPath true) /\
    match result o with
    | Return _ =>
        commands (emitted o) = plan /\ succeeded (emitted o) = plan
    | Throw e =>
        exists before after c,
          plan = before ++ c :: after /\ e = ErrExec c /\
          succeeded (emitted o) = before /\
          commands (emitted o) = before ++ [c]
    end
  else
    result o = Throw (dump_not_found source) /\
    emitted o = [EvPathExists sqlPath false].
Proof.
  intros Hsrc Htruthy o plan sqlPath. subst o plan sqlPath.
  unfold importDatabase, import_plan. rewrite Hsrc, Htruthy. cbn [negb].
  set (path := env_resolve env source).
  destruct (env_pathExists env path (world s)) as [b w0] eqn:Ep.
  assert (H0 : pathExists env path s =
               {| result := Return b; final := {| this := this s; world := w0 |};
                  emitted := [EvPathExists path b] |}).
  { unfold pathExists, call. rewrite Ep. reflexivity. }
  rewrite (bind_return _ _ s (a := b)) by (rewrite H0; reflexivity).
  rewrite H0. cbn [result final emitted fst].
  destruct b; cbn [negb].
  2:{ cbn [throw result final emitted this app]. repeat split. }
  set (s0 := {| this := this s; world := w0 |}).
  rewrite bind_get_this. cbn [this s0].
  change (mysql_client cfg (this s)
            (or_else (dbUser (this s)) (db_user (database cfg)))
            (passwordParam (or_else (dbPassword (this s)) (db_password (database cfg)))))
    with (stage_client cfg (this s)).
  fold path.
  change (CmdMysql (stage_client cfg (this s)) (InputFile path))
    with (import_command cfg (this s) source).
  fold (optimize_command cfg (this s)) (repair_command cfg (this s)).
  set (import := import_command cfg (this s) source).
  set (optimize := optimize_command cfg (this s)).
  set (repair := repair_command cfg (this s)).
  cbn [app List.hd_error].
  (* the import *)
  destruct (env_exec env import (stdio_of cfg) (world s0)) as [r1 w1] eqn:E1.
  pose proof (execSync_eq _ _ _ s0 E1) as X1.
  destruct r1 as [out1|].
  2:{ rewrite (bind_throw _ _ s0 (e := ErrExec import)) by (rewrite X1; reflexivity).
      rewrite X1. cbn [result final emitted this app commands succeeded].
      split; [reflexivity|]. split; [reflexivity|].
      exists [], ((if sql_optimizeAfterImport (sql cfg) then [optimize] else []) ++
                  (if sql_repairAfterImport (sql cfg) then [repair] else [])), import.
      repeat split. }
  rewrite (bind_return _ _ s0 (a := out1)) by (rewrite X1; reflexivity).
  rewrite X1. cbn [result final emitted this s0].
  set (s1 := {| this := this s; world := w1 |}).
  (* optimize, then repair *)
  destruct (when_exec_cases (sql_optimizeAfterImport (sql cfg)) optimize Pipe s1)
    as (r2 & w2 & X2).
  set (s2 := {| this := this s; world := w2 |}).
  destruct (when_exec_cases (sql_repairAfterImport (sql cfg)) repair Pipe s2)
    as (r3 & w3 & X3).
  destruct (sql_optimizeAfterImport (sql cfg)); [destruct r2 as [out2|]|].
  - rewrite (bind_return _ _ s1 (a := tt)) by (rewrite X2; reflexivity).
    rewrite X2. cbn [result final emitted this s1]. fold s2. rewrite X3.
    cbn [result final emitted this]. split; [reflexivity|]. split; [reflexivity|].
    destruct (sql_repairAfterImport (sql cfg)); [destruct r3 as [out3|]|];
      cbn [app commands succeeded].
    + split; reflexivity.
    + exists [import; optimize], [], repair. repeat split.
    + split; reflexivity.
  - rewrite (bind_throw _ _ s1 (e := ErrExec optimize)) by (rewrite X2; reflexivity).
    rewrite X2. cbn [result final emitted this app commands succeeded].
    split; [reflexivity|]. split; [reflexivity|].
    exists [import], (if sql_repairAfterImport (sql cfg) then [repair] else []), optimize.
    repeat split.
  - rewrite (bind_return _ _ s1 (a := tt)) by (rewrite X2; reflexivity).
    rewrite X2. cbn [result final emitted this s1]. fold s2. rewrite X3.
    cbn [result final emitted this]. split; [reflexivity|]. split; [reflexivity|].
    destruct (sql_repairAfterImport (sql cfg)); [destruct r3 as [out3|]|];
      cbn [app commands succeeded].
    + split; reflexivity.
    + exists [import], [], repair. repeat split.
    + split; reflexivity.
Qed.

End ImportStage.

(* ================================================================== *)
(** ** The container, once more                                     *)
(* ================================================================== *)

Section Container.

Variable W : Type.
Variable env : Env W.

Definition ps_all (cfg : Config) : Cmd :=
  CmdDockerPsAll (dk_containerName (db_docker (database cfg))).

Definition ps_running (cfg : Config) : Cmd :=
  CmdDockerPs (dk_containerName (db_docker (database cfg))).

Definition docker_start (cfg : Config) : Cmd :=
  CmdDockerStart (dk_containerName (db_docker (database cfg))).

Definition volume_create (cfg : Config) : Cmd :=
  CmdDockerVolumeCreate (dk_dataVolume (db_docker (database cfg))).

Definition docker_run (cfg : Config) : Cmd :=
  let dockerConfig := db_docker (database cfg) in
  CmdDockerRun (dk_containerName dockerConfig)
    (if truthy (dk_rootPassword dockerConfig)
     then dk_rootPassword dockerConfig
     else db_password (database cfg))
    (dk_port dockerConfig) (dk_dataVolume dockerConfig)
    (dk_network dockerConfig) (dk_image dockerConfig).

Definition create_or_start_failed (cfg : Config) : Error :=
  ErrWrapped (lit "Failed to create or start MySQL container: ")
             (ErrExec (docker_run cfg)).

(** The events that are not a creation of a volume or of a container. *)
Definition no_create (e : Event) : bool :=
  match e with
  | EvExec (CmdDockerRun _ _ _ _ _ _) _ _ => false
  | EvExec (CmdDockerVolumeCreate _) _ _ => false
  | _ => true
  end.

Lemma waitForMysql_no_create cfg n : emits_only no_create (waitForMysql env cfg n).
Proof.
  induction n as [|n IH]; cbn [waitForMysql].
  - apply emits_only_throw.
  - apply emits_only_bind.
    + apply emits_only_try_catch.
      * apply emits_only_bind; [apply emits_only_execSync; reflexivity|].
        intros; apply emits_only_ret.
      * intros _. apply emits_only_bind; [apply emits_only_sleep; reflexivity|].
        intros; apply emits_only_ret.
    + intros [|]; [apply emits_only_ret | exact IH].
Qed.

(** The two queries of [ensureDockerMysql]: a failure reads as no name. *)
Lemma container_query c s r w :
  env_exec env c Pipe (world s) = (r, w) ->
  try_catch (out <- execSync env c Pipe ;; ret (trim out)) (fun _ => ret []) s =
  {| result := Return (match r with Some out => trim out | None => [] end);
     final := {| this := this s; world := w |};
     emitted := [EvExec c Pipe r] |}.
Proof.
  intros H. unfold try_catch, bind. rewrite (execSync_eq _ _ _ s H).
  destruct r; reflexivity.
Qed.

(** X2. An existing container is never created again, and a running one
    is left alone.  In Docker mode, when the query for the container by
    name prints a name, the stage creates neither a volume nor a
    container, whatever happens next; when the query for the running
    container prints a name too, these two queries are all the stage
    does: it returns without a start and without a readiness poll. *)
Theorem ensureDockerMysql_existing_container cfg s out1 w1 :
  dk_enabled (db_docker (database cfg)) = true ->
  env_exec env (ps_all cfg) Pipe (world s) = (Some out1, w1) ->
  truthy (trim out1) = true ->
  let o := ensureDockerMysql env cfg s in
  forallb no_create (emitted o) = true /\
  (forall out2 w2,
      env_exec env (ps_running cfg) Pipe w1 = (Some out2, w2) ->
      truthy (trim out2) = true ->
      o = {| result := Return tt;
             final := {| this := this s; world := w2 |};
             emitted := [ EvExec (ps_all cfg) Pipe (Some out1);
                          EvExec (ps_running cfg) Pipe (Some out2) ] |}).
Proof.
  intros Hen Hps Hname o. subst o. unfold ensureDockerMysql.
  rewrite Hen. cbn [negb].
  fold (ps_all cfg) (ps_running cfg) (docker_start cfg).
  pose proof (container_query _ s Hps) as Hq.
  rewrite (bind_return _ _ s (a := trim out1)) by (rewrite Hq; reflexivity).
  rewrite Hq. cbn [result final emitted]. rewrite Hname. cbn [negb].
  set (s1 := {| this := this s; world := w1 |}).
  split.
  - cbn [forallb no_create ps_all app andb].
    apply (@emits_only_bind W _ _ no_create).
    + apply emits_only_try_catch; [|intros; apply emits_only_ret].
      apply emits_only_bind; [apply emits_only_execSync; reflexivity|].
      intros; apply emits_only_ret.
    + intros y. apply emits_only_when.
      apply emits_only_bind; [apply emits_only_execSync; reflexivity|].
      intros _. apply waitForMysql_no_create.
  - intros out2 w2 Hrun Hup.
    pose proof (container_query _ s1 Hrun) as Hq2.
    rewrite (bind_return _ _ s1 (a := trim out2)) by (rewrite Hq2; reflexivity).
    rewrite Hq2. cbn [result final emitted]. rewrite Hup. reflexivity.
Qed.

(** X3. A container that exists but is not running is started, then
    polled.  When the query for the running container prints nothing or
    fails, the start command is executed; when it is answered, the stage
    goes on with the readiness poll and ends as the poll ends; when it
    fails, the error of the start command propagates and nothing is
    polled. *)
Theorem ensureDockerMysql_stopped_container cfg s out1 w1 r2 w2 r3 w3 :
  dk_enabled (db_docker (database cfg)) = true ->
  env_exec env (ps_all cfg) Pipe (world s) = (Some out1, w1) ->
  truthy (trim out1) = true ->
  env_exec env (ps_running cfg) Pipe w1 = (r2, w2) ->
  truthy (match r2 with Some out => trim out | None => [] end) = false ->
  env_exec env (docker_start cfg) Pipe w2 = (r3, w3) ->
  let o := ensureDockerMysql env cfg s in
  let poll := waitForMysql env cfg maxAttempts_default {| this := this s; world := w3 |} in
  match r3 with
  | None =>
      result o = Throw (ErrExec (docker_start cfg)) /\
      commands (emitted o) = [ps_all cfg; ps_running cfg; docker_start cfg]
  | Some _ =>
      result o = result poll /\
      commands (emitted o) =
        [ps_all cfg; ps_running cfg; docker_start cfg] ++ commands (emitted poll)
  end.
Proof.
  intros Hen Hps Hname Hrun Hdown Hstart o poll. subst o poll.
  unfold ensureDockerMysql. rewrite Hen. cbn [negb].
  fold (ps_all cfg) (ps_running cfg) (docker_start cfg).
  pose proof (container_query _ s Hps) as Hq.
  rewrite (bind_return _ _ s (a := trim out1)) by (rewrite Hq; reflexivity).
  rewrite Hq. cbn [result final emitted]. rewrite Hname. cbn [negb].
  set (s1 := {| this := this s; world := w1 |}).
  pose proof (container_query _ s1 Hrun) as Hq2.
  rewrite (bind_return _ _ s1 (a := match r2 with Some out => trim out | None => [] end))
    by (rewrite Hq2; reflexivity).
  rewrite Hq2. cbn [result final emitted]. rewrite Hdown. cbn [negb when].
  set (s2 := {| this := this s1; world := w2 |}).
  pose proof (execSync_eq _ _ _ s2 Hstart) as Hs.
  destruct r3 as [out3|].
  - rewrite (bind_return _ _ s2 (a := out3)) by (rewrite Hs; reflexivity).
    rewrite Hs. cbn [result final emitted this world s2 s1 app commands].
    split; reflexivity.
  - rewrite (bind_throw _ _ s2 (e := ErrExec (docker_start cfg)))
      by (rewrite Hs; reflexivity).
    rewrite Hs. cbn [result final emitted this world app commands].
    split; reflexivity.
Qed.

(** X4. Creation falls back to a start.  Whatever the creation of the
    volume answers, the run command follows it; when the run command
    fails, the start command is tried: when it is answered, the stage
    goes on with the readiness poll; when it fails too, the stage throws
    an error that wraps the error of the run command, and nothing is
    polled. *)
Theorem createDockerMysql_falls_back_to_start cfg s r0 w1 w2 r2 w3 :
  env_exec env (volume_create cfg) Pipe (world s) = (r0, w1) ->
  env_exec env (docker_run cfg) Pipe w1 = (None, w2) ->
  env_exec env (docker_start cfg) Pipe w2 = (r2, w3) ->
  let o := createDockerMysql env cfg s in
  let poll := waitForMysql env cfg maxAttempts_default {| this := this s; world := w3 |} in
  match r2 with
  | None =>
      result o = Throw (create_or_start_failed cfg) /\
      commands (emitted o) = [volume_create cfg; docker_run cfg; docker_start cfg]
  | Some _ =>
      result o = result poll /\
      commands (emitted o) =
        [volume_create cfg; docker_run cfg; docker_start cfg] ++ commands (emitted poll)
  end.
Proof.
  intros Hvol Hrun Hstart o poll. subst o poll.
  unfold createDockerMysql.
  fold (volume_create cfg) (docker_start cfg).
  change (CmdDockerRun _ _ _ _ _ _) with (docker_run cfg).
  assert (Hv : try_catch (execSync env (volume_create cfg) Pipe ;; ret tt)
                         (fun _ => ret tt) s =
               {| result := Return tt; final := {| this := this s; world := w1 |};
                  emitted := [EvExec (volume_create cfg) Pipe r0] |}).
  { unfold try_catch, bind. rewrite (execSync_eq _ _ _ s Hvol).
    destruct r0; reflexivity. }
  rewrite (bind_return _ _ s (a := tt)) by (rewrite Hv; reflexivity).
  rewrite Hv. cbn [result final emitted].
  set (s1 := {| this := this s; world := w1 |}).
  set (s2 := {| this := this s; world := w2 |}).
  assert (Hr : result ((execSync env (docker_run cfg) Pipe ;; ret tt) s1)
               = Throw (ErrExec (docker_run cfg)) /\
               final ((execSync env (docker_run cfg) Pipe ;; ret tt) s1) = s2 /\
               emitted ((execSync env (docker_run cfg) Pipe ;; ret tt) s1)
               = [EvExec (docker_run cfg) Pipe None]).
  { unfold bind. rewrite (execSync_eq _ _ _ s1 Hrun). repeat split. }
  destruct Hr as (Hr1 & Hr2 & Hr3).
  assert (Hst : (execSync env (docker_start cfg) Pipe ;; ret tt) s2 =
                {| result := match r2 with
                             | Some _ => Return tt
                             | None => Throw (ErrExec (docker_start cfg))
                             end;
                   final := {| this := this s; world := w3 |};
                   emitted := [EvExec (docker_start cfg) Pipe r2] |}).
  { unfold bind. rewrite (execSync_eq _ _ _ s2 Hstart). destruct r2; reflexivity. }
  destruct r2 as [out2|].
  - rewrite (bind_return _ _ s1 (a := tt)).
    2:{ rewrite (try_catch_throw _ _ s1 Hr1), Hr2. cbn [result].
        rewrite (try_catch_return _ _ s2 (a := tt)) by (rewrite Hst; reflexivity).
        rewrite Hst. reflexivity. }
    rewrite (try_catch_throw _ _ s1 Hr1), Hr2, Hr3. cbn [result final emitted].
    rewrite (try_catch_return _ _ s2 (a := tt)) by (rewrite Hst; reflexivity).
    rewrite Hst. cbn [result final emitted app commands]. split; reflexivity.
  - rewrite (bind_throw _ _ s1 (e := create_or_start_failed cfg)).
    2:{ rewrite (try_catch_throw _ _ s1 Hr1), Hr2. cbn [result].
        rewrite (try_catch_throw _ _ s2 (e := ErrExec (docker_start cfg)))
          by (rewrite Hst; reflexivity).
        reflexivity. }
    rewrite (try_catch_throw _ _ s1 Hr1), Hr2, Hr3. cbn [result final emitted].
    rewrite (try_catch_throw _ _ s2 (e := ErrExec (docker_start cfg)))
      by (rewrite Hst; reflexivity).
    rewrite Hst. cbn [result final emitted app commands throw]. split; reflexivity.
Qed.

End Container.

(* ================================================================== *)
(** ** The dedicated user                                           *)
(* ================================================================== *)

Section Credentials.

Variable W : Type.
Variable env : Env W.

Hypothesis random_in_range :
  forall n w, 0 < n -> fst (env_random env n w) < n.

Lemma random_string_container chars n :
  forall acc, container_step (random_string env chars n acc).
Proof.
  induction n as [|n IH]; intros acc; cbn [random_string].
  - split; [apply emits_only_ret | apply keeps_this_ret].
  - split.
    + apply emits_only_bind; [|intros i; apply IH].
      intros s. unfold random_index, call.
      destruct (env_random env (List.length chars) (world s)); reflexivity.
    + apply keeps_this_bind; [|intros i; apply IH].
      intros s. unfold random_index, call.
      destruct (env_random env (List.length chars) (world s)); reflexivity.
Qed.

Lemma connection_end_cases s :
  this (final (connection_end env s)) = this s /\
  statements (emitted (connection_end env s)) = [].
Proof.
  unfold connection_end, call. destruct (env_end env (world s)) as [[|] w]; auto.
Qed.

(** The name of the dedicated user. *)
Definition dedicated_user (cfg : Config) (t : This) : jsstring :=
  db_userPrefix (database cfg) ++ websiteName t.

Definition answered (qr : jsstring * option nat) : bool :=
  match snd qr with Some _ => true | None => false end.

(** X5. Dedicated credentials are stored only once the user is fully
    set up.  When provisioning is not skipped and the random source
    draws indices in range, a run ends in one of two ways.  Either the
    instance fields are as they were, and then a run that returned had
    no dedicated user configured; or a dedicated user is configured,
    the user name stored is the user prefix followed by the website
    name, the password stored has 16 units of the 70-unit alphabet, and
    the statements executed are exactly DROP, CREATE, SHOW, CREATE USER
    with this name and password, GRANT and FLUSH PRIVILEGES, all
    answered.  A failure of CREATE USER, GRANT or FLUSH leaves no
    credentials on the instance. *)
Theorem createDatabase_credentials cfg s :
  adv_skipDatabaseCreation (advanced cfg) = false ->
  let o := createDatabase env cfg s in
  let t := this s in
  let u := dedicated_user cfg t in
  (this (final o) = t /\
   (result o = Return tt -> db_createUser (database cfg) = false))
  \/ exists p,
       db_createUser (database cfg) = true /\
       List.length p = 16 /\
       Forall (fun c => In c password_chars) p /\
       this (final o) = set_credentials t u p /\
       map fst (statements (emitted o)) =
         [ drop_database_sql t; create_database_sql cfg t; show_databases_sql t;
           create_user_sql cfg u p; grant_sql cfg t u; lit "FLUSH PRIVILEGES" ] /\
       forallb answered (statements (emitted o)) = true.
Proof.
  intros Hskip o t u. subst o t u. unfold createDatabase. rewrite Hskip.
  set (docker := when (dk_enabled (db_docker (database cfg))) (ensureDockerMysql env cfg)).
  assert (Hd : container_step docker).
  { destruct (ensureDockerMysql_container env cfg) as [He Hk].
    split; [apply emits_only_when, He | apply keeps_this_when, Hk]. }
  destruct Hd as [Hde Hdk].
  pose proof (off_connection_statements _ (Hde s)) as Hds.
  pose proof (Hdk s) as Hdt.
  destruct (result (docker s)) as [[]|e] eqn:Ed.
  2:{ rewrite (bind_throw _ _ s Ed). cbn [result emitted final].
      left. split; [exact Hdt | discriminate]. }
  rewrite (bind_return _ _ s Ed). cbn [result emitted final].
  set (s1 := final (docker s)) in *.
  rewrite statements_app, Hds. cbn [app].
  set (db := database cfg).
  destruct (createConnection_cases env (db_host db) (db_user db) (db_password db) (db_port db) s1)
    as (Hct & Hcs & [Ec | Ec]).
  2:{ rewrite (bind_throw _ _ s1 Ec). cbn [result emitted final].
      left. split; [congruence | discriminate]. }
  rewrite (bind_return _ _ s1 Ec). cbn [result emitted final].
  set (s2 := final (createConnection env (db_host db) (db_user db) (db_password db) (db_port db) s1)) in *.
  rewrite statements_app, Hcs. cbn [app].
  rewrite bind_get_this.
  assert (Ht : this s2 = this s) by (rewrite Hct; exact Hdt). rewrite Ht.
  (* DROP *)
  destruct (execute_cases env (drop_database_sql (this s)) s2) as (Ht3 & [(n1 & E1 & Em1) | (E1 & Em1)]).
  2:{ rewrite (bind_throw _ _ s2 E1). cbn [result emitted final].
      left. split; [congruence | discriminate]. }
  rewrite (bind_return _ _ s2 E1). cbn [result emitted final]. rewrite Em1.
  set (s3 := final (execute env (drop_database_sql (this s)) s2)) in *.
  (* CREATE *)
  destruct (execute_cases env (create_database_sql cfg (this s)) s3) as (Ht4 & [(n2 & E2 & Em2) | (E2 & Em2)]).
  2:{ rewrite (bind_throw _ _ s3 E2). cbn [result emitted final].
      left. split; [congruence | discriminate]. }
  rewrite (bind_return _ _ s3 E2). cbn [result emitted final]. rewrite Em2.
  set (s4 := final (execute env (create_database_sql cfg (this s)) s3)) in *.
  (* SHOW *)
  destruct (execute_cases env (show_databases_sql (this s)) s4) as (Ht5 & [(n3 & E3 & Em3) | (E3 & Em3)]).
  2:{ rewrite (bind_throw _ _ s4 E3). cbn [result emitted final].
      left. split; [congruence | discriminate]. }
  rewrite (bind_return _ _ s4 E3). cbn [result emitted final]. rewrite Em3.
  set (s5 := final (execute env (show_databases_sql (this s)) s4)) in *.
  assert (Ht' : this s5 = this s) by congruence.
  cbn [app statements].
  destruct n3 as [|n3]; cbn [Nat.eqb].
  { cbn [throw result emitted final]. left. split; [exact Ht' | discriminate]. }
  destruct (db_createUser db) eqn:Ecreate; cbn [when].
  2:{ left. destruct (connection_end_cases s5) as [Hte _].
      rewrite (bind_return _ _ s5 (a := tt)) by reflexivity.
      cbn [ret result emitted final]. split; [congruence | reflexivity]. }
  (* the password *)
  unfold generateRandomPassword.
  assert (Hc : 0 < List.length password_chars) by (vm_compute; lia).
  destruct (@random_string_spec W env random_in_range password_chars 16 Hc [] s5) as (p & Ep & Hlen & Hall).
  cbn [app] in Ep.
  destruct (random_string_container password_chars 16 []) as [Hre Hrk].
  pose proof (off_connection_statements _ (Hre s5)) as Hrs.
  pose proof (Hrk s5) as Hrt.
  set (s6 := final (random_string env password_chars 16 [] s5)) in *.
  set (u := db_userPrefix db ++ websiteName (this s)).
  set (user_part := (dbPassword <- random_string env password_chars 16 [] ;; _)).
  assert (Hcases :
    (this (final (user_part s5)) = this s /\ exists e, result (user_part s5) = Throw e)
    \/ (result (user_part s5) = Return tt /\
        this (final (user_part s5)) = set_credentials (this s) u p /\
        exists m1 m2 m3,
          statements (emitted (user_part s5)) =
            [ (create_user_sql cfg u p, Some m1); (grant_sql cfg (this s) u, Some m2);
              (lit "FLUSH PRIVILEGES", Some m3) ])).
  { subst user_part. rewrite (bind_return _ _ s5 Ep). cbn [result emitted final].
    fold s6. rewrite statements_app, Hrs. cbn [app].
    destruct (execute_cases env (create_user_sql cfg u p) s6)
      as (Hu1 & [(m1 & F1 & Fm1) | (F1 & Fm1)]).
    2:{ rewrite (bind_throw _ _ s6 F1). cbn [result emitted final].
        left. split; [congruence | eauto]. }
    rewrite (bind_return _ _ s6 F1). cbn [result emitted final]. rewrite Fm1.
    set (s7 := final (execute env (create_user_sql cfg u p) s6)) in *.
    destruct (execute_cases env (grant_sql cfg (this s) u) s7)
      as (Hu2 & [(m2 & F2 & Fm2) | (F2 & Fm2)]).
    2:{ rewrite (bind_throw _ _ s7 F2). cbn [result emitted final].
        left. split; [congruence | eauto]. }
    rewrite (bind_return _ _ s7 F2). cbn [result emitted final]. rewrite Fm2.
    set (s8 := final (execute env (grant_sql cfg (this s) u) s7)) in *.
    destruct (execute_cases env (lit "FLUSH PRIVILEGES") s8)
      as (Hu3 & [(m3 & F3 & Fm3) | (F3 & Fm3)]).
    2:{ rewrite (bind_throw _ _ s8 F3). cbn [result emitted final].
        left. split; [congruence | eauto]. }
    rewrite (bind_return _ _ s8 F3). cbn [result emitted final]. rewrite Fm3.
    cbn [put_this result emitted final this app statements].
    right. repeat split. eauto. }
  destruct Hcases as [(Hthis & e & Ethrow) | (Eret & Hthis & m1 & m2 & m3 & Hst)].
  - left. rewrite (bind_throw _ _ s5 Ethrow). cbn [result emitted final].
    split; [exact Hthis | discriminate].
  - right. exists p. rewrite (bind_return _ _ s5 Eret). cbn [result emitted final].
    destruct (connection_end_cases (final (user_part s5))) as [Hte Hse].
    rewrite statements_app, Hst, Hse, Hte, Hthis.
    repeat split; assumption.
Qed.

End Credentials.

(* ================================================================== *)
(** ** The raw strategy, table by table                             *)
(* ================================================================== *)

Section RawShape.

Variable W : Type.
Variable env : Env W.

(** The attempts on the common columns of one table, with their answers. *)
Definition column_attempts (cfg : Config) (t : This) (a b table : jsstring)
           (columns : list jsstring) (answers : list (option jsstring)) : list Event :=
  map (fun ca => EvExec (update_column cfg t table (fst ca) a b) Pipe (snd ca))
      (combine columns answers).

(** What the raw strategy does for one table: the update of
    [option_value] alone when it is answered; when it fails, one attempt
    on each common column after it. *)
Definition table_group (cfg : Config) (t : This) (a b table : jsstring)
           (g : list Event) : Prop :=
  (exists out, g = [EvExec (update_option_value cfg t table a b) Pipe (Some out)]) \/
  (exists answers,
      List.length answers = List.length commonColumns /\
      g = EvExec (update_option_value cfg t table a b) Pipe None ::
          column_attempts cfg t a b table commonColumns answers).

Lemma column_loop cfg t a b table (columns : list jsstring) : forall s,
  exists answers,
    List.length answers = List.length columns /\
    emitted (for_of columns (fun column =>
               try_catch
                 (execSync env (update_column cfg t table column a b) Pipe ;; ret tt)
                 (fun _ => ret tt)) s)
    = column_attempts cfg t a b table columns answers.
Proof.
  induction columns as [|c columns IH]; intros s.
  - exists []. split; reflexivity.
  - cbn [for_of].
    set (body := fun column => try_catch _ _).
    assert (Hb : exists r, result (body c s) = Return tt /\
                           emitted (body c s) =
                             [EvExec (update_column cfg t table c a b) Pipe r]).
    { subst body. cbn beta. unfold try_catch, bind, execSync, call.
      destruct (env_exec env (update_column cfg t table c a b) Pipe (world s))
        as [[out|] w]; cbn; eauto. }
    destruct Hb as (r & Hr & He).
    rewrite (bind_return _ _ s Hr). cbn [emitted]. rewrite He.
    destruct (IH (final (body c s))) as (answers & Hlen & Hem).
    exists (r :: answers). split; [cbn; congruence|].
    fold body in Hem. rewrite Hem. reflexivity.
Qed.

Lemma raw_table_body_group cfg t a b table s :
  table_group cfg t a b table (emitted (raw_table_body env cfg t a b table s)).
Proof.
  unfold raw_table_body.
  set (first := (execSync env (update_option_value cfg t table a b) Pipe ;; ret tt)).
  assert (Hf : (exists out, result (first s) = Return tt /\
                  emitted (first s) =
                    [EvExec (update_option_value cfg t table a b) Pipe (Some out)]) \/
               (exists e, result (first s) = Throw e /\
                  emitted (first s) =
                    [EvExec (update_option_value cfg t table a b) Pipe None])).
  { subst first. unfold bind, execSync, call.
    destruct (env_exec env (update_option_value cfg t table a b) Pipe (world s))
      as [[out|] w]; cbn; eauto. }
  destruct Hf as [(out & Hr & He) | (e & Hr & He)].
  - rewrite (try_catch_return _ _ s Hr), He. left. eauto.
  - rewrite (try_catch_throw _ _ s Hr). cbn [emitted]. rewrite He.
    destruct (column_loop cfg t a b table commonColumns (final (first s)))
      as (answers & Hlen & Hem).
    right. exists answers. split; [exact Hlen|]. rewrite Hem. reflexivity.
Qed.

Lemma raw_tables_groups cfg t a b (tables : list jsstring) : forall s,
  exists groups,
    Forall2 (table_group cfg t a b) tables groups /\
    emitted (for_of tables (raw_table_body env cfg t a b) s) = List.concat groups.
Proof.
  induction tables as [|table tables IH]; intros s.
  - exists []. split; [constructor | reflexivity].
  - cbn [for_of].
    rewrite (bind_return _ _ s (raw_table_body_never_throws env cfg t a b table s)).
    cbn [emitted].
    destruct (IH (final (raw_table_body env cfg t a b table s))) as (groups & HF & Hem).
    exists (emitted (raw_table_body env cfg t a b table s) :: groups).
    split; [constructor; [apply raw_table_body_group | exact HF]|].
    rewrite Hem. reflexivity.
Qed.

(** X6. The shape of the raw strategy.  When the table enumeration
    fails, that failed command is all the strategy does.  When it is
    answered, the strategy handles the listed tables in order: for each
    the update of [option_value], alone when it is answered, and when it
    fails followed by one attempt on each of the five common columns, in
    their order, whatever each attempt answers.  The instance fields are
    left as they were. *)
Theorem performDirectSearchReplace_shape cfg a b s r w1 :
  env_exec env (show_tables cfg (this s)) Pipe (world s) = (r, w1) ->
  let o := performDirectSearchReplace env cfg a b s in
  let listing := EvExec (show_tables cfg (this s)) Pipe r in
  this (final o) = this s /\
  match r with
  | None => emitted o = [listing]
  | Some out =>
      exists groups,
        Forall2 (table_group cfg (this s) a b) (table_lines out) groups /\
        emitted o = listing :: List.concat groups
  end.
Proof.
  intros Hshow o listing. subst o listing.
  rewrite performDirectSearchReplace_unfold.
  pose proof (execSync_eq _ _ _ s Hshow) as Hx.
  split.
  - apply keeps_this_try_catch; [|intros; apply keeps_this_ret].
    apply keeps_this_bind; [apply keeps_this_execSync|]. intros out.
    clear. induction (table_lines out) as [|x l IH]; [apply keeps_this_ret|].
    cbn [for_of]. apply keeps_this_bind; [|intros _; exact IH].
    unfold raw_table_body.
    apply keeps_this_try_catch.
    + apply keeps_this_bind; [apply keeps_this_execSync | intros; apply keeps_this_ret].
    + intros _. induction commonColumns as [|c l' IH']; [apply keeps_this_ret|].
      cbn [for_of]. apply keeps_this_bind; [|intros _; exact IH'].
      apply keeps_this_try_catch; [|intros; apply keeps_this_ret].
      apply keeps_this_bind; [apply keeps_this_execSync | intros; apply keeps_this_ret].
  - destruct r as [out|].
    + set (s1 := {| this := this s; world := w1 |}).
      destruct (raw_tables_groups cfg (this s) a b (table_lines out) s1)
        as (groups & HF & Hem).
      exists groups. split; [exact HF|].
      rewrite try_catch_return with (a := tt).
      * rewrite (bind_return _ _ s (a := out)) by (rewrite Hx; reflexivity).
        rewrite Hx. cbn [result final emitted]. fold s1. rewrite Hem. reflexivity.
      * rewrite (bind_return _ _ s (a := out)) by (rewrite Hx; reflexivity).
        rewrite Hx. cbn [result final]. apply for_of_never_throws.
        apply raw_table_body_never_throws.
    + rewrite (try_catch_throw _ _ s (e := ErrExec (show_tables cfg (this s)))).
      * rewrite (bind_throw _ _ s (e := ErrExec (show_tables cfg (this s))))
          by (rewrite Hx; reflexivity).
        rewrite Hx. reflexivity.
      * rewrite (bind_throw _ _ s (e := ErrExec (show_tables cfg (this s))))
          by (rewrite Hx; reflexivity).
        reflexivity.
Qed.

End RawShape.

(* ================================================================== *)
(** ** The rules of the search-replace stage, in order              *)
(* ================================================================== *)

Section RuleOrder.

Variable W : Type.
Variable env : Env W.

(** The rules the stage runs, in order: the base URL and the bare domain
    unless their two sides are equal, then the additional rules. *)
Definition rules_run (cfg : Config) (t : This) : list (jsstring * jsstring) :=
  (if str_eqb (oldUrl cfg) (newUrl cfg t) then [] else [(oldUrl cfg, newUrl cfg t)]) ++
  (if str_eqb (oldDomain cfg) (newDomain cfg t) then []
   else [(oldDomain cfg, newDomain cfg t)]) ++
  map (fun r => (search r, replace r))
      (sr_additionalReplacements (sql_searchReplace (sql cfg))).

(** The invocations of the primary strategy among the commands. *)
Definition primary_commands (l : list Event) : list Cmd :=
  filter is_wp_search_replace (commands l).

Lemma primary_commands_app l1 l2 :
  primary_commands (l1 ++ l2) = primary_commands l1 ++ primary_commands l2.
Proof. unfold primary_commands. rewrite commands_app, filter_app. reflexivity. Qed.

Lemma replace_with_fallback_primary_command cfg t a b s :
  primary_commands (emitted (replace_with_fallback env cfg t a b s)) =
  [wp_search_replace cfg t a b].
Proof.
  unfold replace_with_fallback, try_catch, bind, execSync, call.
  destruct (env_exec env (wp_search_replace cfg t a b) (stdio_of cfg) (world s))
    as [[out|] w]; cbn [result emitted final ret]; [reflexivity|].
  rewrite primary_commands_app. cbn [app]. 
  change (primary_commands [EvExec (wp_search_replace cfg t a b) (stdio_of cfg) None])
    with [wp_search_replace cfg t a b].
  cbn [app]. f_equal. apply length_zero_iff_nil.
  apply (mysql_only_no_primary _ (performDirectSearchReplace_mysql_only env cfg a b _)).
Qed.

Lemma for_of_rules_primary_commands cfg t (rules : list Replacement) : forall s,
  primary_commands
    (emitted (for_of rules
                (fun r => replace_with_fallback env cfg t (search r) (replace r)) s))
  = map (fun r => wp_search_replace cfg t (search r) (replace r)) rules.
Proof.
  induction rules as [|r rules IH]; intros s; [reflexivity|].
  cbn [for_of]. unfold bind.
  rewrite (replace_with_fallback_never_throws env cfg t (search r) (replace r) s).
  cbn [emitted]. rewrite primary_commands_app, replace_with_fallback_primary_command, IH.
  reflexivity.
Qed.

(** X7. The order of the rules.  When the stage is neither skipped nor
    disabled, the primary strategy is invoked exactly once for each rule
    that is run, in this order: the base URL rule and the bare domain
    rule, each unless its two sides are equal, then the additional
    rules in configuration order; every invocation carries the flags of
    the configuration.  The commands of the raw fallback come between
    them and are none of these. *)
Theorem performSearchReplace_rule_order cfg s :
  adv_skipSearchReplace (advanced cfg) = false ->
  sr_enabled (sql_searchReplace (sql cfg)) = true ->
  primary_commands (emitted (performSearchReplace env cfg s)) =
  map (fun ab => wp_search_replace cfg (this s) (fst ab) (snd ab))
      (rules_run cfg (this s)).
Proof.
  intros Hskip Hen. unfold performSearchReplace. rewrite Hskip, Hen.
  cbn [negb]. unfold bind at 1. cbn [get_this result final emitted app].
  fold (oldUrl cfg) (newUrl cfg (this s)) (oldDomain cfg) (newDomain cfg (this s)).
  unfold bind at 1.
  rewrite (when_never_throws (negb (str_eqb (oldUrl cfg) (newUrl cfg (this s))))
             (replace_with_fallback_never_throws env cfg (this s) _ _) s).
  cbn [emitted]. rewrite primary_commands_app.
  unfold bind at 1.
  rewrite (when_never_throws (negb (str_eqb (oldDomain cfg) (newDomain cfg (this s))))
             (replace_with_fallback_never_throws env cfg (this s) _ _) _).
  cbn [emitted]. rewrite primary_commands_app, for_of_rules_primary_commands.
  unfold rules_run, when. rewrite !map_app, map_map. cbn [fst snd].
  destruct (str_eqb (oldUrl cfg) (newUrl cfg (this s)));
    destruct (str_eqb (oldDomain cfg) (newDomain cfg (this s)));
    cbn [negb]; rewrite ?replace_with_fallback_primary_command; reflexivity.
Qed.

End RuleOrder.

(* ================================================================== *)
(** ** The account and its capabilities                             *)
(* ================================================================== *)

Section AccountCreation.

Variable W : Type.
Variable env : Env W.

Definition grants_capabilities (c : Cmd) : bool :=
  match c with
  | CmdMysql _ (Execute (SqlInsertCapabilities _ _)) => true
  | _ => false
  end.

(** The user ID the stage reads from the output of the lookup. *)
Definition userId_of (userIdOutput : jsstring) : jsstring :=
  match data_lines (lit "ID") userIdOutput with
  | first :: _ => trim first
  | [] => []
  end.

Lemma toISOString_returns s :
  exists iso w,
    toISOString env s =
    {| result := Return iso; final := {| this := this s; world := w |};
       emitted := [EvNow iso] |}.
Proof.
  unfold toISOString, call. destruct (env_now env (world s)) as [iso w]. eauto.
Qed.

(** The hash [hashWordPressPassword] makes of the answer of the tool. *)
Definition hash_of (password : jsstring) (answer : option jsstring) : jsstring :=
  match answer with
  | Some out => trim out
  | None => lit "$P$B" ++ env_md5hex env password
  end.

(** The INSERT of the account, for a hash and a time. *)
Definition account_command (cfg : Config) (t : This) (hash iso : jsstring) : Cmd :=
  CmdMysql (stage_client cfg t)
    (Execute (SqlInsertUser (db_prefix (database cfg)) (wp_adminUser (wordpress cfg))
                            hash (adminEmail t)
                            (replace_str (slice0 iso 19) (lit "T") (lit " ")))).

Lemma hashWordPressPassword_hash_of password s :
  exists answer w,
    hashWordPressPassword env password s =
    {| result := Return (hash_of password answer);
       final := {| this := this s; world := w |};
       emitted := [EvExec (CmdWpEvalHash password (websitePath (this s))) Pipe answer] |}.
Proof.
  unfold hashWordPressPassword, try_catch. rewrite bind_get_this. unfold bind.
  destruct (env_exec env (CmdWpEvalHash password (websitePath (this s))) Pipe (world s))
    as [r w] eqn:E.
  exists r, w. rewrite (execSync_eq _ _ _ s E). destruct r as [out|]; reflexivity.
Qed.

(** X8. The capabilities need an ID.  [createAdminUser] hashes the
    password, reads the time and runs the INSERT of the account; when
    that fails it throws its error.  Otherwise it looks the user ID up,
    and throws when the lookup fails.  When the first data line of the
    answer, trimmed, is not empty, it grants the administrator
    capabilities to that ID, once, and returns or throws as that
    command does.  When the lookup prints no such line, nothing more is
    run and the stage returns normally: the account stays inserted
    without capabilities. *)
Theorem createAdminUser_capabilities_need_an_id cfg s :
  let o := createAdminUser env cfg s in
  let t := this s in
  exists answer iso inserted,
    let insert := account_command cfg t (hash_of (adminPassword t) answer) iso in
    let select := select_command cfg t in
    let start :=
      [ EvExec (CmdWpEvalHash (adminPassword t) (websitePath t)) Pipe answer;
        EvNow iso;
        EvExec insert (stdio_of cfg) inserted ] in
    match inserted with
    | None => result o = Throw (ErrExec insert) /\ emitted o = start
    | Some _ =>
        exists looked_up,
          match looked_up with
          | None =>
              result o = Throw (ErrExec select) /\
              emitted o = start ++ [EvExec select Pipe None]
          | Some out =>
              if truthy (userId_of out)
              then
                exists granted,
                  let caps := capabilities_command cfg t (userId_of out) in
                  emitted o = start ++ [ EvExec select Pipe (Some out);
                                         EvExec caps (stdio_of cfg) granted ] /\
                  result o = match granted with
                             | Some _ => Return tt
                             | None => Throw (ErrExec caps)
                             end
              else
                result o = Return tt /\
                emitted o = start ++ [EvExec select Pipe (Some out)]
          end
    end.
Proof.
  intros o t. subst o t. unfold createAdminUser. rewrite bind_get_this.
  change (CmdMysql _ (Execute (SqlSelectUserId _ _))) with (select_command cfg (this s)).
  destruct (hashWordPressPassword_hash_of (adminPassword (this s)) s)
    as (answer & w0 & Eh).
  rewrite (bind_return _ _ s (a := hash_of (adminPassword (this s)) answer))
    by (rewrite Eh; reflexivity).
  rewrite Eh. cbn [result final emitted].
  set (s0 := {| this := this s; world := w0 |}).
  destruct (toISOString_returns s0) as (iso & w1 & En).
  rewrite (bind_return _ _ s0 (a := iso)) by (rewrite En; reflexivity).
  rewrite En. cbn [result final emitted this s0].
  set (s1 := {| this := this s; world := w1 |}).
  change (CmdMysql (stage_client cfg (this s)) (Execute (SqlInsertUser _ _ _ _ _)))
    with (account_command cfg (this s) (hash_of (adminPassword (this s)) answer) iso).
  set (insert := account_command cfg (this s) (hash_of (adminPassword (this s)) answer) iso).
  destruct (env_exec env insert (stdio_of cfg) (world s1)) as [r1 w2] eqn:E1.
  pose proof (execSync_eq _ _ _ s1 E1) as X1.
  exists answer, iso, r1. cbv zeta. fold insert.
  destruct r1 as [o1|].
  2:{ rewrite (bind_throw _ _ s1 (e := ErrExec insert)) by (rewrite X1; reflexivity).
      rewrite X1. cbn [result emitted app]. split; reflexivity. }
  rewrite (bind_return _ _ s1 (a := o1)) by (rewrite X1; reflexivity).
  rewrite X1. cbn [result final emitted this s1].
  set (s2 := {| this := this s; world := w2 |}).
  destruct (env_exec env (select_command cfg (this s)) Pipe (world s2)) as [r2 w3] eqn:E2.
  pose proof (execSync_eq _ _ _ s2 E2) as X2.
  exists r2.
  destruct r2 as [out|].
  2:{ rewrite (bind_throw _ _ s2 (e := ErrExec (select_command cfg (this s))))
        by (rewrite X2; reflexivity).
      rewrite X2. cbn [result emitted app]. split; reflexivity. }
  rewrite (bind_return _ _ s2 (a := out)) by (rewrite X2; reflexivity).
  rewrite X2. cbn [result final emitted this s2].
  set (s3 := {| this := this s; world := w3 |}).
  unfold userId_of.
  destruct (data_lines (lit "ID") out) as [|first rest];
    [cbn [truthy ret result emitted app]; split; reflexivity|].
  destruct (truthy (trim first)) eqn:Et; cbn [when];
    [|cbn [ret result emitted app]; split; reflexivity].
  change (CmdMysql (stage_client cfg (this s)) (Execute (SqlInsertCapabilities _ _)))
    with (capabilities_command cfg (this s) (trim first)).
  set (caps := capabilities_command cfg (this s) (trim first)).
  destruct (env_exec env caps (stdio_of cfg) (world s3)) as [r3 w4] eqn:E3.
  pose proof (execSync_eq _ _ _ s3 E3) as X3.
  exists r3.
  destruct r3 as [o3|].
  - rewrite (bind_return _ _ s3 (a := o3)) by (rewrite X3; reflexivity).
    rewrite X3. cbn [ret result emitted app]. split; reflexivity.
  - rewrite (bind_throw _ _ s3 (e := ErrExec caps)) by (rewrite X3; reflexivity).
    rewrite X3. cbn [result emitted app]. split; reflexivity.
Qed.

End AccountCreation.

(* ================================================================== *)
(** ** Strings and patterns: facts the stages rely on                  *)
(* ================================================================== *)

Section Text.

Lemma startsWith_split l : forall s,
  startsWith l s = true -> s = l ++ skipn (List.length l) s.
Proof.
  induction l as [|a l IH]; intros s H; [reflexivity|].
  destruct s as [|b s]; [discriminate|]. cbn in H.
  apply andb_prop in H. destruct H as [Hab Hl].
  apply N.eqb_eq in Hab. subst b. cbn. f_equal. apply IH, Hl.
Qed.

Lemma startsWith_length l s :
  startsWith l s = true -> List.length l <= List.length s.
Proof.
  intros H. apply startsWith_split in H. rewrite H, length_app. lia.
Qed.

Lemma startsWith_includes l s : startsWith l s = true -> includes s l = true.
Proof. intros H. destruct s; cbn [includes]; rewrite H; reflexivity. Qed.

Lemma includes_cons c s sub : includes s sub = true -> includes (c :: s) sub = true.
Proof. intros H. cbn [includes]. rewrite H. apply orb_true_r. Qed.

Lemma includes_app_r a b sub : includes b sub = true -> includes (a ++ b) sub = true.
Proof.
  intros H. induction a as [|c a IH]; [exact H|]. cbn [app]. apply includes_cons, IH.
Qed.

Lemma includes_skipn n : forall s sub,
  includes (skipn n s) sub = true -> includes s sub = true.
Proof.
  induction n as [|n IH]; intros s sub H; [exact H|].
  destruct s as [|c s]; [exact H|]. apply includes_cons, IH, H.
Qed.

(** A starred class hands some suffix over to what follows it. *)
Lemma star_match_reaches p k : forall s n,
  star_match p k s = Some n ->
  exists j m, j + m = n /\ j <= List.length s /\ k (skipn j s) = Some m.
Proof.
  induction s as [|c s IH]; intros n H; cbn [star_match] in H.
  - exists 0, n. cbn. auto.
  - destruct (p c).
    + destruct (star_match p k s) as [n'|] eqn:E.
      * injection H as <-. destruct (IH n' eq_refl) as (j & m & Hjm & Hj & Hk).
        exists (S j), m. cbn. repeat split; [lia | lia | exact Hk].
      * exists 0, n. cbn. repeat split; [lia | exact H].
    + exists 0, n. cbn. repeat split; [lia | exact H].
Qed.

(** A pattern whose every match runs to the end of the text. *)
Definition anchored (r : regex) : Prop :=
  forall s n, match_here r s = Some n -> n = List.length s.

Lemma anchored_end : anchored [AEnd].
Proof. intros [|c s] n H; cbn in H; [injection H as <-; reflexivity | discriminate]. Qed.

Lemma anchored_cons a r : anchored r -> anchored (a :: r).
Proof.
  intros Hr s n H. destruct a as [l|p|p|]; cbn [match_here] in H.
  - destruct (startsWith l s) eqn:E; [|discriminate].
    destruct (match_here r (skipn (List.length l) s)) as [m|] eqn:Em; [|discriminate].
    cbn in H. injection H as <-. rewrite (Hr _ _ Em), length_skipn.
    pose proof (startsWith_length _ _ E). lia.
  - destruct s as [|c s]; [discriminate|]. destruct (p c); [|discriminate].
    destruct (match_here r s) as [m|] eqn:Em; [|discriminate].
    cbn in H. injection H as <-. rewrite (Hr _ _ Em). reflexivity.
  - destruct (star_match_reaches _ _ _ H) as (j & m & Hjm & Hj & Hk).
    rewrite (Hr _ _ Hk), length_skipn in Hjm. lia.
  - destruct s as [|c s]; [|discriminate]. apply (Hr _ _ H).
Qed.

Lemma regex_search_found r : forall s i j n,
  regex_search r s i = Some (j, n) ->
  i <= j /\ j - i <= List.length s /\ match_here r (skipn (j - i) s) = Some n.
Proof.
  induction s as [|c s IH]; intros i j n H; cbn [regex_search] in H.
  - destruct (match_here r []) as [m|] eqn:E; [|discriminate].
    injection H as <- <-. rewrite Nat.sub_diag. cbn. auto.
  - destruct (match_here r (c :: s)) as [m|] eqn:E.
    + injection H as <- <-. rewrite Nat.sub_diag. cbn [skipn List.length].
      repeat split; [lia | lia | exact E].
    + destruct (IH _ _ _ H) as (Hij & Hlen & Hm).
      replace (j - i) with (S (j - S i)) by lia. cbn [skipn List.length].
      repeat split; [lia | lia | exact Hm].
Qed.

Lemma regex_search_lit_absent l r : forall s i,
  includes s l = false -> regex_search (ALit l :: r) s i = None.
Proof.
  induction s as [|c s IH]; intros i H; cbn [includes] in H;
    apply orb_false_elim in H; destruct H as [Hs Hi];
    cbn [regex_search match_here]; rewrite Hs; [reflexivity | apply IH, Hi].
Qed.

(** *** The expansion of the replacement text *)

Lemma getSubstitution_other m b a c rest :
  c <> 36%N ->
  getSubstitution m b a (c :: rest) = c :: getSubstitution m b a rest.
Proof.
  intros Hc. destruct c as [|p]; [reflexivity|].
  do 6 (destruct p as [p|p|]; try reflexivity). congruence.
Qed.

Lemma getSubstitution_prefix m b a pre rest :
  ~ In 36%N pre ->
  getSubstitution m b a (pre ++ rest) = pre ++ getSubstitution m b a rest.
Proof.
  induction pre as [|c pre IH]; intros H; [reflexivity|].
  cbn [app]. rewrite getSubstitution_other; [|intros ->; apply H; left; reflexivity].
  rewrite IH; [reflexivity|]. intros Hin. apply H. right. exact Hin.
Qed.

Lemma getSubstitution_plain m b a repl :
  ~ In 36%N repl -> getSubstitution m b a repl = repl.
Proof.
  intros H. rewrite <- (app_nil_r repl) at 1.
  rewrite getSubstitution_prefix by exact H. cbn. apply app_nil_r.
Qed.

(** *** The first occurrence of a pattern *)

Lemma startsWith_self pat rest : startsWith pat (pat ++ rest) = true.
Proof.
  induction pat as [|c pat IH]; [reflexivity|]. cbn. rewrite N.eqb_refl. exact IH.
Qed.

(** Searching for a pattern that begins with [c]: units other than [c]
    are passed over. *)
Lemma indexOf_from_pass c pat pre : forall s i,
  ~ In c pre ->
  indexOf_from (pre ++ s) (c :: pat) i = indexOf_from s (c :: pat) (i + List.length pre).
Proof.
  induction pre as [|x pre IH]; intros s i H.
  - cbn. rewrite Nat.add_0_r. reflexivity.
  - cbn [app indexOf_from startsWith].
    destruct (N.eqb_spec c x) as [->|_]; [exfalso; apply H; left; reflexivity|].
    cbn [andb]. rewrite IH by (intros Hin; apply H; right; exact Hin).
    cbn [List.length]. f_equal. lia.
Qed.

(** An occurrence of [c] followed by another unit than the pattern has
    is passed over as well, with the units other than [c] after it. *)
Lemma indexOf_from_near c d pat x pre s i :
  x <> d -> ~ In c (x :: pre) ->
  indexOf_from (c :: (x :: pre) ++ s) (c :: d :: pat) i =
  indexOf_from s (c :: d :: pat) (i + S (List.length (x :: pre))).
Proof.
  intros H Hin.
  change (indexOf_from (c :: (x :: pre) ++ s) (c :: d :: pat) i)
    with (if (N.eqb c c && (N.eqb d x && startsWith pat (pre ++ s)))%bool then Some i
          else indexOf_from ((x :: pre) ++ s) (c :: d :: pat) (S i)).
  destruct (N.eqb_spec d x) as [->|_]; [congruence|].
  rewrite andb_false_r. rewrite indexOf_from_pass by exact Hin. f_equal. lia.
Qed.

Lemma indexOf_from_here pat rest i : indexOf_from (pat ++ rest) pat i = Some i.
Proof.
  destruct pat as [|c pat].
  - destruct rest; reflexivity.
  - change (indexOf_from ((c :: pat) ++ rest) (c :: pat) i)
      with (if startsWith (c :: pat) ((c :: pat) ++ rest) then Some i
            else indexOf_from (pat ++ rest) (c :: pat) (S i)).
    rewrite startsWith_self. reflexivity.
Qed.

Lemma skipn_past (a b r : jsstring) :
  skipn (List.length a + List.length b) (a ++ b ++ r) = r.
Proof.
  rewrite <- length_app, app_assoc, skipn_app, skipn_all, Nat.sub_diag. reflexivity.
Qed.

(** [s.replace(pat, repl)] at the first occurrence, for a replacement
    without a dollar sign. *)
Lemma replace_str_at pre pat rest repl :
  indexOf (pre ++ pat ++ rest) pat = Some (List.length pre) ->
  ~ In 36%N repl ->
  replace_str (pre ++ pat ++ rest) pat repl = pre ++ repl ++ rest.
Proof.
  intros Hi Hr. unfold replace_str. rewrite Hi. cbv zeta.
  rewrite getSubstitution_plain by exact Hr.
  rewrite skipn_past, firstn_app, firstn_all, Nat.sub_diag. cbn [firstn].
  rewrite app_nil_r. reflexivity.
Qed.

End Text.

(* ================================================================== *)
(** ** The configuration patcher, block by block                       *)
(* ================================================================== *)

Module PatcherSteps.

Import Patcher.

(** The blocks of [updateWpConfig], one function each. *)

Definition set_define (key value : jsstring) (wpConfig : jsstring) : jsstring :=
  replace_re wpConfig (define_re key) (define_stmt key value).

Definition connection_parameters (cfg : Config) (this : This) (wpConfig : jsstring)
  : jsstring :=
  let db := database cfg in
  let wpConfig := set_define (lit "DB_NAME") (dbName this) wpConfig in
  let wpConfig := set_define (lit "DB_USER") (or_else (dbUser this) (db_user db)) wpConfig in
  let wpConfig :=
    set_define (lit "DB_PASSWORD") (or_else (dbPassword this) (db_password db)) wpConfig in
  let wpConfig :=
    set_define (lit "DB_HOST") (db_host db ++ lit ":" ++ String_of_N (db_port db))
               wpConfig in
  let wpConfig := set_define (lit "DB_CHARSET") (db_charset db) wpConfig in
  let wpConfig := set_define (lit "DB_COLLATE") (db_collate db) wpConfig in
  set_define (lit "$table_prefix") (db_prefix db) wpConfig.

Definition add_salts (salts : jsstring) (wpConfig : jsstring) : jsstring :=
  if negb (includes wpConfig (lit "AUTH_KEY"))
  then replace_re wpConfig marker_re (salts ++ nl ++ nl ++ marker)
  else wpConfig.

Definition debug_settings (cfg : Config) (wpConfig : jsstring) : list jsstring :=
  let dev := development cfg in
  let debugSettings := [] in
  let debugSettings := push_debug wpConfig (lit "WP_DEBUG") (dev_debugLog dev) debugSettings in
  let debugSettings := push_debug wpConfig (lit "WP_DEBUG_LOG") (dev_wpDebugLog dev) debugSettings in
  let debugSettings := push_debug wpConfig (lit "WP_DEBUG_DISPLAY") (dev_wpDebugDisplay dev) debugSettings in
  let debugSettings := push_debug wpConfig (lit "SCRIPT_DEBUG") (dev_scriptDebug dev) debugSettings in
  push_debug wpConfig (lit "SAVEQUERIES") (dev_saveQueries dev) debugSettings.

Definition add_development (cfg : Config) (wpConfig : jsstring) : jsstring :=
  if dev_enableDebug (development cfg) then
    let debugSettings := debug_settings cfg wpConfig in
    if Nat.ltb 0 (List.length debugSettings) then
      let debugSettingsBlock :=
        nl ++ lit "// Development settings" ++ nl ++ join nl debugSettings in
      replace_re wpConfig marker_re (debugSettingsBlock ++ nl ++ nl ++ marker)
    else wpConfig
  else wpConfig.

Definition add_security (cfg : Config) (wpConfig : jsstring) : jsstring :=
  if sec_disableFileEditing (security cfg) then
    if not_defined wpConfig (lit "DISALLOW_FILE_EDIT")
    then replace_re wpConfig marker_re
           (nl ++ lit "define( 'DISALLOW_FILE_EDIT', true );" ++ nl ++ nl ++ marker)
    else wpConfig
  else wpConfig.

Definition add_performance (cfg : Config) (wpConfig : jsstring) : jsstring :=
  match wp_memoryLimit (wordpress cfg) with
  | Some memoryLimit =>
      if truthy memoryLimit then
        if not_defined wpConfig (lit "WP_MEMORY_LIMIT")
        then replace_re wpConfig marker_re
               (nl ++ lit "define( 'WP_MEMORY_LIMIT', '" ++ memoryLimit ++ lit "' );"
                   ++ nl ++ nl ++ marker)
        else wpConfig
      else wpConfig
  | None => wpConfig
  end.

Definition add_custom (cfg : Config) (wpConfig : jsstring) : jsstring :=
  if Nat.ltb 0 (List.length (custom_wpConfig (custom cfg))) then
    replace_re wpConfig marker_re
      ((nl ++ join nl (custom_wpConfig (custom cfg)) ++ nl) ++ nl ++ marker)
  else wpConfig.

Definition require_settings : jsstring :=
  lit "require_once(ABSPATH . 'wp-settings.php');".

Definition ensure_bootstrap (wpConfig : jsstring) : jsstring :=
  if negb (includes wpConfig require_settings)
  then replace_re wpConfig marker_re (nl ++ marker ++ nl ++ nl ++ require_settings)
  else wpConfig.

Lemma let_eq {A B : Type} (a : A) (f : A -> B) (rhs : B) :
  (forall x, x = a -> f x = rhs) -> (let x := a in f x) = rhs.
Proof. intros H. apply (H a eq_refl). Qed.

Ltac peel_let x E :=
  lazymatch goal with
  | |- (let y := ?a in @?f y) = ?r => refine (@let_eq _ _ a f r _); intros x E; cbv beta
  end.

Lemma updateWpConfig_text_steps cfg this salts wpConfig :
  updateWpConfig_text cfg this salts wpConfig =
  ensure_bootstrap
    (add_custom cfg
       (add_performance cfg
          (add_security cfg
             (add_development cfg
                (add_salts salts
                   (connection_parameters cfg this wpConfig)))))).
Proof.
  cbv beta delta [updateWpConfig_text].
  peel_let db Edb. peel_let u Eu. peel_let p Ep.
  peel_let w1 E1. peel_let w2 E2. peel_let w3 E3. peel_let w4 E4.
  peel_let w5 E5. peel_let w6 E6. peel_let w7 E7.
  assert (H7 : w7 = connection_parameters cfg this wpConfig).
  { subst. reflexivity. }
  clear E1 E2 E3 E4 E5 E6 E7. clear w1 w2 w3 w4 w5 w6.
  peel_let w8 E8.
  assert (H8 : w8 = add_salts salts w7) by (subst w8; reflexivity).
  peel_let w9 E9.
  assert (H9 : w9 = add_development cfg w8) by (subst w9; reflexivity).
  peel_let w10 E10.
  assert (H10 : w10 = add_security cfg w9) by (subst w10; reflexivity).
  peel_let w11 E11.
  assert (H11 : w11 = add_performance cfg w10) by (subst w11; reflexivity).
  peel_let w12 E12.
  assert (H12 : w12 = add_custom cfg w11) by (subst w12; reflexivity).
  peel_let w13 E13.
  assert (H13 : w13 = ensure_bootstrap w12) by (subst w13; reflexivity).
  rewrite H13, H12, H11, H10, H9, H8, H7. reflexivity.
Qed.

Lemma marker_re_anchored : anchored marker_re.
Proof. unfold marker_re. do 4 apply anchored_cons. apply anchored_end. Qed.

Definition marker_text : jsstring := lit "That's all, stop editing!".

Lemma marker_match_includes s n :
  match_here marker_re s = Some n -> includes s marker_text = true.
Proof.
  unfold marker_re. cbn [match_here]. intros H.
  destruct (startsWith (lit "/*") s); [|discriminate].
  destruct (star_match is_space _ _) as [m|] eqn:E; [|discriminate].
  destruct (star_match_reaches _ _ _ E) as (j & m' & _ & _ & Hk).
  cbn [match_here] in Hk. fold marker_text in Hk.
  destruct (startsWith marker_text (skipn j (skipn (List.length (lit "/*")) s))) eqn:Es;
    [|discriminate].
  eapply includes_skipn, includes_skipn, startsWith_includes, Es.
Qed.

Lemma marker_absent : forall s i,
  includes s marker_text = false -> regex_search marker_re s i = None.
Proof.
  induction s as [|c s IH]; intros i H; cbn [regex_search].
  - destruct (match_here marker_re []) as [n|] eqn:E; [|reflexivity].
    apply marker_match_includes in E. congruence.
  - destruct (match_here marker_re (c :: s)) as [n|] eqn:E.
    + apply marker_match_includes in E. congruence.
    + apply IH. cbn [includes] in H. apply orb_false_elim in H. apply H.
Qed.

Lemma marker_replace_absent w repl :
  includes w marker_text = false -> replace_re w marker_re repl = w.
Proof. intros H. unfold replace_re. rewrite (marker_absent _ 0 H). reflexivity. Qed.

Lemma set_define_absent key value w :
  includes w (lit "define") = false -> set_define key value w = w.
Proof.
  intros H. unfold set_define, replace_re, define_re.
  rewrite (regex_search_lit_absent _ _ _ 0 H). reflexivity.
Qed.

(** X9. The patcher never appends.  A text that contains neither the
    word [define] nor the words of the marker comment is returned
    exactly as it is, whatever the configuration, the credentials and
    the salts: a connection parameter without an assignment is skipped,
    and an additive setting without the marker is dropped. *)
Theorem updateWpConfig_text_without_anchors cfg this salts w :
  includes w (lit "define") = false ->
  includes w (lit "That's all, stop editing!") = false ->
  updateWpConfig_text cfg this salts w = w.
Proof.
  intros Hd Hm. rewrite updateWpConfig_text_steps.
  assert (Hc : connection_parameters cfg this w = w).
  { unfold connection_parameters. cbv zeta.
    repeat rewrite (@set_define_absent _ _ w Hd).
    reflexivity. }
  rewrite Hc.
  assert (Hs : add_salts salts w = w).
  { unfold add_salts. destruct (negb _); [apply marker_replace_absent, Hm | reflexivity]. }
  rewrite Hs.
  assert (Hv : add_development cfg w = w).
  { unfold add_development. cbv zeta. destruct (dev_enableDebug _); [|reflexivity].
    destruct (Nat.ltb _ _); [apply marker_replace_absent, Hm | reflexivity]. }
  rewrite Hv.
  assert (Hy : add_security cfg w = w).
  { unfold add_security. destruct (sec_disableFileEditing _); [|reflexivity].
    destruct (not_defined _ _); [apply marker_replace_absent, Hm | reflexivity]. }
  rewrite Hy.
  assert (Hp : add_performance cfg w = w).
  { unfold add_performance. destruct (wp_memoryLimit _) as [m|]; [|reflexivity].
    destruct (truthy m); [|reflexivity].
    destruct (not_defined _ _); [apply marker_replace_absent, Hm | reflexivity]. }
  rewrite Hp.
  assert (Hu : add_custom cfg w = w).
  { unfold add_custom. destruct (Nat.ltb _ _); [apply marker_replace_absent, Hm | reflexivity]. }
  rewrite Hu.
  unfold ensure_bootstrap. destruct (negb _); [apply marker_replace_absent, Hm | reflexivity].
Qed.

(** A match of the marker pattern runs to the end of the text. *)
Lemma marker_match_to_end w i n :
  regex_search marker_re w 0 = Some (i, n) -> i + n = List.length w.
Proof.
  intros H. destruct (regex_search_found _ _ _ H) as (_ & Hi & Hm).
  rewrite Nat.sub_0_r in Hi, Hm.
  pose proof (marker_re_anchored _ Hm) as Hn. rewrite length_skipn in Hn. lia.
Qed.

(** What the replacement of the marker leaves. *)
Lemma marker_replaced w repl i n :
  regex_search marker_re w 0 = Some (i, n) -> ~ In 36%N repl ->
  replace_re w marker_re repl = firstn i w ++ repl.
Proof.
  intros H Hr. pose proof (marker_match_to_end _ H) as Hn.
  unfold replace_re. rewrite H. rewrite getSubstitution_plain by exact Hr.
  rewrite (@skipn_all2 _ (i + n) w) by lia. rewrite app_nil_r. reflexivity.
Qed.

(** X10. The marker pattern matches to the end of the text.  Wherever the
    marker comment is found, the match runs from it to the last unit of
    the text, so the replacement of any additive step stands at the end
    of the result: what followed the marker comment is not kept, and the
    pattern for the text after the match expands to nothing. *)
Theorem marker_replacement_discards_tail w repl i n :
  regex_search marker_re w 0 = Some (i, n) ->
  i + n = List.length w /\
  replace_re w marker_re repl =
    firstn i w ++ getSubstitution (skipn i w) (firstn i w) [] repl.
Proof.
  intros H. pose proof (marker_match_to_end _ H) as Hn. split; [exact Hn|].
  unfold replace_re. rewrite H.
  rewrite (@skipn_all2 _ (i + n) w) by lia.
  replace n with (List.length (skipn i w)) by (rewrite length_skipn; lia).
  rewrite firstn_all, app_nil_r. reflexivity.
Qed.

Lemma require_settings_plain :
  ~ In 36%N (nl ++ marker ++ nl ++ nl ++ require_settings).
Proof.
  intros H. vm_compute in H.
  repeat (destruct H as [H|H]; [discriminate H|]). exact H.
Qed.

(** X11. The loading line.  The patched text contains the line
    [require_once(ABSPATH . 'wp-settings.php');] whenever the marker
    comment can still be found in it: either the line is there, or the
    patched text has no marker comment. *)
Theorem updateWpConfig_text_bootstrap cfg this salts w :
  let out := updateWpConfig_text cfg this salts w in
  includes out require_settings = true \/ regex_search marker_re out 0 = None.
Proof.
  intros out. subst out. rewrite updateWpConfig_text_steps.
  set (w12 := add_custom _ _). unfold ensure_bootstrap.
  destruct (includes w12 require_settings) eqn:E; cbn [negb]; [left; exact E|].
  destruct (regex_search marker_re w12 0) as [[i n]|] eqn:Es.
  - left. rewrite (@marker_replaced _ _ _ _ Es require_settings_plain).
    apply includes_app_r. vm_compute. reflexivity.
  - right. unfold replace_re. rewrite Es. exact Es.
Qed.

(** X12. A value without a dollar sign is written as given.  When the
    assignment of a key is found, and neither the key nor the new value
    contains a dollar sign, the text matched is replaced by
    [define( 'KEY', 'VALUE' )] and everything around it is kept. *)
Theorem define_written_verbatim key value w i n :
  ~ In 36%N key -> ~ In 36%N value ->
  regex_search (define_re key) w 0 = Some (i, n) ->
  replace_re w (define_re key) (define_stmt key value) =
  firstn i w ++ define_stmt key value ++ skipn (i + n) w.
Proof.
  intros Hk Hv H. unfold replace_re. rewrite H.
  rewrite getSubstitution_plain; [reflexivity|].
  unfold define_stmt. rewrite !in_app_iff.
  intros [Hin|[Hin|[Hin|[Hin|Hin]]]]; try contradiction;
    vm_compute in Hin; repeat (destruct Hin as [Hin|Hin]; [discriminate Hin|]); exact Hin.
Qed.

(** X13. A value that ends in a dollar sign is not written as given.
    The quote that closes the value in the replacement text then reads
    as the pattern for the text after the match: in place of
    [VALUE$' )] the result holds [VALUE], the whole rest of the file and
    [ )], followed by the rest of the file again.  The dollar sign is in
    the alphabet of the generated passwords. *)
Theorem define_trailing_dollar_splices_rest key value w i n :
  ~ In 36%N key -> ~ In 36%N value ->
  regex_search (define_re key) w 0 = Some (i, n) ->
  replace_re w (define_re key) (define_stmt key (value ++ lit "$")) =
  firstn i w ++
  (lit "define( '" ++ key ++ lit "', '" ++ value ++ skipn (i + n) w ++ lit " )") ++
  skipn (i + n) w.
Proof.
  intros Hk Hv H. unfold replace_re. rewrite H. cbv zeta. f_equal. f_equal.
  unfold define_stmt.
  rewrite getSubstitution_prefix.
  2:{ vm_compute. intros Hin.
      repeat (destruct Hin as [Hin|Hin]; [discriminate Hin|]); exact Hin. }
  rewrite getSubstitution_prefix by exact Hk.
  rewrite getSubstitution_prefix.
  2:{ vm_compute. intros Hin.
      repeat (destruct Hin as [Hin|Hin]; [discriminate Hin|]); exact Hin. }
  rewrite <- app_assoc.
  rewrite getSubstitution_prefix by exact Hv.
  reflexivity.
Qed.

End PatcherSteps.

(* ================================================================== *)
(** ** The client command in Docker mode                               *)
(* ================================================================== *)

Section ClientCommand.

Definition dash : N := 45%N.

Ltac no_unit := vm_compute; intuition discriminate.

Ltac lengths := repeat (rewrite ?length_app; cbn [List.length lit app]); lia.

Ltac norm := repeat (cbn [lit app]; rewrite <- ?app_assoc); reflexivity.

(** X14. The probe inside the container.  In Docker mode, for a user
    name and a password without a dash, the command of the readiness
    poll is the client command run through [docker exec] in the
    configured container, with the host rewritten to [localhost] and
    the port to 3306, whatever host and port are configured; with an
    empty password the password flag is removed. *)
Theorem testCommand_in_container cfg :
  let db := database cfg in
  dk_enabled (db_docker db) = true ->
  ~ In dash (db_user db) ->
  ~ In dash (db_password db) ->
  testCommand cfg =
  lit "docker exec " ++ dk_containerName (db_docker db) ++
  lit " mysql -hlocalhost -u" ++ db_user db ++
  (if str_eqb (db_password db) [] then lit " " else lit " -p" ++ db_password db ++ lit " ") ++
  lit "-P3306 -e " ++ dq ++ lit "SELECT 1" ++ dq.
Proof.
  intros db Hen Hu Hp. unfold testCommand, getMysqlCommand. fold db. rewrite Hen.
  cbv zeta.
  set (tail := lit " -e " ++ dq ++ lit "SELECT 1" ++ dq).
  set (port := String_of_N (db_port db)).
  set (user := db_user db) in *. set (pw := db_password db) in *.
  (* the host *)
  assert (H1 : replace_str
                 (lit "mysql -h" ++ db_host db ++ lit " -u" ++ user ++
                  lit " -p" ++ pw ++ lit " -P" ++ port ++ tail)
                 (lit "-h" ++ db_host db) (lit "-hlocalhost") =
               lit "mysql " ++ lit "-hlocalhost" ++
               (lit " -u" ++ user ++ lit " -p" ++ pw ++ lit " -P" ++ port ++ tail)).
  { change (lit "mysql -h" ++ db_host db ++ lit " -u" ++ user ++
            lit " -p" ++ pw ++ lit " -P" ++ port ++ tail)
      with (lit "mysql " ++ (lit "-h" ++ db_host db) ++
            (lit " -u" ++ user ++ lit " -p" ++ pw ++ lit " -P" ++ port ++ tail)).
    apply replace_str_at; [|no_unit].
    unfold indexOf. change (lit "-h" ++ db_host db) with (dash :: 104%N :: db_host db).
    rewrite indexOf_from_pass by no_unit.
    apply indexOf_from_here. }
  rewrite H1. clear H1.
  (* the port *)
  set (before := lit "mysql " ++ dash :: lit "hlocalhost " ++
                 dash :: (lit "u" ++ user ++ lit " ") ++
                 dash :: (lit "p" ++ pw ++ lit " ")).
  assert (Hu' : ~ In dash (lit "u" ++ user ++ lit " ")).
  { rewrite !in_app_iff. intros [H|[H|H]]; [revert H; no_unit | auto | revert H; no_unit]. }
  assert (Hp' : ~ In dash (lit "p" ++ pw ++ lit " ")).
  { rewrite !in_app_iff. intros [H|[H|H]]; [revert H; no_unit | auto | revert H; no_unit]. }
  assert (Hb : lit "mysql " ++ lit "-hlocalhost" ++
               (lit " -u" ++ user ++ lit " -p" ++ pw ++ lit " -P" ++ port ++ tail)
               = before ++ (lit "-P" ++ port) ++ tail).
  { subst before. norm. }
  assert (H2 : replace_str (before ++ (lit "-P" ++ port) ++ tail)
                 (lit "-P" ++ port) (lit "-P3306") =
               before ++ lit "-P3306" ++ tail).
  { apply replace_str_at; [|no_unit].
    unfold indexOf.
    replace (before ++ (lit "-P" ++ port) ++ tail)
      with (lit "mysql " ++
            dash :: (104%N :: lit "localhost ") ++
            dash :: (117%N :: user ++ lit " ") ++
            dash :: (112%N :: pw ++ lit " ") ++ (dash :: 80%N :: port) ++ tail)
      by (unfold before; norm).
    change (lit "-P" ++ port) with (dash :: 80%N :: port).
    rewrite indexOf_from_pass by no_unit.
    rewrite indexOf_from_near; [|discriminate|no_unit].
    rewrite indexOf_from_near; [|discriminate|exact Hu'].
    rewrite indexOf_from_near; [|discriminate|exact Hp'].
    rewrite indexOf_from_here. f_equal; unfold before; lengths. }
  rewrite Hb, H2. clear Hb H2.
  (* the password flag *)
  destruct (str_eqb pw []) eqn:Epw.
  - apply str_eqb_eq in Epw. 
    assert (H3 : replace_str (before ++ lit "-P3306" ++ tail) (lit "-p ") [] =
                 (lit "mysql -hlocalhost -u" ++ user ++ lit " ") ++ [] ++
                 (lit "-P3306" ++ tail)).
    { replace (before ++ lit "-P3306" ++ tail)
        with ((lit "mysql -hlocalhost -u" ++ user ++ lit " ") ++ lit "-p " ++
              (lit "-P3306" ++ tail)).
      2:{ unfold before. rewrite Epw. norm. }
      apply replace_str_at; [|no_unit].
      unfold indexOf.
      replace ((lit "mysql -hlocalhost -u" ++ user ++ lit " ") ++ lit "-p " ++
               lit "-P3306" ++ tail)
        with (lit "mysql " ++
              dash :: (104%N :: lit "localhost ") ++
              dash :: (117%N :: user ++ lit " ") ++
              (dash :: 112%N :: lit " ") ++ lit "-P3306" ++ tail)
        by norm.
      change (lit "-p ") with (dash :: 112%N :: lit " ").
      rewrite indexOf_from_pass by no_unit.
      rewrite indexOf_from_near; [|discriminate|no_unit].
      rewrite indexOf_from_near; [|discriminate|exact Hu'].
      rewrite indexOf_from_here. f_equal; lengths. }
    rewrite H3. subst tail. norm.
  - subst before tail. norm.
Qed.

End ClientCommand.

(* ================================================================== *)
(** ** The validators of the prompt                                     *)
(* ================================================================== *)

Section Prompt.

(** What a validator of the prompt returns: [true], or the message. *)
Inductive Validation : Type :=
| Valid
| Invalid (message : jsstring).

(** [re.test(input)] for a pattern that begins with [^]. *)
Definition test_from_start (r : regex) (input : jsstring) : bool :=
  match match_here r input with
  | Some _ => true
  | None => false
  end.

(** The class [[a-zA-Z0-9-_]]. *)
Definition name_unit (c : N) : bool :=
  ((N.leb 97 c && N.leb c 122) || (N.leb 65 c && N.leb c 90) ||
   (N.leb 48 c && N.leb c 57) || N.eqb c 45 || N.eqb c 95)%bool.

(** [/^[a-zA-Z0-9-_]+$/] *)
Definition websiteName_re : regex := [AClass name_unit; AStar name_unit; AEnd].

Definition validate_websiteName (input : jsstring) : Validation :=
  if negb (truthy (trim input)) then Invalid (lit "Website name is required")
  else if negb (test_from_start websiteName_re input)
  then Invalid (lit "Website name can only contain letters, numbers, hyphens, and underscores")
  else Valid.

Definition validate_adminPassword (input : jsstring) : Validation :=
  if negb (truthy (trim input)) then Invalid (lit "Admin password is required")
  else if Nat.ltb (List.length input) 8
  then Invalid (lit "Password must be at least 8 characters long")
  else Valid.

(** The class [[^\s@]]. *)
Definition email_unit (c : N) : bool := negb (is_space c || N.eqb c 64).

(** [/^[^\s@]+@[^\s@]+\.[^\s@]+$/] *)
Definition emailRegex : regex :=
  [ AClass email_unit; AStar email_unit; ALit (lit "@");
    AClass email_unit; AStar email_unit; ALit (lit ".");
    AClass email_unit; AStar email_unit; AEnd ].

Definition validate_adminEmail (input : jsstring) : Validation :=
  if negb (test_from_start emailRegex input)
  then Invalid (lit "Please enter a valid email address")
  else Valid.

(** *** A starred class before the end of the text *)

Lemma star_to_end p : forall s,
  star_match p (match_here [AEnd]) s <> None <-> forallb p s = true.
Proof.
  induction s as [|c s IH]; cbn [star_match forallb].
  - split; [reflexivity | intros _; cbn; congruence].
  - destruct (p c); cbn [andb].
    + destruct (star_match p (match_here [AEnd]) s) as [n|].
      * split; [intros _; apply (proj1 IH); congruence | intros _; congruence].
      * cbn [match_here]. split; [intros H; exfalso; apply H; reflexivity|].
        intros H. apply (proj2 IH) in H. exfalso. apply H. reflexivity.
    + cbn [match_here]. split; [intros H; exfalso; apply H; reflexivity | intros H; discriminate H].
Qed.

(** What a starred class consumed belongs to the class. *)
Lemma star_match_consumes p k : forall s n,
  star_match p k s = Some n ->
  exists pre rest, s = pre ++ rest /\ forallb p pre = true /\ k rest <> None.
Proof.
  induction s as [|c s IH]; intros n H; cbn [star_match] in H.
  - exists [], []. repeat split. congruence.
  - destruct (p c) eqn:Ec.
    + destruct (star_match p k s) as [n'|] eqn:E.
      * destruct (IH n' eq_refl) as (pre & rest & -> & Hp & Hk).
        exists (c :: pre), rest. cbn. rewrite Ec. auto.
      * exists [], (c :: s). repeat split. congruence.
    + exists [], (c :: s). repeat split. congruence.
Qed.

(** Backtracking finds a match whenever some split allows one. *)
Lemma star_match_complete p k pre : forall rest,
  forallb p pre = true -> k rest <> None -> star_match p k (pre ++ rest) <> None.
Proof.
  induction pre as [|c pre IH]; intros rest Hp Hk.
  - cbn [app]. destruct rest as [|c rest]; cbn [star_match]; [exact Hk|].
    destruct (p c); [|exact Hk].
    destruct (star_match p k rest); [discriminate | exact Hk].
  - cbn [forallb] in Hp. apply andb_prop in Hp. destruct Hp as [Hc Hp].
    cbn [app star_match]. rewrite Hc.
    specialize (IH rest Hp Hk).
    destruct (star_match p k (pre ++ rest)); [discriminate | congruence].
Qed.

Lemma name_unit_not_space c : name_unit c = true -> is_space c = false.
Proof.
  unfold name_unit, is_space. cbv zeta. intros H.
  rewrite !orb_true_iff, !andb_true_iff, !N.leb_le, !N.eqb_eq in H.
  repeat match goal with
         | |- context [N.eqb c ?k] => destruct (N.eqb_spec c k); [lia|]
         end.
  destruct (N.leb_spec 8192 c); [lia|]. reflexivity.
Qed.

Lemma trimStart_head c s : is_space c = false -> trimStart (c :: s) = c :: s.
Proof. intros H. cbn. rewrite H. reflexivity. Qed.

Lemma trim_names input :
  input <> [] -> forallb name_unit input = true -> trim input = input.
Proof.
  intros Hne Hall. rewrite forallb_forall in Hall.
  unfold trim, trimEnd.
  destruct input as [|c s]; [congruence|].
  rewrite trimStart_head by (apply name_unit_not_space, Hall; left; reflexivity).
  destruct (rev (c :: s)) as [|x l] eqn:Er.
  - apply (f_equal (@List.length N)) in Er. rewrite length_rev in Er. discriminate.
  - rewrite trimStart_head.
    + rewrite <- Er. apply rev_involutive.
    + apply name_unit_not_space, Hall. apply in_rev. rewrite Er. left. reflexivity.
Qed.

Lemma test_not_none r s : test_from_start r s = true <-> match_here r s <> None.
Proof.
  unfold test_from_start. destruct (match_here r s); split; congruence.
Qed.

Lemma option_map_not_none {A B} (f : A -> B) o : option_map f o <> None <-> o <> None.
Proof. destruct o; cbn; split; congruence. Qed.

(** One or more units of a class, then what follows. *)
Lemma plus_sound p r s :
  match_here (AClass p :: AStar p :: r) s <> None ->
  exists pre rest,
    s = pre ++ rest /\ pre <> [] /\ forallb p pre = true /\ match_here r rest <> None.
Proof.
  cbn [match_here]. destruct s as [|c s]; [congruence|].
  destruct (p c) eqn:Ec; [|congruence].
  rewrite option_map_not_none.
  destruct (star_match p (match_here r) s) as [n|] eqn:E; [|congruence].
  intros _. destruct (star_match_consumes _ _ _ E) as (pre & rest & -> & Hp & Hk).
  exists (c :: pre), rest. cbn. rewrite Ec. repeat split; [discriminate | auto | auto].
Qed.

Lemma plus_complete p r pre rest :
  pre <> [] -> forallb p pre = true -> match_here r rest <> None ->
  match_here (AClass p :: AStar p :: r) (pre ++ rest) <> None.
Proof.
  intros Hne Hp Hk. destruct pre as [|c pre]; [congruence|].
  cbn [forallb] in Hp. apply andb_prop in Hp. destruct Hp as [Hc Hp].
  cbn [app match_here]. rewrite Hc. apply option_map_not_none.
  apply star_match_complete; assumption.
Qed.

Lemma lit_sound l r s :
  match_here (ALit l :: r) s <> None ->
  exists rest, s = l ++ rest /\ match_here r rest <> None.
Proof.
  cbn [match_here]. destruct (startsWith l s) eqn:E; [|congruence].
  rewrite option_map_not_none. intros H.
  exists (skipn (List.length l) s). split; [apply startsWith_split, E | exact H].
Qed.

Lemma lit_complete l r rest :
  match_here r rest <> None -> match_here (ALit l :: r) (l ++ rest) <> None.
Proof.
  intros H. cbn [match_here]. rewrite startsWith_self.
  apply option_map_not_none. rewrite skipn_app, skipn_all, Nat.sub_diag. exact H.
Qed.

Lemma end_sound s : match_here [AEnd] s <> None -> s = [].
Proof. destruct s; cbn; congruence. Qed.

(** X15. The website name validator.  A name is accepted exactly when
    it is not empty and every unit of it is an ASCII letter, a digit, a
    hyphen or an underscore: no blank, quote, backquote, slash or dot
    gets through to the path and the database name built from it. *)
Theorem validate_websiteName_accepts input :
  validate_websiteName input = Valid <->
  input <> [] /\ forallb name_unit input = true.
Proof.
  unfold validate_websiteName, websiteName_re. split.
  - destruct (truthy (trim input)); cbn [negb]; [|discriminate].
    destruct (test_from_start _ input) eqn:E; cbn [negb]; [|discriminate].
    intros _. apply test_not_none in E.
    destruct (@plus_sound _ _ _ E) as (pre & rest & -> & Hne & Hp & Hend).
    apply end_sound in Hend. subst rest. rewrite app_nil_r. auto.
  - intros [Hne Hall]. rewrite (trim_names Hne Hall).
    destruct input as [|c s]; [congruence|]. cbn [truthy negb].
    assert (E : test_from_start [AClass name_unit; AStar name_unit; AEnd] (c :: s) = true).
    { apply test_not_none. rewrite <- (app_nil_r (c :: s)).
      apply plus_complete; [discriminate | exact Hall | cbn; discriminate]. }
    rewrite E. reflexivity.
Qed.

(** X16. The email validator.  An address is accepted exactly when it
    reads LOCAL, an at sign, DOMAIN, a dot, TLD, where the three parts
    are not empty and hold neither white space nor an at sign: the at
    sign occurs once, and a dot follows it with text on both sides. *)
Theorem validate_adminEmail_accepts input :
  validate_adminEmail input = Valid <->
  exists local domain tld,
    input = local ++ lit "@" ++ domain ++ lit "." ++ tld /\
    local <> [] /\ domain <> [] /\ tld <> [] /\
    forallb email_unit (local ++ domain ++ tld) = true.
Proof.
  unfold validate_adminEmail.
  assert (Hv : (if negb (test_from_start emailRegex input)
                then Invalid (lit "Please enter a valid email address") else Valid) = Valid
               <-> match_here emailRegex input <> None).
  { rewrite <- test_not_none. destruct (test_from_start emailRegex input); cbn;
      split; congruence. }
  rewrite Hv. clear Hv. unfold emailRegex. split.
  - intros H.
    destruct (@plus_sound _ _ _ H) as (local & r1 & -> & Hl & Hpl & H1).
    destruct (@lit_sound _ _ _ H1) as (r2 & -> & H2).
    destruct (@plus_sound _ _ _ H2) as (domain & r3 & -> & Hd & Hpd & H3).
    destruct (@lit_sound _ _ _ H3) as (r4 & -> & H4).
    destruct (@plus_sound _ _ _ H4) as (tld & r5 & -> & Ht & Hpt & H5).
    apply end_sound in H5. subst r5. rewrite app_nil_r.
    exists local, domain, tld. repeat split; try assumption.
    rewrite !forallb_app, Hpl, Hpd, Hpt. reflexivity.
  - intros (local & domain & tld & -> & Hl & Hd & Ht & Hall).
    rewrite !forallb_app, !andb_true_iff in Hall. destruct Hall as (Hpl & Hpd & Hpt).
    apply plus_complete; [assumption | assumption |].
    apply lit_complete.
    apply plus_complete; [assumption | assumption |].
    apply lit_complete.
    rewrite <- (app_nil_r tld).
    apply plus_complete; [assumption | assumption |]. cbn. discriminate.
Qed.

End Prompt.

(* ================================================================== *)
(** ** Hooks                                                           *)
(* ================================================================== *)

Section Hooks.

Variable W : Type.
Variable env : Env W.

Definition wp_word : jsstring := lit "wp ".

(** [hook.replace(/wp /g, repl)]: every match, from left to right, a
    match being looked for after the end of the one before.  [skip]
    counts the units of the current match still to pass, [before] is
    the text before the current position. *)
Fixpoint replace_wp (repl : jsstring) (s : jsstring) (skip : nat) (before : jsstring)
  : jsstring :=
  match s with
  | [] => []
  | c :: s' =>
      match skip with
      | S k => replace_wp repl s' k (before ++ [c])
      | O =>
          if startsWith wp_word s
          then getSubstitution wp_word before (skipn (List.length wp_word) s) repl ++
               replace_wp repl s' (List.length wp_word - 1) (before ++ [c])
          else c :: replace_wp repl s' 0 (before ++ [c])
      end
  end.

(** [`wp --path="${this.websitePath}" `] *)
Definition path_option (t : This) : jsstring :=
  lit "wp --path=" ++ dq ++ websitePath t ++ dq ++ lit " ".

Definition hookWithPath (t : This) (hook : jsstring) : jsstring :=
  replace_wp (path_option t) hook 0 [].

(** The loop over one list of hooks in [run]. *)
Definition runHooks (cfg : Config) (hooks : option (list jsstring)) : M W unit :=
  match hooks with
  | Some (first :: rest) =>
      for_of (first :: rest) (fun hook =>
        t <- get_this ;;
        execSync env (CmdText (hookWithPath t hook)) (stdio_of cfg) ;;
        ret tt)
  | _ => ret tt
  end.

Lemma replace_wp_before repl : ~ In 36%N repl ->
  forall s skip before before',
    replace_wp repl s skip before = replace_wp repl s skip before'.
Proof.
  intros Hr. induction s as [|c s IH]; intros skip before before'; [reflexivity|].
  cbn [replace_wp]. destruct skip as [|k]; [|apply IH].
  rewrite !(@getSubstitution_plain _ _ _ _ Hr).
  rewrite (IH (List.length wp_word - 1) (before ++ [c]) (before' ++ [c])).
  rewrite (IH 0 (before ++ [c]) (before' ++ [c])). reflexivity.
Qed.

Lemma replace_wp_absent repl : forall s before,
  includes s wp_word = false -> replace_wp repl s 0 before = s.
Proof.
  induction s as [|c s IH]; intros before H; [reflexivity|].
  cbn [includes] in H. apply orb_false_elim in H. destruct H as [Hs Hi].
  cbn [replace_wp]. rewrite Hs, IH by exact Hi. reflexivity.
Qed.

(** No match begins in a text without one, whatever follows it, when
    what follows is a match. *)
Lemma no_match_across c1 x rest :
  startsWith wp_word (c1 :: x) = false ->
  startsWith wp_word ((c1 :: x) ++ wp_word ++ rest) = false.
Proof.
  unfold wp_word. cbn [lit]. set (w := N_of_ascii "w"). set (p := N_of_ascii "p").
  set (b := N_of_ascii " ").
  assert (Hwp : N.eqb p w = false) by reflexivity.
  assert (Hbw : N.eqb b w = false) by reflexivity.
  destruct x as [|c2 [|c3 x]]; cbn [startsWith app]; intros H.
  - destruct (N.eqb w c1); [|reflexivity]. cbn [andb]. rewrite Hwp. reflexivity.
  - destruct (N.eqb w c1); [|reflexivity]. cbn [andb].
    destruct (N.eqb p c2); [|reflexivity]. cbn [andb]. rewrite Hbw. reflexivity.
  - exact H.
Qed.

Lemma replace_wp_first repl : ~ In 36%N repl ->
  forall a b before,
    includes a wp_word = false ->
    replace_wp repl (a ++ wp_word ++ b) 0 before = a ++ repl ++ replace_wp repl b 0 [].
Proof.
  intros Hr. induction a as [|c a IH]; intros b before H.
  - cbn [app]. unfold wp_word at 1. cbn [lit app replace_wp].
    change (startsWith wp_word (N_of_ascii "w" :: N_of_ascii "p" :: N_of_ascii " " :: b))
      with (startsWith wp_word (wp_word ++ b)).
    rewrite startsWith_self, (@getSubstitution_plain _ _ _ _ Hr).
    cbn [List.length wp_word lit Nat.sub replace_wp].
    destruct b as [|x b]; [reflexivity|].
    f_equal. apply replace_wp_before, Hr.
  - cbn [includes] in H. apply orb_false_elim in H. destruct H as [Hs Hi].
    change ((c :: a) ++ wp_word ++ b) with (c :: (a ++ wp_word ++ b)).
    cbn [replace_wp].
    change (c :: a ++ wp_word ++ b) with ((c :: a) ++ wp_word ++ b).
    rewrite (@no_match_across _ _ _ Hs), IH by exact Hi. reflexivity.
Qed.

(** X17. The rewriting of a hook.  For a website path without a dollar
    sign, a hook in which [wp ] does not occur is run as it is, and in
    any other hook the first occurrence of [wp ] is replaced by [wp ]
    with the path option and the rest of the hook is rewritten in the
    same way: every occurrence gets the option, also one that ends a
    longer word. *)
Theorem hookWithPath_rewrites_every_wp t :
  ~ In 36%N (websitePath t) ->
  (forall hook, includes hook wp_word = false -> hookWithPath t hook = hook) /\
  (forall a b, includes a wp_word = false ->
     hookWithPath t (a ++ wp_word ++ b) = a ++ path_option t ++ hookWithPath t b).
Proof.
  intros Hp.
  assert (Hr : ~ In 36%N (path_option t)).
  { unfold path_option, dq. rewrite !in_app_iff.
    intros [H|[H|[H|[H|H]]]]; try contradiction;
      vm_compute in H; intuition discriminate. }
  split.
  - intros hook H. apply replace_wp_absent, H.
  - intros a b H. apply replace_wp_first; assumption.
Qed.

(** X18. Hooks run in order and stop at the first failure.  The
    commands of a list of hooks are the rewritten hooks in configuration
    order.  When the loop returns, each of them ran to completion; when
    it throws, the error is the one of the hook that failed, the hooks
    before it ran to completion and none after it was run.  The
    instance fields are left as they were. *)
Theorem runHooks_stops_at_first_failure cfg hooks s :
  let o := runHooks cfg (Some hooks) s in
  let plan := map (fun hook => CmdText (hookWithPath (this s) hook)) hooks in
  this (final o) = this s /\
  match result o with
  | Return _ => commands (emitted o) = plan /\ succeeded (emitted o) = plan
  | Throw e =>
      exists before after c,
        plan = before ++ c :: after /\ e = ErrExec c /\
        succeeded (emitted o) = before /\
        commands (emitted o) = before ++ [c]
  end.
Proof.
  intros o plan. subst o plan.
  assert (Hloop : forall l s0, this s0 = this s ->
    let o := for_of l (fun hook =>
               t <- get_this ;;
               execSync env (CmdText (hookWithPath t hook)) (stdio_of cfg) ;;
               ret tt) s0 in
    let plan := map (fun hook => CmdText (hookWithPath (this s) hook)) l in
    this (final o) = this s /\
    match result o with
    | Return _ => commands (emitted o) = plan /\ succeeded (emitted o) = plan
    | Throw e =>
        exists before after c,
          plan = before ++ c :: after /\ e = ErrExec c /\
          succeeded (emitted o) = before /\
          commands (emitted o) = before ++ [c]
    end).
  { induction l as [|hook l IH]; intros s0 Hs0; cbv zeta.
    - cbn. auto.
    - cbn [for_of map].
      set (body := (t <- get_this ;; _)).
      set (c := CmdText (hookWithPath (this s) hook)).
      assert (Hb : exists r w,
                 body s0 = {| result := match r with
                                        | Some _ => Return tt
                                        | None => Throw (ErrExec c)
                                        end;
                              final := {| this := this s0; world := w |};
                              emitted := [EvExec c (stdio_of cfg) r] |}).
      { subst body. rewrite bind_get_this. subst c. rewrite <- Hs0.
        destruct (env_exec env (CmdText (hookWithPath (this s0) hook)) (stdio_of cfg)
                    (world s0)) as [r w] eqn:E.
        exists r, w. unfold bind. rewrite (execSync_eq _ _ _ s0 E).
        destruct r; reflexivity. }
      destruct Hb as (r & w & Hb).
      destruct r as [out|].
      + rewrite (bind_return _ _ s0 (a := tt)) by (rewrite Hb; reflexivity).
        rewrite Hb. cbn [result final emitted].
        specialize (IH {| this := this s0; world := w |} Hs0). cbv zeta in IH.
        destruct IH as [Ht IH]. split; [exact Ht|].
        destruct (result (for_of l _ _)) as [[]|e].
        * destruct IH as [Hc Hsu]. cbn [app commands succeeded].
          rewrite Hc, Hsu. split; reflexivity.
        * destruct IH as (before & after & c' & Hp & He & Hsu & Hc).
          exists (c :: before), after, c'. cbn [app commands succeeded].
          rewrite Hp, Hsu, Hc. repeat split. exact He.
      + rewrite (bind_throw _ _ s0 (e := ErrExec c)) by (rewrite Hb; reflexivity).
        rewrite Hb. cbn [result final emitted this]. split; [exact Hs0|].
        exists [], (map (fun hook => CmdText (hookWithPath (this s) hook)) l), c.
        repeat split. }
  destruct hooks as [|first rest].
  - cbn. auto.
  - apply (Hloop (first :: rest) s eq_refl).
Qed.

End Hooks.

(* ================================================================== *)
(** ** The Valet stage                                                 *)
(* ================================================================== *)

(** The options [setupValet] reads besides the domain:
    [advanced.skipValetSetup] and [valet.enabled], [valet.park],
    [valet.proxy], [valet.secure]. *)
Record ValetSetup := {
  vs_skipValetSetup : bool;
  vs_enabled : bool;
  vs_park : bool;
  vs_proxy : bool;
  vs_secure : bool
}.

Section Valet.

Variable W : Type.
Variable env : Env W.

(** [path.dirname] *)
Variable dirname : jsstring -> jsstring.

Definition valet_park (t : This) : Cmd :=
  CmdText (lit "cd " ++ dq ++ dirname (websitePath t) ++ dq ++ lit " && valet park").

Definition valet_proxy (t : This) : Cmd :=
  CmdText (lit "valet proxy " ++ websiteName t ++ lit " http://localhost:8080").

Definition valet_link (t : This) : Cmd :=
  CmdText (lit "cd " ++ dq ++ websitePath t ++ dq ++ lit " && valet link " ++
           websiteName t).

Definition valet_secure (t : This) : Cmd :=
  CmdText (lit "valet secure " ++ websiteName t).

Definition setupValet (cfg : Config) (opts : ValetSetup) : M W unit :=
  if vs_skipValetSetup opts then ret tt else
  if negb (vs_enabled opts) then ret tt else
  try_catch
    (t <- get_this ;;
     if vs_park opts then
       (* Park the directory *)
       execSync env (valet_park t) (stdio_of cfg) ;; ret tt
     else if vs_proxy opts then
       (* Use proxy *)
       execSync env (valet_proxy t) (stdio_of cfg) ;; ret tt
     else
       (* Link the site with Valet *)
       execSync env (valet_link t) (stdio_of cfg) ;;
       (* Secure with HTTPS if configured *)
       when (vs_secure opts)
         (execSync env (valet_secure t) (stdio_of cfg) ;; ret tt))
    (fun _ => ret tt).

(** Whether a command is answered in a world. *)
Definition answers (c : Cmd) (io : Stdio) (w : W) : bool :=
  match fst (env_exec env c io w) with
  | Some _ => true
  | None => false
  end.

Lemma exec_only c io s :
  let o := try_catch (execSync env c io ;; ret tt) (fun _ => ret tt) s in
  result o = Return tt /\ this (final o) = this s /\
  commands (emitted o) = [c].
Proof.
  cbv zeta. unfold try_catch, bind, execSync, call.
  destruct (env_exec env c io (world s)) as [[out|] w]; cbn; auto.
Qed.

(** X19. The Valet stage never throws, and HTTPS needs a link.  The
    stage returns normally whatever the commands answer and leaves the
    instance fields as they were.  It runs nothing when skipped or
    disabled; otherwise exactly one of park, proxy and link, in this
    order of precedence; and [valet secure] only in link mode, when
    configured, after a link that was answered: with park or proxy the
    secure option has no effect. *)
Theorem setupValet_never_throws cfg opts s :
  let o := setupValet cfg opts s in
  let t := this s in
  result o = Return tt /\
  this (final o) = t /\
  commands (emitted o) =
    if (vs_skipValetSetup opts || negb (vs_enabled opts))%bool then []
    else if vs_park opts then [valet_park t]
    else if vs_proxy opts then [valet_proxy t]
    else valet_link t ::
         (if (vs_secure opts && answers (valet_link t) (stdio_of cfg) (world s))%bool
          then [valet_secure t] else []).
Proof.
  intros o t. subst o t. unfold setupValet.
  destruct (vs_skipValetSetup opts); cbn [orb]; [cbn; auto|].
  destruct (vs_enabled opts); cbn [negb]; [|cbn; auto].
  assert (Hg : forall (m : This -> M W unit),
             try_catch (t <- get_this ;; m t) (fun _ => ret tt) s =
             try_catch (m (this s)) (fun _ => ret tt) s).
  { intros m. unfold try_catch. rewrite bind_get_this. reflexivity. }
  rewrite Hg. clear Hg.
  destruct (vs_park opts); [apply exec_only|].
  destruct (vs_proxy opts); [apply exec_only|].
  unfold answers, try_catch, bind, execSync, call, when.
  destruct (env_exec env (valet_link (this s)) (stdio_of cfg) (world s)) as [[out|] w];
    cbn [fst result final emitted this world app commands ret andb].
  - destruct (vs_secure opts); cbn [result final emitted this world app commands ret andb];
      [|auto].
    destruct (env_exec env (valet_secure (this s)) (stdio_of cfg) w) as [[out2|] w2];
      cbn; auto.
  - rewrite andb_false_r. auto.
Qed.

End Valet.

(* ================================================================== *)
(** ** The configuration file on disk                                  *)
(* ================================================================== *)

Section ConfigFile.

Variable W : Type.
Variable env : Env W.

(** The writes among the events: path, content, and whether it was done. *)
Fixpoint writes (l : list Event) : list (jsstring * jsstring * bool) :=
  match l with
  | [] => []
  | EvWriteFile p content ok :: rest => (p, content, ok) :: writes rest
  | _ :: rest => writes rest
  end.

Lemma writes_app l1 l2 : writes (l1 ++ l2) = writes l1 ++ writes l2.
Proof.
  induction l1 as [|e l1 IH]; simpl; [reflexivity|].
  destruct e; simpl; rewrite ?IH; reflexivity.
Qed.

Definition not_write (e : Event) : bool :=
  match e with
  | EvWriteFile _ _ _ => false
  | _ => true
  end.

Lemma not_write_writes l : forallb not_write l = true -> writes l = [].
Proof.
  induction l as [|e l IH]; [reflexivity|]. cbn [forallb]. intros H.
  apply andb_prop in H. destruct H as [He Hl].
  destruct e; try discriminate He; cbn; apply IH, Hl.
Qed.

(** A computation that returns from every state, writes nothing and
    leaves the instance fields as they were. *)
Definition quiet {A} (m : M W A) : Prop :=
  forall s, (exists a, result (m s) = Return a) /\
            forallb not_write (emitted (m s)) = true /\
            this (final (m s)) = this s.

Lemma quiet_ret {A} (a : A) : quiet (ret a).
Proof. intros s. cbn. eauto. Qed.

Lemma quiet_bind {A B} (m : M W A) (k : A -> M W B) :
  quiet m -> (forall a, quiet (k a)) -> quiet (bind m k).
Proof.
  intros Hm Hk s. destruct (Hm s) as ((a & Ha) & Hma & Hmt).
  rewrite (bind_return _ _ s Ha). cbn [result final emitted].
  destruct (Hk a (final (m s))) as (Hr & Hka & Hkt).
  repeat split; [exact Hr | rewrite forallb_app, Hma, Hka; reflexivity | congruence].
Qed.

Lemma quiet_random_index n : quiet (random_index env n).
Proof.
  intros s. unfold random_index, call.
  destruct (env_random env n (world s)) as [i w]. cbn. eauto.
Qed.

Lemma quiet_random_string chars n : forall acc, quiet (random_string env chars n acc).
Proof.
  induction n as [|n IH]; intros acc; cbn [random_string].
  - apply quiet_ret.
  - apply quiet_bind; [apply quiet_random_index | intros i; apply IH].
Qed.

Lemma quiet_salt_lines heads : forall acc, quiet (salt_lines env heads acc).
Proof.
  induction heads as [|h heads IH]; intros acc; cbn [salt_lines].
  - apply quiet_ret.
  - apply quiet_bind; [apply quiet_random_string | intros k; apply IH].
Qed.

Lemma quiet_generateSalts : quiet (generateSalts env).
Proof.
  intros s. unfold generateSalts, try_catch, axios_get, call.
  destruct (env_get env _ (world s)) as [[data|] w]; cbn [result final emitted].
  - cbn. eauto.
  - destruct (quiet_salt_lines salt_heads []
                {| this := this s; world := w |}) as (Hr & He & Ht).
    cbn [app forallb not_write andb]. repeat split; assumption.
Qed.

(** The path of the configuration file. *)
Definition wpConfigPath (t : This) : jsstring :=
  env_join env (websitePath t) (lit "wp-config.php").

(** X20. The configuration file is written once.  When
    [updateWpConfig] returns, the one write it made is that of the
    patched text of what it read from the same path.  When it throws,
    the error is one of the file system (the copy of the sample, the
    read or the write), and no write was done: a failure before the
    write leaves the file as it was.  The generation of the salts never
    makes the stage fail.  The instance fields are left as they were. *)
Theorem updateWpConfig_writes_once cfg s :
  let o := updateWpConfig env cfg s in
  let t := this s in
  this (final o) = t /\
  match result o with
  | Return _ =>
      exists text salts,
        In (EvReadFile (wpConfigPath t) (Some text)) (emitted o) /\
        writes (emitted o) =
          [(wpConfigPath t, Patcher.updateWpConfig_text cfg t salts text, true)]
  | Throw e =>
      (exists p, e = ErrFs p) /\
      (writes (emitted o) = [] \/
       exists content, writes (emitted o) = [(wpConfigPath t, content, false)])
  end.
Proof.
  intros o t. subst o t. unfold updateWpConfig. rewrite bind_get_this.
  fold (wpConfigPath (this s)).
  set (p := wpConfigPath (this s)).
  set (sample := env_join env (websitePath (this s)) (lit "wp-config-sample.php")).
  (* does the file exist *)
  assert (H0 : exists b w,
             pathExists env p s =
             {| result := Return b; final := {| this := this s; world := w |};
                emitted := [EvPathExists p b] |}).
  { unfold pathExists, call. destruct (env_pathExists env p (world s)) as [b w]. eauto. }
  destruct H0 as (b & w0 & H0).
  rewrite (bind_return _ _ s (a := b)) by (rewrite H0; reflexivity).
  rewrite H0. cbn [result final emitted].
  set (s0 := {| this := this s; world := w0 |}).
  (* the copy of the sample *)
  assert (H1 : exists (ok : bool) w l,
             when (negb b) (fs_copy env sample p) s0 =
             {| result := if ok then Return tt else Throw (ErrFs sample);
                final := {| this := this s; world := w |};
                emitted := l |} /\ writes l = []).
  { destruct b; cbn [negb when].
    - exists true, w0, ([] : list Event). cbn. auto.
    - unfold fs_copy, call. destruct (env_copy env sample p (world s0)) as [ok w].
      exists ok, w, [EvCopy sample p ok]. cbn. auto. }
  destruct H1 as (ok & w1 & l1 & H1 & Hl1).
  destruct ok.
  2:{ rewrite (bind_throw _ _ s0 (e := ErrFs sample)) by (rewrite H1; reflexivity).
      rewrite H1. cbn [result final emitted this app writes]. rewrite Hl1.
      repeat split; eauto. }
  rewrite (bind_return _ _ s0 (a := tt)) by (rewrite H1; reflexivity).
  rewrite H1. cbn [result final emitted].
  set (s1 := {| this := this s; world := w1 |}).
  (* the text *)
  assert (H2 : exists r w,
             readFile env p s1 =
             {| result := match r with
                          | Some text => Return text
                          | None => Throw (ErrFs p)
                          end;
                final := {| this := this s; world := w |};
                emitted := [EvReadFile p r] |}).
  { unfold readFile, call. destruct (env_readFile env p (world s1)) as [r w]. eauto. }
  destruct H2 as (r & w2 & H2).
  destruct r as [text|].
  2:{ rewrite (bind_throw _ _ s1 (e := ErrFs p)) by (rewrite H2; reflexivity).
      rewrite H2. cbn [result final emitted this app writes].
      rewrite writes_app, Hl1. cbn. repeat split; eauto. }
  rewrite (bind_return _ _ s1 (a := text)) by (rewrite H2; reflexivity).
  rewrite H2. cbn [result final emitted].
  set (s2 := {| this := this s; world := w2 |}).
  (* the salts *)
  destruct (quiet_generateSalts s2) as ((salts & Hs) & Hsw & Hst).
  rewrite (bind_return _ _ s2 Hs). cbn [result final emitted].
  set (s3 := final (generateSalts env s2)) in *.
  apply not_write_writes in Hsw.
  (* the write *)
  unfold writeFile, call.
  destruct (env_writeFile env p (Patcher.updateWpConfig_text cfg (this s) salts text)
              (world s3)) as [done_ w4].
  cbn [result final emitted this].
  rewrite !writes_app, Hl1, Hsw. cbn [app writes].
  split; [exact Hst|].
  destruct done_.
  - exists text, salts. split; [|reflexivity].
    cbn [app]. right. apply in_or_app. right. left. reflexivity.
  - split; eauto.
Qed.

End ConfigFile.

(* ================================================================== *)
(** ** The permissions of the uploads                                  *)
(* ================================================================== *)

(** An entry below the uploads folder, by its relative path with [/]
    between the names. *)
Record Entry := {
  entry_path : jsstring;
  entry_isDirectory : bool
}.

Section Uploads.

(** [path.join] *)
Variable path_join : jsstring -> jsstring -> jsstring.

(** A name on the path of the entry starts with a dot. *)
Definition dotted (e : Entry) : bool :=
  existsb (startsWith (lit ".")) (split_on 47 (entry_path e)).

(** The listing that [glob] answers for the pattern of [copyUploads]
    below [cwd].  The option [dot] is not given, and without it neither
    star matches a name that starts with a dot: an entry with such a
    name on its path is not listed.  With [nodir] the directories are
    left out, without it files and directories are both returned. *)
Definition glob_all (tree : list Entry) (nodir : bool) : list jsstring :=
  map entry_path
      (filter (fun e => negb (dotted e) && negb (nodir && entry_isDirectory e)) tree).

(** The calls to [fs.chmod] of [copyUploads], in order, when none of
    them throws: the loop over [files], then the loop over [dirs]. *)
Definition chmod_calls (uploadsTarget : jsstring) (tree : list Entry)
           (permissions_files permissions_directories : N) : list (jsstring * N) :=
  let files := glob_all tree true in
  let dirs := glob_all tree false in
  map (fun file => (path_join uploadsTarget file, permissions_files)) files ++
  map (fun dir => (path_join uploadsTarget dir, permissions_directories)) dirs.

(** The mode a path is left with: the one of the last call on it, or
    the mode it had. *)
Fixpoint mode_after (calls : list (jsstring * N)) (p : jsstring) (mode : option N)
  : option N :=
  match calls with
  | [] => mode
  | (q, m) :: rest => mode_after rest p (if str_eqb q p then Some m else mode)
  end.

Lemma mode_after_app l1 : forall l2 p mode,
  mode_after (l1 ++ l2) p mode = mode_after l2 p (mode_after l1 p mode).
Proof.
  induction l1 as [|[q m] l1 IH]; intros l2 p mode; [reflexivity|].
  cbn [app mode_after]. apply IH.
Qed.

Lemma mode_after_same (f : jsstring -> jsstring) m l : forall p mode,
  (mode = Some m \/ In p (map f l)) ->
  mode_after (map (fun x => (f x, m)) l) p mode = Some m.
Proof.
  induction l as [|x l IH]; intros p mode H; cbn [map mode_after].
  - destruct H as [H|[]]. exact H.
  - apply IH. destruct (str_eqb (f x) p) eqn:E; [left; reflexivity|].
    destruct H as [H|[H|H]]; [left; exact H | | right; exact H].
    apply str_eqb_eq in H. congruence.
Qed.

(** A path that no call names keeps its mode. *)
Lemma mode_after_other (f : jsstring -> jsstring) m l : forall p mode,
  ~ In p (map f l) ->
  mode_after (map (fun x => (f x, m)) l) p mode = mode.
Proof.
  induction l as [|x l IH]; intros p mode H; cbn [map mode_after]; [reflexivity|].
  destruct (str_eqb (f x) p) eqn:E.
  - exfalso. apply H. left. apply str_eqb_eq, E.
  - apply IH. intros Hin. apply H. right. exact Hin.
Qed.

(** Entries with one path are one entry, when no path is there twice. *)
Lemma one_path_one_entry (f : Entry -> jsstring) tree : forall x y,
  NoDup (map f tree) -> In x tree -> In y tree -> f x = f y -> x = y.
Proof.
  induction tree as [|z tree IH]; intros x y Hn Hx Hy Hf; [destruct Hx|].
  cbn [map] in Hn. inversion Hn as [|? ? Hz Hrest]; subst.
  destruct Hx as [->|Hx], Hy as [->|Hy].
  - reflexivity.
  - exfalso. apply Hz. rewrite Hf. apply in_map, Hy.
  - exfalso. apply Hz. rewrite <- Hf. apply in_map, Hx.
  - apply IH; assumption.
Qed.

(** An entry that is not listed is named by no call. *)
Lemma dotted_not_listed tree uploadsTarget nodir e :
  NoDup (map (fun x => path_join uploadsTarget (entry_path x)) tree) ->
  In e tree -> dotted e = true ->
  ~ In (path_join uploadsTarget (entry_path e))
       (map (path_join uploadsTarget) (glob_all tree nodir)).
Proof.
  intros Hn He Hd Hin. unfold glob_all in Hin. rewrite map_map in Hin.
  apply in_map_iff in Hin. destruct Hin as (x & Hx & Hf).
  apply filter_In in Hf. destruct Hf as [Hxin Hc].
  assert (x = e)
    by (apply (one_path_one_entry
                 (fun x => path_join uploadsTarget (entry_path x)) tree); assumption).
  subst x. rewrite Hd in Hc. discriminate Hc.
Qed.

(** X21. Files end up with the mode of directories, and names with a
    dot are passed over.  The second listing of [copyUploads] is made
    without [nodir], so it holds the files as well as the directories;
    both listings leave out every entry with a name on its path that
    starts with a dot.  When no call throws, an entry below the uploads
    folder, file or directory, is left with the mode configured for
    directories, unless it has such a name on its path: then no call
    names it and it keeps the mode it had. *)
Theorem copyUploads_modes tree uploadsTarget files_mode directories_mode e mode :
  NoDup (map (fun x => path_join uploadsTarget (entry_path x)) tree) ->
  In e tree ->
  mode_after (chmod_calls uploadsTarget tree files_mode directories_mode)
             (path_join uploadsTarget (entry_path e)) mode
  = if dotted e then mode else Some directories_mode.
Proof.
  intros Hn He. unfold chmod_calls. cbv zeta. rewrite mode_after_app.
  destruct (dotted e) eqn:Hd.
  - rewrite (mode_after_other (path_join uploadsTarget))
      by (apply dotted_not_listed; assumption).
    apply (mode_after_other (path_join uploadsTarget)).
    apply dotted_not_listed; assumption.
  - apply (mode_after_same (path_join uploadsTarget)). right.
    apply in_map. unfold glob_all. apply in_map. apply filter_In. split; [exact He|].
    rewrite Hd. reflexivity.
Qed.

End Uploads.

(* ================================================================== *)
(** ** Plugins and themes                                              *)
(* ================================================================== *)

(** An entry of [plugins.github] or [themes.github]. *)
Record GithubItem := {
  gh_repo : jsstring;
  gh_branch : option jsstring;
  gh_activate : bool
}.

(** [config.plugins] with [advanced.skipPluginInstallation]; a list that
    is missing reads as the empty list, which the guards of the stage
    treat alike. *)
Record PluginsCfg := {
  pl_skipPluginInstallation : bool;
  pl_wordpressOrg : list jsstring;
  pl_local : list jsstring;
  pl_github : list GithubItem;
  pl_zip : list jsstring;
  pl_removeDefault : list jsstring;
  pl_activateAll : bool;
  pl_updateAfterInstall : bool
}.

(** [config.themes] with [advanced.skipThemeInstallation]. *)
Record ThemesCfg := {
  th_skipThemeInstallation : bool;
  th_wordpressOrg : list jsstring;
  th_local : list jsstring;
  th_github : list GithubItem;
  th_zip : list jsstring;
  th_removeDefault : list jsstring;
  th_activate : option jsstring;
  th_updateAfterInstall : bool
}.

Section Extensions.

Variable W : Type.
Variable env : Env W.

(** [path.basename] *)
Variable basename : jsstring -> jsstring.

(** [ --path="${this.websitePath}"] *)
Definition at_path (t : This) : jsstring :=
  lit " --path=" ++ dq ++ websitePath t ++ dq.

(** [path.join(this.websitePath, 'wp-content', kind, name)] *)
Definition content_path (t : This) (kind name : jsstring) : jsstring :=
  env_join env (env_join env (env_join env (websitePath t) (lit "wp-content")) kind) name.

Definition archive_url (item : GithubItem) : jsstring :=
  lit "https://github.com/" ++ gh_repo item ++ lit "/archive/" ++
  or_else (gh_branch item) (lit "main") ++ lit ".zip".

Definition installPlugins (cfg : Config) (plugins : PluginsCfg) : M W unit :=
  if pl_skipPluginInstallation plugins then ret tt else
  t <- get_this ;;
  let io := stdio_of cfg in
  (* Install WordPress.org plugins *)
  for_of (pl_wordpressOrg plugins) (fun plugin =>
    let activateFlag := flag (pl_activateAll plugins) (lit "--activate") in
    execSync env (CmdText (lit "wp plugin install " ++ plugin ++ at_path t ++
                           lit " " ++ activateFlag)) io ;;
    ret tt) ;;
  (* Install local plugins *)
  for_of (pl_local plugins) (fun pluginPath =>
    let resolvedPath := env_resolve env pluginPath in
    present <- pathExists env resolvedPath ;;
    when present
      (let pluginName := basename resolvedPath in
       fs_copy env resolvedPath (content_path t (lit "plugins") pluginName) ;;
       when (pl_activateAll plugins)
         (execSync env (CmdText (lit "wp plugin activate " ++ pluginName ++ at_path t)) io ;;
          ret tt))) ;;
  (* Install GitHub plugins *)
  for_of (pl_github plugins) (fun plugin =>
    execSync env (CmdText (lit "wp plugin install " ++ archive_url plugin ++ at_path t ++
                           lit " " ++ flag (gh_activate plugin) (lit "--activate"))) io ;;
    ret tt) ;;
  (* Install ZIP plugins *)
  for_of (pl_zip plugins) (fun zipPath =>
    let resolvedPath := env_resolve env zipPath in
    present <- pathExists env resolvedPath ;;
    when present
      (execSync env (CmdText (lit "wp plugin install " ++ dq ++ resolvedPath ++ dq ++
                              at_path t ++ lit " " ++
                              flag (pl_activateAll plugins) (lit "--activate"))) io ;;
       ret tt)) ;;
  (* Remove default plugins *)
  for_of (pl_removeDefault plugins) (fun plugin =>
    try_catch
      (execSync env (CmdText (lit "wp plugin delete " ++ plugin ++ at_path t)) Pipe ;;
       ret tt)
      (fun _ => ret tt)) ;;
  (* Update plugins if configured *)
  when (pl_updateAfterInstall plugins)
    (execSync env (CmdText (lit "wp plugin update --all" ++ at_path t)) io ;; ret tt).

Definition installThemes (cfg : Config) (themes : ThemesCfg) : M W unit :=
  if th_skipThemeInstallation themes then ret tt else
  t <- get_this ;;
  let io := stdio_of cfg in
  (* Install WordPress.org themes *)
  for_of (th_wordpressOrg themes) (fun theme =>
    execSync env (CmdText (lit "wp theme install " ++ theme ++ at_path t)) io ;;
    ret tt) ;;
  (* Install local themes *)
  for_of (th_local themes) (fun themePath =>
    let resolvedPath := env_resolve env themePath in
    present <- pathExists env resolvedPath ;;
    when present
      (let themeName := basename resolvedPath in
       fs_copy env resolvedPath (content_path t (lit "themes") themeName))) ;;
  (* Install GitHub themes *)
  for_of (th_github themes) (fun theme =>
    execSync env (CmdText (lit "wp theme install " ++ archive_url theme ++ at_path t)) io ;;
    ret tt) ;;
  (* Install ZIP themes *)
  for_of (th_zip themes) (fun zipPath =>
    let resolvedPath := env_resolve env zipPath in
    present <- pathExists env resolvedPath ;;
    when present
      (execSync env (CmdText (lit "wp theme install " ++ dq ++ resolvedPath ++ dq ++
                              at_path t)) io ;;
       ret tt)) ;;
  (* Remove default themes *)
  for_of (th_removeDefault themes) (fun theme =>
    try_catch
      (execSync env (CmdText (lit "wp theme delete " ++ theme ++ at_path t)) Pipe ;;
       ret tt)
      (fun _ => ret tt)) ;;
  (* Activate specified theme *)
  match th_activate themes with
  | Some name =>
      when (truthy name)
        (execSync env (CmdText (lit "wp theme activate " ++ name ++ at_path t)) io ;;
         ret tt)
  | None => ret tt
  end ;;
  (* Update themes if configured *)
  when (th_updateAfterInstall themes)
    (execSync env (CmdText (lit "wp theme update --all" ++ at_path t)) io ;; ret tt).

(** *** What can make a stage throw *)

Definition throws_only {A} (P : Error -> Prop) (m : M W A) : Prop :=
  forall s e, result (m s) = Throw e -> P e.

Lemma throws_only_ret {A} P (a : A) : throws_only P (ret a).
Proof. intros s e H. discriminate H. Qed.

Lemma throws_only_bind {A B} P (m : M W A) (k : A -> M W B) :
  throws_only P m -> (forall a, throws_only P (k a)) -> throws_only P (bind m k).
Proof.
  intros Hm Hk s e. unfold bind.
  destruct (result (m s)) as [a|e'] eqn:E; cbn [result].
  - apply Hk.
  - intros [= <-]. apply (Hm s), E.
Qed.

Lemma throws_only_when P c (m : M W unit) : throws_only P m -> throws_only P (when c m).
Proof. intros Hm. destruct c; [exact Hm | apply throws_only_ret]. Qed.

Lemma throws_only_for_of {A} P (l : list A) (body : A -> M W unit) :
  (forall x, throws_only P (body x)) -> throws_only P (for_of l body).
Proof.
  intros Hb. induction l as [|x l IH]; [apply throws_only_ret|].
  cbn [for_of]. apply throws_only_bind; [apply Hb | intros _; exact IH].
Qed.

Lemma throws_only_caught P (m : M W unit) :
  throws_only P (try_catch m (fun _ => ret tt)).
Proof.
  intros s e. unfold try_catch. destruct (result (m s)) as [a|e'] eqn:E.
  - rewrite E. discriminate.
  - cbn. discriminate.
Qed.

Lemma throws_only_get_this P : throws_only P (@get_this W).
Proof. intros s e H. discriminate H. Qed.

Lemma throws_only_execSync (P : Error -> Prop) c io :
  P (ErrExec c) -> throws_only P (execSync env c io).
Proof.
  intros H s e. unfold execSync, call.
  destruct (env_exec env c io (world s)) as [[out|] w]; cbn; [discriminate|].
  intros [= <-]. exact H.
Qed.

Lemma throws_only_pathExists P p : throws_only P (pathExists env p).
Proof.
  intros s e. unfold pathExists, call.
  destruct (env_pathExists env p (world s)) as [b w]. discriminate.
Qed.

Lemma throws_only_fs_copy (P : Error -> Prop) src dst :
  P (ErrFs src) -> throws_only P (fs_copy env src dst).
Proof.
  intros H s e. unfold fs_copy, call.
  destruct (env_copy env src dst (world s)) as [[|] w]; cbn; [discriminate|].
  intros [= <-]. exact H.
Qed.

(** The command removes a default plugin, or a default theme. *)
Definition is_delete (c : Cmd) : bool :=
  match c with
  | CmdText text =>
      startsWith (lit "wp plugin delete ") text || startsWith (lit "wp theme delete ") text
  | _ => false
  end.

(** The errors that end an installation: a command that is not a
    removal, or a copy. *)
Definition fatal (e : Error) : Prop :=
  match e with
  | ErrExec c => is_delete c = false
  | ErrFs _ => True
  | _ => False
  end.

Ltac fatal_tac :=
  repeat first
    [ apply throws_only_ret
    | apply throws_only_caught
    | apply throws_only_get_this
    | apply throws_only_pathExists
    | apply throws_only_fs_copy; exact I
    | apply throws_only_execSync; reflexivity
    | apply throws_only_when
    | apply throws_only_for_of; intro
    | apply throws_only_bind; [|intro] ].

Lemma installPlugins_throws_fatal cfg plugins :
  throws_only fatal (installPlugins cfg plugins).
Proof.
  unfold installPlugins.
  destruct (pl_skipPluginInstallation plugins); [apply throws_only_ret|].
  cbv zeta. fatal_tac.
Qed.

Lemma installThemes_throws_fatal cfg themes :
  throws_only fatal (installThemes cfg themes).
Proof.
  unfold installThemes.
  destruct (th_skipThemeInstallation themes); [apply throws_only_ret|].
  cbv zeta. fatal_tac.
  destruct (th_activate themes); fatal_tac.
Qed.

(** *** What cannot make a stage throw *)

(** Every command that is not a removal runs to completion. *)
Definition commands_work : Prop :=
  forall c io w, is_delete c = false -> fst (env_exec env c io w) <> None.

(** A copy succeeds when its source has just been found. *)
Definition found_is_copied : Prop :=
  forall src dst w,
    fst (env_pathExists env src w) = true ->
    fst (env_copy env src dst (snd (env_pathExists env src w))) = true.

Section TheRestWorks.

Hypothesis Hcommands : commands_work.
Hypothesis Hcopies : found_is_copied.

Lemma run_never_throws c io :
  is_delete c = false -> never_throws (execSync env c io ;; ret tt).
Proof.
  intros Hc s. unfold bind, execSync, call.
  pose proof (Hcommands c io (world s) Hc) as H.
  destruct (env_exec env c io (world s)) as [[out|] w]; [reflexivity|].
  exfalso. apply H. reflexivity.
Qed.

(** The guard of a local folder or an archive: what is not found is
    passed over. *)
Lemma guarded_never_throws p (m : M W unit) :
  never_throws m ->
  never_throws (present <- pathExists env p ;; when present m).
Proof.
  intros Hm s. unfold bind, pathExists, call.
  destruct (env_pathExists env p (world s)) as [[|] w]; cbn [result final when].
  - apply Hm.
  - reflexivity.
Qed.

Lemma guarded_copy_never_throws src dst :
  never_throws (present <- pathExists env src ;; when present (fs_copy env src dst)).
Proof.
  intros s. unfold bind, pathExists, fs_copy, call.
  pose proof (Hcopies src dst (world s)) as H.
  destruct (env_pathExists env src (world s)) as [[|] w];
    cbn [result final when world fst snd] in *; [|reflexivity].
  destruct (env_copy env src dst w) as [[|] w']; [reflexivity|].
  discriminate (H eq_refl).
Qed.

Lemma guarded_copy_then_never_throws src dst (k : M W unit) :
  never_throws k ->
  never_throws (present <- pathExists env src ;;
                when present (fs_copy env src dst ;; k)).
Proof.
  intros Hk s. unfold bind, pathExists, fs_copy, call.
  pose proof (Hcopies src dst (world s)) as H.
  destruct (env_pathExists env src (world s)) as [[|] w];
    cbn [result final when world fst snd] in *; [|reflexivity].
  destruct (env_copy env src dst w) as [[|] w']; cbn [result final].
  - apply Hk.
  - discriminate (H eq_refl).
Qed.

Lemma removal_never_throws c :
  never_throws (try_catch (execSync env c Pipe ;; ret tt) (fun _ => ret tt)).
Proof. apply try_catch_never_throws. intros e s. reflexivity. Qed.

Ltac works_tac :=
  repeat first
    [ apply removal_never_throws
    | apply run_never_throws; reflexivity
    | apply guarded_copy_never_throws
    | apply guarded_copy_then_never_throws
    | apply guarded_never_throws
    | apply when_never_throws
    | apply for_of_never_throws; intro
    | apply bind_never_throws ].

Lemma installPlugins_returns cfg plugins : never_throws (installPlugins cfg plugins).
Proof.
  unfold installPlugins.
  destruct (pl_skipPluginInstallation plugins); [intros s; reflexivity|].
  intros s. rewrite bind_get_this. set (t := this s). clearbody t. revert s.
  cbv zeta.
  match goal with |- forall s, result (?m s) = _ => change (never_throws m) end.
  works_tac.
Qed.

Lemma installThemes_returns cfg themes : never_throws (installThemes cfg themes).
Proof.
  unfold installThemes.
  destruct (th_skipThemeInstallation themes); [intros s; reflexivity|].
  intros s. rewrite bind_get_this. set (t := this s). clearbody t. revert s.
  cbv zeta.
  match goal with |- forall s, result (?m s) = _ => change (never_throws m) end.
  works_tac.
  destruct (th_activate themes); [works_tac | intros s; reflexivity].
Qed.

End TheRestWorks.

(** *** What follows a path that was not found *)

Definition not_found (e : Event) : bool :=
  match e with
  | EvPathExists _ false => true
  | _ => false
  end.

(** A command that installs an archive, named by its path between
    double quotes. *)
Definition installs_archive (c : Cmd) : bool :=
  match c with
  | CmdText text =>
      startsWith (lit "wp plugin install " ++ dq) text ||
      startsWith (lit "wp theme install " ++ dq) text
  | _ => false
  end.

(** An event that copies a folder or installs an archive. *)
Definition uses_local (e : Event) : bool :=
  match e with
  | EvCopy _ _ _ => true
  | EvExec c _ _ => installs_archive c
  | _ => false
  end.

(** No copy and no installation of an archive comes directly after a
    path that was not found. *)
Fixpoint passes_over (l : list Event) : bool :=
  match l with
  | [] => true
  | e1 :: rest =>
      match rest with
      | e2 :: _ => negb (not_found e1 && uses_local e2)
      | [] => true
      end && passes_over rest
  end.

(** The same read from the left: [missing] tells whether the event
    before was a path that was not found. *)
Fixpoint scan (missing : bool) (l : list Event) : option bool :=
  match l with
  | [] => Some missing
  | e :: rest => if missing && uses_local e then None else scan (not_found e) rest
  end.

Lemma scan_passes_over l : forall b, scan b l <> None -> passes_over l = true.
Proof.
  induction l as [|e l IH]; intros b H; [reflexivity|].
  cbn [scan] in H. destruct (b && uses_local e); [congruence|].
  cbn [passes_over]. rewrite (IH _ H).
  destruct l as [|e2 l]; [reflexivity|].
  cbn [scan] in H. destruct (not_found e && uses_local e2); [congruence|reflexivity].
Qed.

Lemma scan_app l1 : forall b l2,
  scan b (l1 ++ l2) =
  match scan b l1 with
  | Some b' => scan b' l2
  | None => None
  end.
Proof.
  induction l1 as [|e l1 IH]; intros b l2; [reflexivity|].
  cbn [app scan]. destruct (b && uses_local e); [reflexivity | apply IH].
Qed.

(** A computation that may follow anything; one that may follow
    anything but a path not found; one that moreover ends on something
    else than a path not found. *)
Definition safe {A} (m : M W A) : Prop :=
  forall s b, scan b (emitted (m s)) <> None.

Definition settled_safe {A} (m : M W A) : Prop :=
  forall s, scan false (emitted (m s)) <> None.

Definition settled {A} (m : M W A) : Prop :=
  forall s, scan false (emitted (m s)) = Some false.

Lemma safe_ret {A} (a : A) : safe (@ret W A a).
Proof. intros s b. discriminate. Qed.

Lemma safe_bind {A B} (m : M W A) (k : A -> M W B) :
  safe m -> (forall a, safe (k a)) -> safe (bind m k).
Proof.
  intros Hm Hk s b. unfold bind. pose proof (Hm s b) as H1.
  destruct (result (m s)) as [a|e]; cbn [emitted]; [|exact H1].
  rewrite scan_app. destruct (scan b (emitted (m s))) as [b'|]; [apply Hk | exact H1].
Qed.

Lemma safe_when c (m : M W unit) : safe m -> safe (when c m).
Proof. intros Hm. destruct c; [exact Hm | apply safe_ret]. Qed.

Lemma safe_for_of {A} (l : list A) (body : A -> M W unit) :
  (forall x, safe (body x)) -> safe (for_of l body).
Proof.
  intros Hb. induction l as [|x l IH]; [apply safe_ret|].
  cbn [for_of]. apply safe_bind; [apply Hb | intros _; exact IH].
Qed.

Lemma safe_caught (m : M W unit) :
  safe m -> safe (try_catch m (fun _ => ret tt)).
Proof.
  intros Hm s b. unfold try_catch. pose proof (Hm s b) as H.
  destruct (result (m s)) as [a|e]; [exact H|].
  cbn [emitted ret]. rewrite app_nil_r. exact H.
Qed.

Lemma safe_execSync c io : installs_archive c = false -> safe (execSync env c io).
Proof.
  intros Hc s b. unfold execSync, call.
  destruct (env_exec env c io (world s)) as [r w]. cbn [emitted scan uses_local].
  rewrite Hc, andb_false_r. discriminate.
Qed.

Lemma settled_ret {A} (a : A) : settled (@ret W A a).
Proof. intros s. reflexivity. Qed.

Lemma settled_bind {A B} (m : M W A) (k : A -> M W B) :
  settled m -> (forall a, settled (k a)) -> settled (bind m k).
Proof.
  intros Hm Hk s. unfold bind. pose proof (Hm s) as H1.
  destruct (result (m s)) as [a|e]; cbn [emitted]; [|exact H1].
  rewrite scan_app, H1. apply Hk.
Qed.

Lemma settled_for_of {A} (l : list A) (body : A -> M W unit) :
  (forall x, settled (body x)) -> settled (for_of l body).
Proof.
  intros Hb. induction l as [|x l IH]; [apply settled_ret|].
  cbn [for_of]. apply settled_bind; [apply Hb | intros _; exact IH].
Qed.

Lemma settled_execSync c io : settled (execSync env c io).
Proof.
  intros s. unfold execSync, call.
  destruct (env_exec env c io (world s)) as [r w]. reflexivity.
Qed.

Lemma settled_fs_copy src dst : settled (fs_copy env src dst).
Proof.
  intros s. unfold fs_copy, call.
  destruct (env_copy env src dst (world s)) as [ok w]. reflexivity.
Qed.

Lemma settled_is_settled_safe {A} (m : M W A) : settled m -> settled_safe m.
Proof. intros Hm s. rewrite (Hm s). discriminate. Qed.

Lemma settled_then_safe {A B} (m : M W A) (k : A -> M W B) :
  settled m -> (forall a, safe (k a)) -> settled_safe (bind m k).
Proof.
  intros Hm Hk s. unfold bind. pose proof (Hm s) as H1.
  destruct (result (m s)) as [a|e]; cbn [emitted].
  - rewrite scan_app, H1. apply Hk.
  - rewrite H1. discriminate.
Qed.

(** What is guarded by its path may follow anything. *)
Lemma safe_guarded p (m : M W unit) :
  settled_safe m -> safe (present <- pathExists env p ;; when present m).
Proof.
  intros Hm s b. unfold bind, pathExists, call.
  destruct (env_pathExists env p (world s)) as [[|] w];
    cbn [result final emitted when app scan uses_local not_found];
    rewrite andb_false_r.
  - apply Hm.
  - discriminate.
Qed.

Ltac safe_tac :=
  repeat first
    [ apply safe_ret
    | apply safe_caught
    | apply safe_execSync; reflexivity
    | apply safe_guarded
    | apply safe_when
    | apply safe_for_of; intro
    | apply safe_bind; [|intro] ].

Ltac settled_tac :=
  repeat first
    [ apply settled_ret
    | apply settled_execSync
    | apply settled_fs_copy
    | apply settled_for_of; intro
    | apply settled_bind; [|intro] ].

Lemma installPlugins_passes_over cfg plugins s :
  passes_over (emitted (installPlugins cfg plugins s)) = true.
Proof.
  apply (@scan_passes_over _ false). revert s.
  change (settled_safe (installPlugins cfg plugins)).
  unfold installPlugins.
  destruct (pl_skipPluginInstallation plugins); [apply settled_is_settled_safe, settled_ret|].
  intros s. rewrite bind_get_this. set (t := this s). clearbody t. revert s.
  cbv zeta.
  match goal with |- forall s, scan false (emitted (?m s)) <> None =>
    change (settled_safe m) end.
  apply settled_then_safe; [settled_tac|]. intros _.
  apply safe_bind.
  { apply safe_for_of. intros pluginPath. apply safe_guarded.
    apply settled_then_safe; [settled_tac | intros _; safe_tac]. }
  intros _. apply safe_bind; [safe_tac|]. intros _.
  apply safe_bind.
  { apply safe_for_of. intros zipPath. apply safe_guarded.
    apply settled_is_settled_safe. settled_tac. }
  intros _. safe_tac.
Qed.

Lemma installThemes_passes_over cfg themes s :
  passes_over (emitted (installThemes cfg themes s)) = true.
Proof.
  apply (@scan_passes_over _ false). revert s.
  change (settled_safe (installThemes cfg themes)).
  unfold installThemes.
  destruct (th_skipThemeInstallation themes); [apply settled_is_settled_safe, settled_ret|].
  intros s. rewrite bind_get_this. set (t := this s). clearbody t. revert s.
  cbv zeta.
  match goal with |- forall s, scan false (emitted (?m s)) <> None =>
    change (settled_safe m) end.
  apply settled_then_safe; [settled_tac|]. intros _.
  apply safe_bind.
  { apply safe_for_of. intros themePath. apply safe_guarded.
    apply settled_is_settled_safe. settled_tac. }
  intros _. apply safe_bind; [safe_tac|]. intros _.
  apply safe_bind.
  { apply safe_for_of. intros zipPath. apply safe_guarded.
    apply settled_is_settled_safe. settled_tac. }
  intros _. apply safe_bind; [safe_tac|]. intros _.
  apply safe_bind; [|intros _; safe_tac].
  destruct (th_activate themes); safe_tac.
Qed.

(** X22. What ends the installation of plugins, and what does not.
    When [installPlugins] throws, the error is that of a copy or of a
    command that is not a removal.  A path that is not found is passed
    over: directly after it the stage neither copies a folder nor
    installs an archive.  And when every command that is not a removal
    runs to completion and every copy of a source that has just been
    found succeeds, the stage returns normally, whatever the removals
    do and whichever local folders and archives are missing.  So a
    default plugin that cannot be deleted, and a local folder or an
    archive that does not exist, do not make the stage fail. *)
Theorem installPlugins_fatal_errors cfg plugins s :
  let o := installPlugins cfg plugins s in
  (forall e, result o = Throw e -> fatal e) /\
  passes_over (emitted o) = true /\
  (commands_work -> found_is_copied -> result o = Return tt).
Proof.
  split; [|split].
  - intros e. apply installPlugins_throws_fatal.
  - apply installPlugins_passes_over.
  - intros Hc Hf. apply installPlugins_returns; assumption.
Qed.

(** X23. What ends the installation of themes, and what does not.
    When [installThemes] throws, the error is that of a copy or of a
    command that is not a removal.  A path that is not found is passed
    over: directly after it the stage neither copies a folder nor
    installs an archive.  And when every command that is not a removal
    runs to completion and every copy of a source that has just been
    found succeeds, the stage returns normally, whatever the removals
    do and whichever local folders and archives are missing.  So a
    default theme that cannot be deleted, and a local folder or an
    archive that does not exist, do not make the stage fail. *)
Theorem installThemes_fatal_errors cfg themes s :
  let o := installThemes cfg themes s in
  (forall e, result o = Throw e -> fatal e) /\
  passes_over (emitted o) = true /\
  (commands_work -> found_is_copied -> result o = Return tt).
Proof.
  split; [|split].
  - intros e. apply installThemes_throws_fatal.
  - apply installThemes_passes_over.
  - intros Hc Hf. apply installThemes_returns; assumption.
Qed.

End Extensions.

(* ================================================================== *)
(** ** The fresh installation                                          *)
(* ================================================================== *)

(** [installWordPress], the stage [run] takes when no SQL dump is
    configured.  The spinner is left out; its [catch] rethrows the
    error it caught. *)

(** The fields of [config.wordpress] that [installWordPress] reads
    besides the admin user. *)
Record InstallCfg := {
  in_siteTitle : jsstring;
  in_usePermalinks : bool;
  in_permalinkStructure : jsstring;
  in_disableComments : bool;
  in_disableTrackbacks : bool;
  in_disablePingbacks : bool;
  in_timezone : option jsstring;
  in_dateFormat : option jsstring;
  in_timeFormat : option jsstring;
  in_startOfWeek : option N;
  in_privacy : option jsstring
}.

Section FreshInstall.

Variable W : Type.
Variable env : Env W.

(** [ --path="${this.websitePath}"] *)
Definition with_path (t : This) : jsstring :=
  lit " --path=" ++ dq ++ websitePath t ++ dq.

Definition core_install (cfg : Config) (wp : InstallCfg) (t : This) : Cmd :=
  let url := lit "http://" ++ websiteName t ++ valet_domain (valet cfg) in
  CmdText (lit "wp core install --url=" ++ dq ++ url ++ dq ++
           lit " --title=" ++ dq ++ in_siteTitle wp ++ dq ++
           lit " --admin_user=" ++ dq ++ wp_adminUser (wordpress cfg) ++ dq ++
           lit " --admin_password=" ++ dq ++ adminPassword t ++ dq ++
           lit " --admin_email=" ++ dq ++ adminEmail t ++ dq ++ with_path t).

Definition option_update (t : This) (name value : jsstring) : Cmd :=
  CmdText (lit "wp option update " ++ name ++ lit " " ++ value ++ with_path t).

Definition quoted (s : jsstring) : jsstring := dq ++ s ++ dq.

(** [if (value) { execSync(`wp option update NAME "${value}" ...`) }] *)
Definition update_if_set (t : This) (name : jsstring) (value : option jsstring)
  : M W unit :=
  match value with
  | Some v =>
      when (truthy v) (execSync env (option_update t name (quoted v)) Pipe ;; ret tt)
  | None => ret tt
  end.

Definition installWordPress (cfg : Config) (wp : InstallCfg) : M W unit :=
  t <- get_this ;;
  execSync env (core_install cfg wp t) (stdio_of cfg) ;;
  (* Configure WordPress settings *)
  when (in_usePermalinks wp)
    (execSync env (CmdText (lit "wp rewrite structure " ++
                            quoted (in_permalinkStructure wp) ++ with_path t)) Pipe ;;
     ret tt) ;;
  when (in_disableComments wp)
    (execSync env (option_update t (lit "default_comment_status") (lit "closed")) Pipe ;;
     ret tt) ;;
  when (in_disableTrackbacks wp)
    (execSync env (option_update t (lit "default_ping_status") (lit "closed")) Pipe ;;
     ret tt) ;;
  when (in_disablePingbacks wp)
    (execSync env (option_update t (lit "default_pingback_flag") (lit "0")) Pipe ;;
     ret tt) ;;
  (* Set timezone, date format, time format *)
  update_if_set t (lit "timezone_string") (in_timezone wp) ;;
  update_if_set t (lit "date_format") (in_dateFormat wp) ;;
  update_if_set t (lit "time_format") (in_timeFormat wp) ;;
  (* Set start of week *)
  match in_startOfWeek wp with
  | Some day =>
      execSync env (option_update t (lit "start_of_week") (String_of_N day)) Pipe ;;
      ret tt
  | None => ret tt
  end ;;
  (* Set privacy *)
  match in_privacy wp with
  | Some privacy =>
      when (truthy privacy)
        (execSync env (option_update t (lit "blog_public")
                         (if str_eqb privacy (lit "public") then lit "1" else lit "0"))
                  Pipe ;;
         ret tt)
  | None => ret tt
  end.

(** *** Running a plan until a command fails *)

(** [m] runs the commands of [plan] in order, stops at the first that
    fails, rethrows its error, and leaves the instance fields alone. *)
Definition runs (plan : list Cmd) (m : M W unit) : Prop :=
  forall s,
    let o := m s in
    this (final o) = this s /\
    match result o with
    | Return _ => commands (emitted o) = plan /\ succeeded (emitted o) = plan
    | Throw e =>
        exists before after c,
          plan = before ++ c :: after /\ e = ErrExec c /\
          succeeded (emitted o) = before /\
          commands (emitted o) = before ++ [c]
    end.

Lemma runs_ret : runs [] (ret tt).
Proof. intros s. cbn. auto. Qed.

Lemma runs_exec c io : runs [c] (execSync env c io ;; ret tt).
Proof.
  intros s. cbv zeta. unfold bind, execSync, call.
  destruct (env_exec env c io (world s)) as [[out|] w]; cbn; [auto|].
  split; [reflexivity|]. exists [], [], c. auto.
Qed.

Lemma runs_bind p1 p2 (m1 m2 : M W unit) :
  runs p1 m1 -> runs p2 m2 -> runs (p1 ++ p2) (m1 ;; m2).
Proof.
  intros H1 H2 s. cbv zeta. destruct (H1 s) as [Ht1 Hr1]. unfold bind.
  destruct (result (m1 s)) as [[]|e] eqn:E; cbn [result final emitted].
  - destruct (H2 (final (m1 s))) as [Ht2 Hr2]. split; [congruence|].
    destruct Hr1 as [Hc1 Hs1]. rewrite commands_app, succeeded_app, Hc1, Hs1.
    destruct (result (m2 (final (m1 s)))) as [[]|e2].
    + destruct Hr2 as [-> ->]. auto.
    + destruct Hr2 as (before & after & c & -> & -> & -> & ->).
      exists (p1 ++ before), after, c. rewrite <- !app_assoc. auto.
  - split; [exact Ht1|].
    destruct Hr1 as (before & after & c & -> & -> & Hs & Hc).
    exists before, (after ++ p2), c. rewrite <- app_assoc. auto.
Qed.

Lemma runs_when (cond : bool) p (m : M W unit) :
  runs p m -> runs (if cond then p else []) (when cond m).
Proof. intros H. destruct cond; [exact H | apply runs_ret]. Qed.

(** A value that is set and not empty. *)
Definition set_value (value : option jsstring) : option jsstring :=
  match value with
  | Some v => if truthy v then Some v else None
  | None => None
  end.

Definition plan_if_set (t : This) (name : jsstring) (value : option jsstring)
  : list Cmd :=
  match set_value value with
  | Some v => [option_update t name (quoted v)]
  | None => []
  end.

Lemma runs_update_if_set t name value :
  runs (plan_if_set t name value) (update_if_set t name value).
Proof.
  unfold plan_if_set, set_value, update_if_set.
  destruct value as [v|]; [|apply runs_ret].
  destruct (truthy v); [apply runs_exec | apply runs_ret].
Qed.

(** What a complete installation runs, in order. *)
Definition install_plan (cfg : Config) (wp : InstallCfg) (t : This) : list Cmd :=
  [core_install cfg wp t] ++
  (if in_usePermalinks wp
   then [CmdText (lit "wp rewrite structure " ++ quoted (in_permalinkStructure wp) ++
                  with_path t)]
   else []) ++
  (if in_disableComments wp
   then [option_update t (lit "default_comment_status") (lit "closed")] else []) ++
  (if in_disableTrackbacks wp
   then [option_update t (lit "default_ping_status") (lit "closed")] else []) ++
  (if in_disablePingbacks wp
   then [option_update t (lit "default_pingback_flag") (lit "0")] else []) ++
  plan_if_set t (lit "timezone_string") (in_timezone wp) ++
  plan_if_set t (lit "date_format") (in_dateFormat wp) ++
  plan_if_set t (lit "time_format") (in_timeFormat wp) ++
  match in_startOfWeek wp with
  | Some day => [option_update t (lit "start_of_week") (String_of_N day)]
  | None => []
  end ++
  match set_value (in_privacy wp) with
  | Some privacy =>
      [option_update t (lit "blog_public")
         (if str_eqb privacy (lit "public") then lit "1" else lit "0")]
  | None => []
  end.

(** X24. The fresh installation runs its plan in order: the core
    installation, then one command per setting that is switched on or
    set, where an empty time zone, date format, time format or privacy
    value counts as not set while a start of week of 0 is written.  It
    stops at the first command that fails and rethrows the error of
    that command; every command before it has succeeded, none after it
    is run, and the instance fields are left as they were. *)
Theorem installWordPress_stops_at_first_failure cfg wp s :
  let o := installWordPress cfg wp s in
  let plan := install_plan cfg wp (this s) in
  this (final o) = this s /\
  match result o with
  | Return _ => commands (emitted o) = plan /\ succeeded (emitted o) = plan
  | Throw e =>
      exists before after c,
        plan = before ++ c :: after /\ e = ErrExec c /\
        succeeded (emitted o) = before /\
        commands (emitted o) = before ++ [c]
  end.
Proof.
  cbv zeta. unfold installWordPress. rewrite bind_get_this.
  set (t := this s).
  assert (H : runs (install_plan cfg wp t)
                (execSync env (core_install cfg wp t) (stdio_of cfg) ;;
                 when (in_usePermalinks wp)
                   (execSync env (CmdText (lit "wp rewrite structure " ++
                      quoted (in_permalinkStructure wp) ++ with_path t)) Pipe ;; ret tt) ;;
                 when (in_disableComments wp)
                   (execSync env (option_update t (lit "default_comment_status")
                                    (lit "closed")) Pipe ;; ret tt) ;;
                 when (in_disableTrackbacks wp)
                   (execSync env (option_update t (lit "default_ping_status")
                                    (lit "closed")) Pipe ;; ret tt) ;;
                 when (in_disablePingbacks wp)
                   (execSync env (option_update t (lit "default_pingback_flag")
                                    (lit "0")) Pipe ;; ret tt) ;;
                 update_if_set t (lit "timezone_string") (in_timezone wp) ;;
                 update_if_set t (lit "date_format") (in_dateFormat wp) ;;
                 update_if_set t (lit "time_format") (in_timeFormat wp) ;;
                 match in_startOfWeek wp with
                 | Some day =>
                     execSync env (option_update t (lit "start_of_week")
                                     (String_of_N day)) Pipe ;; ret tt
                 | None => ret tt
                 end ;;
                 match in_privacy wp with
                 | Some privacy =>
                     when (truthy privacy)
                       (execSync env (option_update t (lit "blog_public")
                          (if str_eqb privacy (lit "public") then lit "1" else lit "0"))
                          Pipe ;; ret tt)
                 | None => ret tt
                 end)).
  { unfold install_plan.
    assert (Hfirst : forall (k : M W unit) p,
               runs p k ->
               runs ([core_install cfg wp t] ++ p)
                    (execSync env (core_install cfg wp t) (stdio_of cfg) ;; k)).
    { intros k p Hk. change (core_install cfg wp t :: p) with ([core_install cfg wp t] ++ p) in *.
      intros s0. cbv zeta. destruct (Hk s0) as [_ _].
      unfold bind, execSync, call.
      destruct (env_exec env (core_install cfg wp t) (stdio_of cfg) (world s0))
        as [[out|] w]; cbn [result final emitted this world app commands succeeded].
      - destruct (Hk {| this := this s0; world := w |}) as [Ht Hr]. split; [exact Ht|].
        destruct (result (k _)) as [[]|e].
        + destruct Hr as [-> ->]. auto.
        + destruct Hr as (before & after & c & -> & -> & -> & ->).
          exists (core_install cfg wp t :: before), after, c. auto.
      - split; [reflexivity|]. exists [], p, (core_install cfg wp t). auto. }
    apply Hfirst.
    repeat (apply runs_bind; [first [apply runs_when, runs_exec
                                     | apply runs_update_if_set]|]).
    apply runs_bind.
    - destruct (in_startOfWeek wp); [apply runs_exec | apply runs_ret].
    - unfold set_value. destruct (in_privacy wp) as [privacy|]; [|apply runs_ret].
      destruct (truthy privacy); [apply runs_exec | apply runs_ret]. }
  apply (H s).
Qed.

End FreshInstall.

(* ================================================================== *)
(** ** Further concrete runs                                           *)
(* ================================================================== *)

Module Cases.

Import World Scenario PatcherSteps.

(** The model world with nothing down. *)
Definition fresh : State World.T := started (world_with [] [] 1 nothing_down).

Lemma in_range : forall n w, 0 < n -> fst (env_random env n w) < n.
Proof. intros n w Hn. cbn. apply Nat.mod_upper_bound. lia. Qed.

(** *** The import stage with the optimize command down *)

Definition optimize_down (c : Cmd) : bool :=
  match c with
  | CmdMysql _ (Execute SqlOptimizeTables) => true
  | _ => false
  end.

(** The world without its files: the dump is missing. *)
Definition no_files : State World.T :=
  started (set_files (world_with [] [] 1 nothing_down) []).

Lemma importDatabase_stops_at_first_failure_witness :
  let o := importDatabase env reconcile_config no_files in
  this (final o) = site /\
  result o = Throw (dump_not_found env dump) /\
  emitted o = [EvPathExists (env_resolve env dump) false].
Proof.
  exact (@importDatabase_stops_at_first_failure World.T env reconcile_config
           no_files dump eq_refl eq_refl).
Defined.

Example failed_optimize_is_fatal :
  let o := importDatabase env reconcile_config
             (started (world_with [] [] 1 optimize_down)) in
  result o = Throw (ErrExec (optimize_command reconcile_config site)) /\
  commands (emitted o) =
    [ import_command env reconcile_config site dump;
      optimize_command reconcile_config site ] /\
  succeeded (emitted o) = [import_command env reconcile_config site dump].
Proof. vm_compute. repeat split. Qed.

(** *** A Docker host

    Whether the container exists and whether it runs.  A run under a
    name that is taken fails; the server answers the probe when the
    container runs. *)

Record Host := { present : bool; up : bool }.

Definition running : Host := {| present := true; up := true |}.
Definition stopped : Host := {| present := true; up := false |}.

Definition host : Env Host :=
  {| env_exec := fun c _ h =>
       match c with
       | CmdDockerPsAll name => (Some (if present h then name ++ nl else []), h)
       | CmdDockerPs name => (Some (if up h then name ++ nl else []), h)
       | CmdDockerStart name =>
           if present h then (Some (name ++ nl), running) else (None, h)
       | CmdDockerVolumeCreate volume => (Some (volume ++ nl), h)
       | CmdDockerRun _ _ _ _ _ _ =>
           if present h then (None, h) else (Some (lit "4f2a91c07b3e" ++ nl), running)
       | CmdText _ => if up h then (Some [], h) else (None, h)
       | _ => (None, h)
       end;
     env_connect := fun _ _ _ _ h => (up h, h);
     env_query := fun _ h => (None, h);
     env_end := fun h => (true, h);
     env_sleep := fun _ h => h;
     env_get := fun _ h => (None, h);
     env_random := fun _ h => (0, h);
     env_now := fun h => ([], h);
     env_pathExists := fun _ h => (false, h);
     env_copy := fun _ _ h => (false, h);
     env_readFile := fun _ h => (None, h);
     env_writeFile := fun _ _ h => (false, h);
     env_join := fun a b => a ++ lit "/" ++ b;
     env_resolve := fun p => p;
     env_md5hex := md5hex |}.

(** The configuration of the site with Docker mode on. *)
Definition container_config : Config :=
  {| database :=
       {| db_host := lit "127.0.0.1"; db_user := lit "root";
          db_password := lit "rootpw"; db_port := 3307;
          db_charset := lit "utf8mb4"; db_collate := lit "utf8mb4_unicode_ci";
          db_prefix := lit "wp_"; db_createUser := false;
          db_userPrefix := lit "wp_";
          db_grantPrivileges := [lit "ALL PRIVILEGES"];
          db_docker :=
            {| dk_enabled := true; dk_containerName := lit "mysql";
               dk_image := lit "mysql:8.0"; dk_port := 3307; dk_rootPassword := [];
               dk_dataVolume := lit "mysql_data"; dk_network := lit "bridge" |} |};
     wordpress := wordpress reconcile_config;
     sql := sql reconcile_config;
     development := development reconcile_config;
     security := security reconcile_config;
     valet := valet reconcile_config;
     custom := custom reconcile_config;
     advanced := advanced reconcile_config |}.

Definition on_host (h : Host) : State Host := {| this := site; world := h |}.

Lemma ensureDockerMysql_existing_container_witness :
  let o := ensureDockerMysql host container_config (on_host running) in
  forallb no_create (emitted o) = true /\
  o = {| result := Return tt;
         final := on_host running;
         emitted := [ EvExec (ps_all container_config) Pipe (Some (lit "mysql" ++ nl));
                      EvExec (ps_running container_config) Pipe
                        (Some (lit "mysql" ++ nl)) ] |}.
Proof.
  destruct (@ensureDockerMysql_existing_container Host host container_config
              (on_host running) (lit "mysql" ++ nl) running eq_refl eq_refl eq_refl)
    as [H1 H2].
  split; [exact H1|].
  exact (H2 (lit "mysql" ++ nl) running eq_refl eq_refl).
Defined.

Lemma ensureDockerMysql_stopped_container_witness :
  let o := ensureDockerMysql host container_config (on_host stopped) in
  let poll := waitForMysql host container_config maxAttempts_default (on_host running) in
  result o = result poll /\
  commands (emitted o) =
    [ps_all container_config; ps_running container_config;
     docker_start container_config] ++ commands (emitted poll).
Proof.
  exact (@ensureDockerMysql_stopped_container Host host container_config
           (on_host stopped) (lit "mysql" ++ nl) stopped (Some []) stopped
           (Some (lit "mysql" ++ nl)) running
           eq_refl eq_refl eq_refl eq_refl eq_refl eq_refl).
Defined.

Example stopped_container_is_started :
  let o := ensureDockerMysql host container_config (on_host stopped) in
  result o = Return tt /\ world (final o) = running /\
  commands (emitted o) =
    [ps_all container_config; ps_running container_config;
     docker_start container_config; CmdText (testCommand container_config)].
Proof. vm_compute. repeat split. Qed.

Lemma createDockerMysql_falls_back_to_start_witness :
  let o := createDockerMysql dead container_config nowhere in
  result o = Throw (create_or_start_failed container_config) /\
  commands (emitted o) =
    [volume_create container_config; docker_run container_config;
     docker_start container_config].
Proof.
  exact (@createDockerMysql_falls_back_to_start unit dead container_config nowhere
           None tt tt None tt eq_refl eq_refl eq_refl).
Defined.

(** A name that is taken: the run fails, the start succeeds. *)
Example taken_name_is_started :
  let o := createDockerMysql host container_config (on_host stopped) in
  result o = Return tt /\ world (final o) = running.
Proof. vm_compute. split; reflexivity. Qed.

(** *** Provisioning a dedicated user *)

Lemma createDatabase_credentials_witness :
  exists p,
    db_createUser (database dedicated_config) = true /\
    List.length p = 16 /\
    Forall (fun c => In c password_chars) p /\
    this (final (createDatabase env dedicated_config fresh)) =
      set_credentials site (dedicated_user dedicated_config site) p /\
    map fst (statements (emitted (createDatabase env dedicated_config fresh))) =
      [ drop_database_sql site; create_database_sql dedicated_config site;
        show_databases_sql site;
        create_user_sql dedicated_config (dedicated_user dedicated_config site) p;
        grant_sql dedicated_config site (dedicated_user dedicated_config site);
        lit "FLUSH PRIVILEGES" ] /\
    forallb answered (statements (emitted (createDatabase env dedicated_config fresh)))
      = true.
Proof.
  destruct (@createDatabase_credentials World.T env in_range dedicated_config fresh
              eq_refl) as [[H _]|H].
  - vm_compute in H. discriminate H.
  - exact H.
Defined.

(** *** The raw strategy on the model schema *)

Lemma performDirectSearchReplace_shape_witness :
  let o := performDirectSearchReplace env reconcile_config
             (lit "http://example.com") (lit "http://demo.test") fresh in
  let out := print_rows (lit "Tables_in_wp_demo") (map fst schema) in
  this (final o) = site /\
  exists groups,
    Forall2 (table_group reconcile_config site
               (lit "http://example.com") (lit "http://demo.test"))
            (table_lines out) groups /\
    emitted o =
      EvExec (show_tables reconcile_config site) Pipe (Some out) :: List.concat groups.
Proof.
  apply (@performDirectSearchReplace_shape World.T env reconcile_config
           (lit "http://example.com") (lit "http://demo.test") fresh
           (Some (print_rows (lit "Tables_in_wp_demo") (map fst schema)))
           (world fresh)).
  vm_compute. reflexivity.
Defined.

(** The table of options takes one command, the table of posts six. *)
Example raw_strategy_on_schema :
  let o := performDirectSearchReplace env reconcile_config
             (lit "http://example.com") (lit "http://demo.test") fresh in
  List.length (commands (emitted o)) = 8 /\
  List.length (succeeded (emitted o)) = 5.
Proof. vm_compute. split; reflexivity. Qed.

(** *** The rules in order *)

Definition two_rules : Config :=
  config false (Some dump) (lit "http://old.example") (lit "old.example") true
    [ {| search := lit "cdn.old.example"; replace := lit "cdn.demo.test" |};
      {| search := lit "same"; replace := lit "same" |} ] [].

Lemma performSearchReplace_rule_order_witness :
  primary_commands (emitted (performSearchReplace env two_rules fresh)) =
  map (fun ab => wp_search_replace two_rules site (fst ab) (snd ab))
      (rules_run two_rules site).
Proof.
  apply (@performSearchReplace_rule_order World.T env two_rules fresh); reflexivity.
Defined.

Example four_rules_in_order :
  map fst (rules_run two_rules site) =
  [lit "http://old.example"; lit "old.example"; lit "cdn.old.example"; lit "same"].
Proof. vm_compute. reflexivity. Qed.

(** *** The account and its capabilities *)

(** A client that runs every command and prints nothing. *)
Definition silent : Env unit :=
  {| env_exec := fun _ _ w => (Some [], w);
     env_connect := fun _ _ _ _ w => (true, w);
     env_query := fun _ w => (Some 1, w);
     env_end := fun w => (true, w);
     env_sleep := fun _ w => w;
     env_get := fun _ w => (None, w);
     env_random := fun _ w => (0, w);
     env_now := fun w => (lit "2024-05-06T07:08:09.123Z", w);
     env_pathExists := fun _ w => (true, w);
     env_copy := fun _ _ w => (true, w);
     env_readFile := fun _ w => (None, w);
     env_writeFile := fun _ _ w => (true, w);
     env_join := fun a b => a ++ lit "/" ++ b;
     env_resolve := fun p => p;
     env_md5hex := md5hex |}.

(** The lookup prints no line: the account is inserted, no capability
    is granted, the stage returns. *)
Example account_without_capabilities :
  let o := createAdminUser silent reconcile_config nowhere in
  result o = Return tt /\
  List.length (succeeded (emitted o)) = 3 /\
  filter grants_capabilities (commands (emitted o)) = [].
Proof. vm_compute. repeat split. Qed.

(** In the model world the lookup prints the new ID, and the
    capabilities are granted to it. *)
Example account_with_capabilities :
  let o := createAdminUser env reconcile_config fresh in
  result o = Return tt /\
  filter grants_capabilities (commands (emitted o)) =
    [capabilities_command reconcile_config site (lit "7")].
Proof. vm_compute. repeat split. Qed.

(** *** The patcher *)

Definition plain_text : jsstring := lit "<?php" ++ nl ++ lit "echo 'hello';" ++ nl.

Lemma updateWpConfig_text_without_anchors_witness :
  Patcher.updateWpConfig_text dedicated_config site (lit "salts") plain_text = plain_text.
Proof.
  apply updateWpConfig_text_without_anchors; vm_compute; reflexivity.
Defined.

Lemma marker_replacement_discards_tail_witness :
  307 + 163 = List.length sample_config /\
  replace_re sample_config Patcher.marker_re (lit "// end") =
    firstn 307 sample_config ++
    getSubstitution (skipn 307 sample_config) (firstn 307 sample_config) []
      (lit "// end").
Proof.
  apply marker_replacement_discards_tail. vm_compute. reflexivity.
Defined.

(** On the sample, the lines after the marker comment are gone. *)
Example sample_loses_its_tail :
  includes sample_config (lit "require_once ABSPATH . 'wp-settings.php';") = true /\
  includes (patch [] sample_config) (lit "require_once ABSPATH . 'wp-settings.php';")
    = false /\
  includes (patch [] sample_config) (lit "define( 'ABSPATH', __DIR__ . '/' );") = false /\
  includes (patch [] sample_config) require_settings = true.
Proof. vm_compute. repeat split. Qed.

Lemma define_written_verbatim_witness :
  replace_re sample_config (Patcher.define_re (lit "DB_NAME"))
    (Patcher.define_stmt (lit "DB_NAME") (lit "wp_demo")) =
  firstn 6 sample_config ++ Patcher.define_stmt (lit "DB_NAME") (lit "wp_demo") ++
  skipn (6 + 41) sample_config.
Proof.
  apply define_written_verbatim;
    [ vm_compute; intuition discriminate
    | vm_compute; intuition discriminate
    | vm_compute; reflexivity ].
Defined.

Lemma define_trailing_dollar_splices_rest_witness :
  replace_re sample_config (Patcher.define_re (lit "DB_PASSWORD"))
    (Patcher.define_stmt (lit "DB_PASSWORD") (lit "secret" ++ lit "$")) =
  firstn 87 sample_config ++
  (lit "define( '" ++ lit "DB_PASSWORD" ++ lit "', '" ++ lit "secret" ++
   skipn (87 + 40) sample_config ++ lit " )") ++
  skipn (87 + 40) sample_config.
Proof.
  apply define_trailing_dollar_splices_rest;
    [ vm_compute; intuition discriminate
    | vm_compute; intuition discriminate
    | vm_compute; reflexivity ].
Defined.

(** The dollar sign can be drawn, and a password that ends in it does
    not reach the file. *)
Example dollar_in_password_alphabet :
  existsb (N.eqb 36) password_chars = true /\
  includes
    (replace_re sample_config (Patcher.define_re (lit "DB_PASSWORD"))
       (Patcher.define_stmt (lit "DB_PASSWORD") (lit "secret$")))
    (lit "define( 'DB_PASSWORD', 'secret$' )") = false.
Proof. vm_compute. split; reflexivity. Qed.

(** *** The probe in Docker mode *)

Lemma testCommand_in_container_witness :
  testCommand container_config =
  lit "docker exec mysql mysql -hlocalhost -uroot -prootpw -P3306 -e " ++
  dq ++ lit "SELECT 1" ++ dq.
Proof.
  apply (@testCommand_in_container container_config);
    [ reflexivity
    | vm_compute; intuition discriminate
    | vm_compute; intuition discriminate ].
Defined.

(** *** The validators *)

Example names_accepted_and_refused :
  validate_websiteName (lit "my-site_01") = Valid /\
  validate_websiteName (lit "my site") =
    Invalid (lit "Website name can only contain letters, numbers, hyphens, and underscores") /\
  validate_websiteName (lit "  ") = Invalid (lit "Website name is required") /\
  validate_adminPassword (lit "a       ") = Valid /\
  validate_adminPassword (lit "short") =
    Invalid (lit "Password must be at least 8 characters long").
Proof. vm_compute. repeat split. Qed.

Example emails_accepted_and_refused :
  validate_adminEmail (lit "admin@example.com") = Valid /\
  validate_adminEmail (lit "a@b.c.d") = Valid /\
  validate_adminEmail (lit "a@b") = Invalid (lit "Please enter a valid email address") /\
  validate_adminEmail (lit "a@b@c.d") = Invalid (lit "Please enter a valid email address") /\
  validate_adminEmail (lit "a b@c.d") = Invalid (lit "Please enter a valid email address").
Proof. vm_compute. repeat split. Qed.

(** *** Hooks *)

Lemma hookWithPath_rewrites_every_wp_witness :
  hookWithPath site (lit "wp cache flush") =
  lit "wp --path=" ++ dq ++ lit "/srv/demo" ++ dq ++ lit " cache flush".
Proof.
  assert (Hp : ~ In 36%N (websitePath site)) by (vm_compute; intuition discriminate).
  destruct (@hookWithPath_rewrites_every_wp site Hp) as [H1 H2].
  change (lit "wp cache flush") with ([] ++ wp_word ++ lit "cache flush").
  rewrite (H2 [] (lit "cache flush") eq_refl).
  rewrite (H1 (lit "cache flush") eq_refl).
  reflexivity.
Defined.

(** The option is inserted wherever the three units occur, and again on
    a second pass. *)
Example hook_inside_a_word :
  hookWithPath site (lit "cd /tmp/wp && ls") =
    lit "cd /tmp/wp --path=" ++ dq ++ lit "/srv/demo" ++ dq ++ lit " && ls" /\
  hookWithPath site (hookWithPath site (lit "wp cache flush")) =
    lit "wp --path=" ++ dq ++ lit "/srv/demo" ++ dq ++
    lit " --path=" ++ dq ++ lit "/srv/demo" ++ dq ++ lit " cache flush".
Proof. vm_compute. split; reflexivity. Qed.

Definition false_down (c : Cmd) : bool :=
  match c with
  | CmdText text => str_eqb text (lit "false")
  | _ => false
  end.

Example failing_hook_stops_the_rest :
  let o := runHooks env reconcile_config
             (Some [lit "wp cache flush"; lit "false"; lit "wp rewrite flush"])
             (started (world_with [] [] 1 false_down)) in
  result o = Throw (ErrExec (CmdText (lit "false"))) /\
  commands (emitted o) =
    [CmdText (hookWithPath site (lit "wp cache flush")); CmdText (lit "false")].
Proof. vm_compute. split; reflexivity. Qed.

(** *** The Valet stage *)

Definition parent (p : jsstring) : jsstring := lit "/srv".

Example secure_has_no_effect_with_park :
  commands (emitted (setupValet env parent reconcile_config
                       {| vs_skipValetSetup := false; vs_enabled := true;
                          vs_park := true; vs_proxy := false; vs_secure := true |}
                       fresh))
  = [valet_park parent site].
Proof. vm_compute. reflexivity. Qed.

Example valet_failure_is_swallowed :
  let o := setupValet dead parent reconcile_config
             {| vs_skipValetSetup := false; vs_enabled := true;
                vs_park := false; vs_proxy := false; vs_secure := true |}
             nowhere in
  result o = Return tt /\ commands (emitted o) = [valet_link site].
Proof. vm_compute. split; reflexivity. Qed.

(** *** The configuration file on disk *)

Example patched_file_is_written_once :
  let o := updateWpConfig env reconcile_config fresh in
  result o = Return tt /\ List.length (writes (emitted o)) = 1.
Proof. vm_compute. split; reflexivity. Qed.

Example unreadable_file_is_not_written :
  let o := updateWpConfig dead reconcile_config nowhere in
  result o = Throw (ErrFs (lit "/srv/demo/wp-config-sample.php")) /\
  writes (emitted o) = [].
Proof. vm_compute. split; reflexivity. Qed.

(** *** The permissions of the uploads *)

Definition below (a b : jsstring) : jsstring := a ++ lit "/" ++ b.

Definition uploads_tree : list Entry :=
  [ {| entry_path := lit "2024"; entry_isDirectory := true |};
    {| entry_path := lit "2024/logo.png"; entry_isDirectory := false |};
    {| entry_path := lit ".htaccess"; entry_isDirectory := false |};
    {| entry_path := lit ".cache/index"; entry_isDirectory := false |} ].

Definition target : jsstring := lit "/srv/demo/wp-content/uploads".

Lemma distinct_paths :
  NoDup (map (fun x => below target (entry_path x)) uploads_tree).
Proof.
  repeat (apply NoDup_cons; [cbn; intuition discriminate|]). apply NoDup_nil.
Defined.

(** The file at 600 is passed over: it keeps its mode. *)
Lemma copyUploads_modes_witness :
  mode_after (chmod_calls below target uploads_tree 420 493)
             (below target (lit ".htaccess")) (Some 384%N)
  = Some 384%N.
Proof.
  apply (@copyUploads_modes below uploads_tree target 420%N 493%N
           {| entry_path := lit ".htaccess"; entry_isDirectory := false |}
           (Some 384%N) distinct_paths).
  right. right. left. reflexivity.
Defined.

Example modes_of_the_tree :
  map (fun e => mode_after (chmod_calls below target uploads_tree 420 493)
                           (below target (entry_path e)) (Some 384%N))
      uploads_tree
  = [Some 493; Some 493; Some 384; Some 384]%N.
Proof. vm_compute. reflexivity. Qed.

(** *** Plugins and themes *)

Definition leaf (p : jsstring) : jsstring := lit "my-plugin".

Definition some_plugins : PluginsCfg :=
  {| pl_skipPluginInstallation := false;
     pl_wordpressOrg := [lit "akismet"];
     pl_local := [lit "/nowhere/my-plugin"];
     pl_github := [];
     pl_zip := [lit "/nowhere/other.zip"];
     pl_removeDefault := [lit "hello"];
     pl_activateAll := true;
     pl_updateAfterInstall := false |}.

Definition install_akismet : Cmd :=
  CmdText (lit "wp plugin install akismet --path=" ++ dq ++ lit "/srv/demo" ++ dq ++
           lit " --activate").

Definition delete_hello : Cmd :=
  CmdText (lit "wp plugin delete hello --path=" ++ dq ++ lit "/srv/demo" ++ dq).

(** A host on which every removal fails, one local folder is there, and
    a copy succeeds when its source is there. *)
Definition here (p : jsstring) : bool := str_eqb p (lit "/here/my-plugin").

Definition picky : Env unit :=
  {| env_exec := fun c _ w => (if is_delete c then None else Some [], w);
     env_connect := fun _ _ _ _ w => (false, w);
     env_query := fun _ w => (None, w);
     env_end := fun w => (false, w);
     env_sleep := fun _ w => w;
     env_get := fun _ w => (None, w);
     env_random := fun _ w => (0, w);
     env_now := fun w => ([], w);
     env_pathExists := fun p w => (here p, w);
     env_copy := fun src _ w => (here src, w);
     env_readFile := fun _ w => (None, w);
     env_writeFile := fun _ _ w => (false, w);
     env_join := fun a b => a ++ lit "/" ++ b;
     env_resolve := fun p => p;
     env_md5hex := md5hex |}.

Lemma picky_commands : commands_work picky.
Proof. intros c io w H. cbn. rewrite H. discriminate. Defined.

Lemma picky_copies : found_is_copied picky.
Proof. intros src dst w H. exact H. Defined.

Lemma installPlugins_fatal_errors_witness :
  result (installPlugins picky leaf reconcile_config some_plugins nowhere) = Return tt.
Proof.
  exact (proj2 (proj2 (@installPlugins_fatal_errors unit picky leaf reconcile_config
                         some_plugins nowhere))
               picky_commands picky_copies).
Defined.

(** There the folder that exists is copied and activated, the missing
    one and the missing archive are passed over, the removal fails. *)
Example plugins_on_the_picky_host :
  let both := {| pl_skipPluginInstallation := false;
                 pl_wordpressOrg := [];
                 pl_local := [lit "/nowhere/my-plugin"; lit "/here/my-plugin"];
                 pl_github := [];
                 pl_zip := [lit "/nowhere/other.zip"];
                 pl_removeDefault := [lit "hello"];
                 pl_activateAll := true;
                 pl_updateAfterInstall := false |} in
  let o := installPlugins picky leaf reconcile_config both nowhere in
  result o = Return tt /\
  List.length (filter (fun e => match e with EvCopy _ _ _ => true | _ => false end)
                      (emitted o)) = 1 /\
  List.length (commands (emitted o)) = 2 /\
  List.length (succeeded (emitted o)) = 1.
Proof. vm_compute. repeat split. Qed.

Definition delete_down (c : Cmd) : bool := is_delete c.

(** The folder and the archive are not there, the removal fails: the
    stage returns. *)
Example removal_and_missing_paths_are_not_fatal :
  let o := installPlugins env leaf reconcile_config some_plugins
             (started (world_with [] [] 1 delete_down)) in
  result o = Return tt /\
  commands (emitted o) = [install_akismet; delete_hello] /\
  succeeded (emitted o) = [install_akismet].
Proof. vm_compute. repeat split. Qed.

Definition some_themes : ThemesCfg :=
  {| th_skipThemeInstallation := false;
     th_wordpressOrg := [];
     th_local := [lit "/nowhere/my-theme"];
     th_github := [{| gh_repo := lit "acme/theme"; gh_branch := None;
                      gh_activate := false |}];
     th_zip := [];
     th_removeDefault := [lit "twentytwenty"];
     th_activate := Some (lit "theme");
     th_updateAfterInstall := true |}.

Definition install_theme : Cmd :=
  CmdText (lit "wp theme install https://github.com/acme/theme/archive/main.zip --path=" ++
           dq ++ lit "/srv/demo" ++ dq).

Lemma installThemes_fatal_errors_witness :
  result (installThemes picky leaf reconcile_config some_themes nowhere) = Return tt.
Proof.
  exact (proj2 (proj2 (@installThemes_fatal_errors unit picky leaf reconcile_config
                         some_themes nowhere))
               picky_commands picky_copies).
Defined.

(** A theme that cannot be installed ends the stage. *)
Example failed_theme_install_is_fatal :
  result (installThemes dead leaf reconcile_config some_themes nowhere) =
  Throw (ErrExec install_theme).
Proof. vm_compute. reflexivity. Qed.

Example themes_in_order :
  let o := installThemes env leaf reconcile_config some_themes
             (started (world_with [] [] 1 delete_down)) in
  result o = Return tt /\
  List.length (commands (emitted o)) = 4 /\
  List.length (succeeded (emitted o)) = 3.
Proof. vm_compute. repeat split. Qed.

(** *** A fresh installation whose permalink command fails *)

Definition settings : InstallCfg :=
  {| in_siteTitle := lit "Demo";
     in_usePermalinks := true;
     in_permalinkStructure := lit "/%postname%/";
     in_disableComments := true;
     in_disableTrackbacks := false;
     in_disablePingbacks := false;
     in_timezone := Some [];
     in_dateFormat := None;
     in_timeFormat := None;
     in_startOfWeek := Some 0%N;
     in_privacy := Some (lit "Public") |}.

Definition rewrite_structure : Cmd :=
  CmdText (lit "wp rewrite structure " ++ dq ++ lit "/%postname%/" ++ dq ++
           lit " --path=" ++ dq ++ lit "/srv/demo" ++ dq).

Definition rewrite_down (c : Cmd) : bool :=
  match c with
  | CmdText text => startsWith (lit "wp rewrite") text
  | _ => false
  end.

(** The empty time zone is skipped, day 0 is written, and a privacy
    value other than the exact word public closes the site to search
    engines. *)
Example settings_written :
  let o := installWordPress env reconcile_config settings fresh in
  result o = Return tt /\
  List.map Render.render (List.tl (commands (emitted o))) =
    [ Render.render rewrite_structure;
      lit "wp option update default_comment_status closed --path=" ++
        dq ++ lit "/srv/demo" ++ dq;
      lit "wp option update start_of_week 0 --path=" ++ dq ++ lit "/srv/demo" ++ dq;
      lit "wp option update blog_public 0 --path=" ++ dq ++ lit "/srv/demo" ++ dq ].
Proof. vm_compute. repeat split. Qed.

(** The site is installed, then the stage fails. *)
Example failed_setting_is_fatal :
  let o := installWordPress env reconcile_config settings
             (started (world_with [] [] 1 rewrite_down)) in
  result o = Throw (ErrExec rewrite_structure) /\
  succeeded (emitted o) = [core_install reconcile_config settings site].
Proof. vm_compute. repeat split. Qed.

End Cases.
